(** * SGCL: scene-graph captioning decoder

    A shallow embedding of the graph builder of [src/utils.py]
    ([create_batched_graphs_augmented] and the drop helpers) and of the three
    modules of [src/models.py] ([Attention], [ContextGAT] and
    [cascade_sg_first_contextGAT_Decoder]), followed by
    [create_batched_graphs], the word map and caption encoding of
    [create_input_files] and the [AverageMeter] of [src/utils.py], and the
    [CaptionDataset] of [src/datasets.py].

    Conventions.
    - A float tensor is a list of real numbers ([vec]), a matrix a list of rows
      ([mat]); floating-point rounding, infinities and NaN are idealised away.
      Where torch would produce NaN (the mean over zero rows) the value here
      is the zero vector and carries no meaning: the statements about a mean
      assume at least one row.  The statements on attention weights and on
      [AverageMeter] are those that stay true when each operation on reals is
      read as its floating-point counterpart on finite inputs.
    - A matrix with no rows has no width of its own ([width] gives 0), where
      a tensor of shape (0, D) keeps its D: the statements about rows that
      DGL adds to a feature field assume the field has a row already.
    - A batch is a list with one entry per sample, and the tensors of a call
      hold the same number of samples; broadcasting over a batch of one is
      not modelled.
    - Integer tensors (token ids, caption lengths, the augmentation code) are
      [Z]; slot and node indices are [nat].
    - A Python exception is the [Raise] case of [result].
    - An [nn.Module] is a record whose learned layers are function fields;
      a layer acts on each row of its batch, and a dropout layer is one
      fixed function (its mask is not drawn anew at each call).
    - Index and mask operations raise as in Python; the row-wise
      concatenations that only feed learned layers are zips and do not
      re-check that their operands have the same number of rows.
    - [torch.sort] is taken to keep equal lengths in their original order.
    - DGL is an external library; its graph operations are modelled after its
      documentation (release 0.5/0.6, the one that has [preserve_nodes]):
      [add_edges] adds the nodes its endpoints need, new nodes and edges get
      zero features, a node that receives no message gets a zero row. *)

From Stdlib Require Import List ZArith Reals Lra Lia Bool Arith Sorted.
From Stdlib Require String.
Import ListNotations.

Set Implicit Arguments.

(** ** Python results *)

Inductive exn : Type :=
| ValueError | AssertionError | IndexError | RuntimeError | KeyError
| UnboundLocalError | DGLError.

Inductive result (A : Type) : Type :=
| Ok (a : A)
| Raise (e : exn).

Arguments Ok {A} a.
Arguments Raise {A} e.

Definition bind {A B : Type} (m : result A) (f : A -> result B) : result B :=
  match m with
  | Ok a => f a
  | Raise e => Raise e
  end.

Notation "x <- m ;; k" := (bind m (fun x => k))
  (at level 61, m at next level, right associativity).
Notation "' pat <- m ;; k" := (bind m (fun x => match x with pat => k end))
  (at level 61, pat pattern, m at next level, right associativity).

(** [for x in xs: s = body(s, x)], stopping at the first exception. *)
Fixpoint for_each {A S : Type} (xs : list A) (body : S -> A -> result S) (s : S)
  : result S :=
  match xs with
  | [] => Ok s
  | x :: xs' => s' <- body s x ;; for_each xs' body s'
  end.

(** [for i in range(n)]. *)
Definition for_range {S : Type} (n : nat) (body : S -> nat -> result S) (s : S)
  : result S :=
  for_each (seq 0 n) body s.

Fixpoint mapM {A B : Type} (f : A -> result B) (xs : list A) : result (list B) :=
  match xs with
  | [] => Ok []
  | x :: xs' => y <- f x ;; ys <- mapM f xs' ;; Ok (y :: ys)
  end.

(** ** Tensors *)

Module Torch.

Definition vec := list R.
Definition mat := list vec.

(** [torch.zeros(d)] *)
Definition zeros (d : nat) : vec := repeat 0%R d.

Fixpoint map2 {A B C : Type} (f : A -> B -> C) (xs : list A) (ys : list B)
  : list C :=
  match xs, ys with
  | x :: xs', y :: ys' => f x y :: map2 f xs' ys'
  | _, _ => []
  end.

Definition vadd (u v : vec) : vec := map2 Rplus u v.

(** [v * a] for a scalar [a] *)
Definition vscale (a : R) (v : vec) : vec := map (fun x => (x * a)%R) v.

(** [v.sum(dim=-1)] *)
Definition rsum (v : vec) : R := fold_right Rplus 0%R v.

(** Last dimension of a matrix. *)
Definition width (m : mat) : nat :=
  match m with
  | [] => 0
  | r :: _ => length r
  end.

(** [m.sum(dim=0)] of a matrix whose rows have [d] entries *)
Definition sum_rows (d : nat) (m : mat) : vec := fold_right vadd (zeros d) m.

(** [m.mean(0)]; meaningful for at least one row (of no rows torch gives
    NaN). *)
Definition mean_rows (d : nat) (m : mat) : vec :=
  map (fun x => (x / INR (length m))%R) (sum_rows d m).

(** [torch.cat([a, b], dim=1)] on matrices *)
Definition cat1 (a b : mat) : mat := map2 (@app R) a b.

(** [relu] *)
Definition relu (v : vec) : vec := map (Rmax 0) v.

(** [x != 0] on a scalar *)
Definition Rneqb (x y : R) : bool := if Req_dec_T x y then false else true.

Definition Rltb (x y : R) : bool := if Rlt_dec x y then true else false.

(** [m.sum()] of a boolean mask *)
Definition count_true (m : list bool) : nat := length (filter (fun b => b) m).

(** [x[i]], raising [IndexError] out of range *)
Definition get {A : Type} (xs : list A) (i : nat) : result A :=
  match nth_error xs i with
  | Some x => Ok x
  | None => Raise IndexError
  end.

(** [x[i] = v] *)
Fixpoint update {A : Type} (xs : list A) (i : nat) (v : A) : list A :=
  match xs, i with
  | [], _ => []
  | _ :: xs', 0 => v :: xs'
  | x :: xs', S i' => x :: update xs' i' v
  end.

Definition set_item {A : Type} (xs : list A) (i : nat) (v : A) : result (list A) :=
  if i <? length xs then Ok (update xs i v) else Raise IndexError.

(** Rows of [xs] at the true positions of [m]. *)
Fixpoint select {A : Type} (xs : list A) (m : list bool) : list A :=
  match xs, m with
  | x :: xs', b :: m' => if b then x :: select xs' m' else select xs' m'
  | _, _ => []
  end.

(** [x[m]] for a boolean mask [m] over the first dimension *)
Definition index_mask {A : Type} (xs : list A) (m : list bool) : result (list A) :=
  if length xs =? length m then Ok (select xs m) else Raise IndexError.

(** Rows of [xs] at the true positions of [m] replaced, in order, by [vals]. *)
Fixpoint scatter {A : Type} (xs : list A) (m : list bool) (vals : list A) : list A :=
  match xs, m with
  | x :: xs', b :: m' =>
      if b then
        match vals with
        | v :: vals' => v :: scatter xs' m' vals'
        | [] => x :: scatter xs' m' []
        end
      else x :: scatter xs' m' vals
  | _, _ => xs
  end.

(** [x[m] = vals]: the value must have one row per selected position, or a
    single row that is broadcast. *)
Definition index_put {A : Type} (xs : list A) (m : list bool) (vals : list A)
  : result (list A) :=
  if negb (length xs =? length m) then Raise IndexError
  else if length vals =? count_true m then Ok (scatter xs m vals)
  else match vals with
       | [v] => Ok (scatter xs m (repeat v (count_true m)))
       | _ => Raise RuntimeError
       end.

(** [m.nonzero()]: positions of the true entries, counted from [i]. *)
Fixpoint nonzero_from (i : nat) (m : list bool) : list nat :=
  match m with
  | [] => []
  | b :: m' => if b then i :: nonzero_from (S i) m' else nonzero_from (S i) m'
  end.

Definition nonzero (m : list bool) : list nat := nonzero_from 0 m.

(** [x[idx]] for an index tensor [idx] *)
Definition gather {A : Type} (xs : list A) (idx : list nat) : result (list A) :=
  mapM (get xs) idx.

(** [v.expand(rows, cols)] of a one-dimensional [v] *)
Definition expand (v : vec) (rows cols : nat) : result mat :=
  if length v =? cols then Ok (repeat v rows)
  else match v with
       | [x] => Ok (repeat (repeat x cols) rows)
       | _ => Raise RuntimeError
       end.

(** [torch.cat((a, b), 0)] of matrices of widths [wa] and [wb] *)
Definition cat0 (wa : nat) (a : mat) (wb : nat) (b : mat) : result mat :=
  if wa =? wb then Ok (a ++ b) else Raise RuntimeError.

(** [x[:n]] *)
Definition upto {A : Type} (n : nat) (xs : list A) : list A := firstn n xs.

End Torch.
Import Torch.

(** ** DGL graphs *)

Module DGL.

(** A [dgl.DGLGraph] with the two feature fields the program uses:
    [ndata['F_n']] and [edata['F_e']] ([None] while the field is unset). *)
Record DGLGraph : Type := {
  num_nodes : nat;
  ndata_F_n : option mat;
  edge_list : list (nat * nat);
  edata_F_e : option mat
}.

Definition num_edges (g : DGLGraph) : nat := length (edge_list g).

(** [dgl.DGLGraph()] *)
Definition empty : DGLGraph :=
  {| num_nodes := 0; ndata_F_n := None; edge_list := []; edata_F_e := None |}.

(** Existing feature fields get zero rows for new nodes or edges, of the
    width of the rows the field holds. *)
Definition grow (k : nat) (f : option mat) : option mat :=
  option_map (fun m => m ++ repeat (zeros (width m)) k) f.

(** [graph.add_nodes(num)] *)
Definition add_nodes (g : DGLGraph) (num : nat) : DGLGraph :=
  {| num_nodes := num_nodes g + num;
     ndata_F_n := grow num (ndata_F_n g);
     edge_list := edge_list g;
     edata_F_e := edata_F_e g |}.

(** One more than the largest endpoint of [es] (0 for no edge). *)
Definition endpoint_bound (es : list (nat * nat)) : nat :=
  fold_right (fun e acc => Nat.max (S (Nat.max (fst e) (snd e))) acc) 0 es.

(** [graph.add_edges(u, v)]: endpoints that are not nodes yet are added
    implicitly. *)
Definition add_edges (g : DGLGraph) (es : list (nat * nat)) : DGLGraph :=
  let g' := add_nodes g (endpoint_bound es - num_nodes g) in
  {| num_nodes := num_nodes g';
     ndata_F_n := ndata_F_n g';
     edge_list := edge_list g' ++ es;
     edata_F_e := grow (length es) (edata_F_e g') |}.

(** [graph.ndata['F_n'] = x] *)
Definition set_ndata (g : DGLGraph) (x : mat) : result DGLGraph :=
  if length x =? num_nodes g then
    Ok {| num_nodes := num_nodes g; ndata_F_n := Some x;
          edge_list := edge_list g; edata_F_e := edata_F_e g |}
  else Raise DGLError.

(** [graph.edata['F_e'] = x] *)
Definition set_edata (g : DGLGraph) (x : mat) : result DGLGraph :=
  if length x =? num_edges g then
    Ok {| num_nodes := num_nodes g; ndata_F_n := ndata_F_n g;
          edge_list := edge_list g; edata_F_e := Some x |}
  else Raise DGLError.

(** [graph.ndata['F_n']] and [graph.edata['F_e']] *)
Definition ndata (g : DGLGraph) : result mat :=
  match ndata_F_n g with
  | Some x => Ok x
  | None => Raise KeyError
  end.

Definition edata (g : DGLGraph) : result mat :=
  match edata_F_e g with
  | Some x => Ok x
  | None => Raise KeyError
  end.

(** Entries of [xs] at the positions [idx], in the order of [idx]. *)
Definition take {A : Type} (xs : list A) (idx : list nat) : list A :=
  flat_map (fun i => match nth_error xs i with Some x => [x] | None => [] end) idx.

(** [dgl.edge_subgraph(graph, edge_idx, preserve_nodes=True)] *)
Definition edge_subgraph (g : DGLGraph) (edge_idx : list nat) : DGLGraph :=
  {| num_nodes := num_nodes g;
     ndata_F_n := ndata_F_n g;
     edge_list := take (edge_list g) edge_idx;
     edata_F_e := option_map (fun m => take m edge_idx) (edata_F_e g) |}.

(** Position of [x] in [idx]. *)
Fixpoint position (x : nat) (idx : list nat) : option nat :=
  match idx with
  | [] => None
  | y :: idx' => if x =? y then Some 0 else option_map S (position x idx')
  end.

(** Edges with both endpoints in [idx], renamed to their positions in
    [idx]; the flags say which edges survive. *)
Definition induced (idx : list nat) (e : nat * nat) : option (nat * nat) :=
  match position (fst e) idx, position (snd e) idx with
  | Some u, Some v => Some (u, v)
  | _, _ => None
  end.

Definition survives (idx : list nat) (e : nat * nat) : bool :=
  match induced idx e with Some _ => true | None => false end.

(** [dgl.node_subgraph(graph, node_idx)] *)
Definition node_subgraph (g : DGLGraph) (node_idx : list nat) : DGLGraph :=
  let keep := map (survives node_idx) (edge_list g) in
  {| num_nodes := length node_idx;
     ndata_F_n := option_map (fun m => take m node_idx) (ndata_F_n g);
     edge_list :=
       flat_map (fun e => match induced node_idx e with
                          | Some e' => [e'] | None => [] end) (edge_list g);
     edata_F_e := option_map (fun m => select m keep) (edata_F_e g) |}.

(** A batched graph: the disjoint union, with the sizes of its parts. *)
Record BatchedGraph : Type := {
  union : DGLGraph;
  batch_num_nodes : list nat;
  batch_num_edges : list nat
}.

Definition shift (k : nat) (e : nat * nat) : nat * nat := (k + fst e, k + snd e).

(** Disjoint union of [g] (on the left) and [u]. *)
Definition join (g u : DGLGraph) (F_n F_e : mat) : DGLGraph :=
  {| num_nodes := num_nodes g + num_nodes u;
     ndata_F_n := Some F_n;
     edge_list := edge_list g ++ map (shift (num_nodes g)) (edge_list u);
     edata_F_e := Some F_e |}.

(** [dgl.batch(graphs)]: node and edge features are concatenated in order;
    an empty list is rejected. *)
Fixpoint batch_all (gs : list DGLGraph) : result DGLGraph :=
  match gs with
  | [] => Ok {| num_nodes := 0; ndata_F_n := Some []; edge_list := [];
                edata_F_e := Some [] |}
  | g :: gs' =>
      F_n <- ndata g ;;
      F_e <- edata g ;;
      u <- batch_all gs' ;;
      F_n' <- ndata u ;;
      F_e' <- edata u ;;
      Ok (join g u (F_n ++ F_n') (F_e ++ F_e'))
  end.

Definition batch (gs : list DGLGraph) : result BatchedGraph :=
  match gs with
  | [] => Raise DGLError
  | _ =>
      u <- batch_all gs ;;
      Ok {| union := u;
            batch_num_nodes := map num_nodes gs;
            batch_num_edges := map num_edges gs |}
  end.

(** [dgl.broadcast_nodes(graphs, h)] and [dgl.broadcast_edges(graphs, h)]:
    row [j] of [h] repeated once per node (edge) of part [j]. *)
Definition broadcast (sizes : list nat) (h : mat) : mat :=
  concat (map2 (fun n row => repeat row n) sizes h).

End DGL.
Import DGL.

(** ** src/utils.py: the graph builder *)

Module Utils.

(** The random source: a stream of uniform draws from [0, 1). *)
Definition rng := nat -> R.

(** One [torch.bernoulli] draw with success probability [p]. *)
Definition bernoulli (p : R) (s : rng) : bool * rng :=
  (Rltb (s 0) p, fun n => s (S n)).

(** [torch.bernoulli] of a tensor of [n] rates [p]. *)
Fixpoint bernoulli_n (p : R) (n : nat) (s : rng) : list bool * rng :=
  match n with
  | 0 => ([], s)
  | S n' =>
      let (b, s1) := bernoulli p s in
      let (bs, s2) := bernoulli_n p n' s1 in
      (b :: bs, s2)
  end.

Definition drop_edge (graph : DGLGraph) (drop_prob : R) (s : rng)
  : DGLGraph * rng :=
  let E := num_edges graph in
  let (masks, s') := bernoulli_n (1 - drop_prob) E s in
  let edge_idx := nonzero masks in
  (edge_subgraph graph edge_idx, s').

Definition drop_node (graph : DGLGraph) (drop_prob : R) (s : rng)
  : DGLGraph * rng :=
  let N := num_nodes graph in
  let (masks, s') := bernoulli_n (1 - drop_prob) N s in
  let node_idx := nonzero masks in
  (node_subgraph graph node_idx, s').

(** [row[masks] = 0] *)
Definition zero_at (masks : list bool) (row : vec) : vec :=
  scatter row masks (zeros (count_true masks)).

(** [D] is [x.shape[1]], the width of the tensor [x] is cut from. *)
Definition drop_feat (D : nat) (x : mat) (drop_prob : R) (s : rng) : mat * rng :=
  let (masks, s') := bernoulli_n drop_prob D s in
  (map (zero_at masks) x, s').

(** The variables the builder's loops update: the graphs built so far, the
    object tensor and mask (written by augmentations 4 and 5) and the random
    source. *)
Record builder : Type := {
  graphs : list DGLGraph;
  o : list mat;
  om : list (list bool);
  gen : rng
}.

Section Builder.

Variables (r : list mat) (rm : list (list bool)) (pairs : list (list (nat * nat))).

(** The graph of sample [b] as every branch first builds it: one node per
    masked-in object, one edge per masked-in relation. *)
Definition plain_graph (st : builder) (b : nat) : result DGLGraph :=
  let graph := empty in
  om_b <- get (om st) b ;;
  let graph := add_nodes graph (count_true om_b) in
  o_b <- get (o st) b ;;
  F_n <- index_mask o_b om_b ;;
  graph <- set_ndata graph F_n ;;
  rm_b <- get rm b ;;
  let cpu_mask := rm_b in
  pairs_b <- get pairs b ;;
  es <- index_mask pairs_b cpu_mask ;;
  let graph := add_edges graph es in
  r_b <- get r b ;;
  F_e <- index_mask r_b rm_b ;;
  set_edata graph F_e.

Definition push (st : builder) (graph : DGLGraph) (s : rng) : builder :=
  {| graphs := graphs st ++ [graph]; o := o st; om := om st; gen := s |}.

(** augmentation == 0 *)
Definition identical (st : builder) (b : nat) : result builder :=
  graph <- plain_graph st b ;;
  Ok (push st graph (gen st)).

(** augmentation == 1 *)
Definition aug_drop_edge (edge_drop_prob : R) (st : builder) (b : nat)
  : result builder :=
  graph <- plain_graph st b ;;
  let (graph, s) := drop_edge graph edge_drop_prob (gen st) in
  Ok (push st graph s).

(** augmentation == 2 *)
Definition aug_sub_graph (node_drop_prob edge_drop_prob : R) (st : builder)
  (b : nat) : result builder :=
  graph <- plain_graph st b ;;
  let (graph, s) := drop_node graph node_drop_prob (gen st) in
  let (graph, s) := drop_edge graph edge_drop_prob s in
  Ok (push st graph s).

(** augmentation == 3 *)
Definition aug_drop_node (node_drop_prob : R) (st : builder) (b : nat)
  : result builder :=
  graph <- plain_graph st b ;;
  let (graph, s) := drop_node graph node_drop_prob (gen st) in
  Ok (push st graph s).

(** augmentation == 4 *)
Definition aug_attr_mask (attr_drop_prob : R) (st : builder) (b : nat)
  : result builder :=
  om_b <- get (om st) b ;;
  o_b <- get (o st) b ;;
  x <- index_mask o_b om_b ;;
  let (x, s) := drop_feat (width o_b) x attr_drop_prob (gen st) in
  o_b <- index_put o_b om_b x ;;
  let st := {| graphs := graphs st; o := update (o st) b o_b; om := om st;
               gen := s |} in
  graph <- plain_graph st b ;;
  Ok (push st graph s).

(** augmentation == 5 *)
Definition aug_global_node (st : builder) (b : nat) : result builder :=
  om_b <- get (om st) b ;;
  if count_true om_b =? 100 then
    graph <- plain_graph st b ;;
    Ok (push st graph (gen st))
  else
    let graph := add_nodes empty (1 + count_true om_b) in
    o_b <- get (o st) b ;;
    F_n_org <- index_mask o_b om_b ;;
    let global_node_embedding := mean_rows (width o_b) F_n_org in
    let F_n := F_n_org ++ [global_node_embedding] in
    graph <- set_ndata graph F_n ;;
    om_b <- set_item om_b (count_true om_b) true ;;
    o_b <- index_put o_b om_b F_n ;;
    let st := {| graphs := graphs st; o := update (o st) b o_b;
                 om := update (om st) b om_b; gen := gen st |} in
    rm_b <- get rm b ;;
    let cpu_mask := rm_b in
    pairs_b <- get pairs b ;;
    es <- index_mask pairs_b cpu_mask ;;
    let graph := add_edges graph es in
    let src := seq 0 (num_nodes graph - 1) in
    let global_nodes := num_nodes graph - 1 in
    let graph := add_edges graph (map (fun u => (u, global_nodes)) src) in
    let graph := add_edges graph (map (fun v => (global_nodes, v)) src) in
    r_b <- get r b ;;
    F_e_org <- index_mask r_b rm_b ;;
    let global_edge_embedding := mean_rows (width r_b) F_e_org in
    global_edge_embedding <- expand global_edge_embedding (global_nodes * 2) 512 ;;
    F_e <- cat0 (width r_b) F_e_org 512 global_edge_embedding ;;
    graph <- set_edata graph F_e ;;
    Ok (push st graph (gen st)).

(** [for b in range(bsz): for k in range(beam_size): body] *)
Definition per_sample (bsz beam_size : nat) (body : builder -> nat -> result builder)
  (st : builder) : result builder :=
  for_range bsz (fun st b => for_range beam_size (fun st _ => body st b) st) st.

End Builder.

Definition create_batched_graphs_augmented
  (o0 : list mat) (om0 : list (list bool)) (r : list mat) (rm : list (list bool))
  (pairs : list (list (nat * nat))) (beam_size : nat) (augmentation : Z)
  (edge_drop_prob node_drop_prob attr_drop_prob : R) (s : rng)
  : result (list DGLGraph * list mat * list (list bool) * rng) :=
  let bsz := length o0 in
  let st := {| graphs := []; o := o0; om := om0; gen := s |} in
  st <-
    (if (augmentation =? 0)%Z then
       per_sample bsz beam_size (identical r rm pairs) st
     else if (augmentation =? 1)%Z then
       per_sample bsz beam_size (aug_drop_edge r rm pairs edge_drop_prob) st
     else if (augmentation =? 2)%Z then
       per_sample bsz beam_size
         (aug_sub_graph r rm pairs node_drop_prob edge_drop_prob) st
     else if (augmentation =? 3)%Z then
       per_sample bsz beam_size (aug_drop_node r rm pairs node_drop_prob) st
     else if (augmentation =? 4)%Z then
       per_sample bsz beam_size (aug_attr_mask r rm pairs attr_drop_prob) st
     else if (augmentation =? 5)%Z then
       per_sample bsz beam_size (aug_global_node r rm pairs) st
     else Raise ValueError) ;;
  Ok (graphs st, o st, om st, gen st).

End Utils.
Import Utils.

(** ** src/models.py *)

Module Models.

(** *** Attention *)

(** [self.relu], [self.softmax] and the dropout mask are fixed functions; the
    three weight-normed linear layers are the learned part. *)
Record Attention : Type := {
  features_att : vec -> vec;
  decoder_att : vec -> vec;
  full_att : vec -> R;
  att_dropout : vec -> vec
}.

(** An attention score: a real number or [float('-inf')]. *)
Inductive score : Type :=
| NegInf
| Finite (x : R).

Definition exp_score (s : score) : R :=
  match s with
  | NegInf => 0%R
  | Finite x => exp x
  end.

(** [nn.Softmax] over the key axis, over the reals: with rounding a weight
    stays between 0 and 1 and is 0 where the score is [float('-inf')], but a
    small positive weight may round to 0 and the weights need not add up to
    exactly 1. *)
Definition softmax (att : list score) : list R :=
  let e := map exp_score att in
  map (fun x => (x / rsum e)%R) e.

(** The score [x] at a position of the mask that holds [b] *)
Definition fill (x : R) (b : bool) : score := if b then Finite x else NegInf.

(** [att.masked_fill_(~mask, float('-inf'))] for one sample *)
Definition masked_fill (att : list R) (mask : list bool) : result (list score) :=
  if length mask =? length att then Ok (map2 fill att mask)
  else Raise RuntimeError.

(** [(F * alpha.unsqueeze(-1)).sum(dim)]: the rows of [F] weighted by
    [alpha] and summed; [d] is the width of [F]. *)
Definition weighted_sum (d : nat) (F : mat) (alpha : list R) : vec :=
  sum_rows d (map2 (fun f a => vscale a f) F alpha).

(** One sample of [Attention.forward]. *)
Definition attend (a : Attention) (image_features : mat) (decoder_hidden : vec)
  (mask : option (list bool)) : result vec :=
  let att1 := map (features_att a) image_features in
  let att2 := decoder_att a decoder_hidden in
  let att :=
    map (fun k => full_att a (att_dropout a (relu (vadd k att2)))) att1 in
  att <- match mask with
         | Some m => masked_fill att m
         | None => Ok (map Finite att)
         end ;;
  let alpha := softmax att in
  Ok (weighted_sum (width image_features) image_features alpha).

Fixpoint attend_all (a : Attention) (image_features : list mat)
  (decoder_hidden : mat) (mask : option (list (list bool))) : result mat :=
  match image_features, decoder_hidden with
  | [], [] => Ok []
  | f :: fs, h :: hs =>
      match mask with
      | None =>
          x <- attend a f h None ;;
          xs <- attend_all a fs hs None ;;
          Ok (x :: xs)
      | Some [] => Raise RuntimeError
      | Some (m :: ms) =>
          x <- attend a f h (Some m) ;;
          xs <- attend_all a fs hs (Some ms) ;;
          Ok (x :: xs)
      end
  | _, _ => Raise RuntimeError
  end.

(** [Attention.forward(image_features, decoder_hidden, mask)] *)
Definition Attention_forward (a : Attention) (image_features : list mat)
  (decoder_hidden : mat) (mask : option (list (list bool))) : result mat :=
  attend_all a image_features decoder_hidden mask.

(** *** ContextGAT *)

Record ContextGAT_layers : Type := {
  input_proj : vec -> vec;
  object_score : vec -> R;
  relation_score : vec -> R;
  linear_phi_edge : vec -> vec;
  linear_phi_node : vec -> vec
}.

Record ContextGAT : Type := {
  context_dim : nat;
  feature_dim : nat;
  use_obj_info : bool;
  use_rel_info : bool;
  k_update_steps : nat;
  update_relations : bool;
  layers : ContextGAT_layers
}.

(** [ContextGAT.__init__]; [w] holds the freshly initialised layers. *)
Definition ContextGAT_init (context_dim feature_dim : nat)
  (use_obj_info use_rel_info : bool) (k_update_steps : nat)
  (update_relations : bool) (w : ContextGAT_layers) : result ContextGAT :=
  if use_obj_info || use_rel_info then
    Ok {| context_dim := context_dim; feature_dim := feature_dim;
          use_obj_info := use_obj_info; use_rel_info := use_rel_info;
          k_update_steps := k_update_steps;
          update_relations := update_relations; layers := w |}
  else Raise AssertionError.

(** The message dictionary of [io_attention_send]. *)
Record Mail : Type := {
  mail_F_e : option vec;
  mail_s_e : option R;
  mail_F_n : option vec;
  mail_s_n : option R
}.

(** [mailbox[key]] *)
Definition mailbox {A : Type} (key : Mail -> option A) (box : list Mail)
  : result (list A) :=
  mapM (fun ml => match key ml with Some x => Ok x | None => Raise KeyError end)
       box.

Section MessagePassing.

Variable self : ContextGAT.

(** [io_attention_send] on one edge: [h_t] and [F_e_t] are the edge's data,
    [src] and [dst] the [(s_n, F_n_t)] of its endpoints.  Returns the mail
    and, when relations are updated, the edge's [F_e_tplus1]. *)
Definition io_attention_send (h_t F_e_t : vec) (src dst : R * vec)
  : Mail * option vec :=
  let s_e := relation_score (layers self) (h_t ++ F_e_t) in
  let F_e := F_e_t in
  let s_n := fst src in
  let F_n := snd src in
  let mail :=
    {| mail_F_e := if use_rel_info self then Some F_e else None;
       mail_s_e := if use_rel_info self then Some s_e else None;
       mail_F_n := if use_obj_info self then Some F_n else None;
       mail_s_n := if use_obj_info self then Some s_n else None |} in
  if update_relations self then
    let F_i := snd dst in
    let s_i := fst dst in
    let s := [s_n; s_i] in
    let F := [F_n; F_i] in
    let alpha_edge := softmax (map Finite s) in
    let applied_alpha := weighted_sum (length F_n) F alpha_edge in
    let F_e_tplus1 := relu (linear_phi_edge (layers self) (applied_alpha ++ F_e)) in
    (mail, Some F_e_tplus1)
  else (mail, None).

(** [io_attention_reduce] on one node with a non-empty mailbox. *)
Definition io_attention_reduce (box : list Mail) (F_n_t : vec) : result vec :=
  s_n <- mailbox mail_s_n box ;;
  s_e <- mailbox mail_s_e box ;;
  let s_ne := s_n ++ s_e in
  F_n <- mailbox mail_F_n box ;;
  F_e <- mailbox mail_F_e box ;;
  let F_ne := F_n ++ F_e in
  let F_i := F_n_t in
  let alpha_ne := softmax (map Finite s_ne) in
  let applied_alpha := weighted_sum (width F_ne) F_ne alpha_ne in
  Ok (relu (linear_phi_node (layers self) (applied_alpha ++ F_i))).

(** The mails sent to node [i], in edge order. *)
Definition inbox (es : list (nat * nat)) (mails : list Mail) (i : nat)
  : list Mail :=
  select mails (map (fun e => snd e =? i) es).

(** One pass of the update loop: scores, [update_all], and the new
    [(F_n_t, F_e_t)].  A node that receives no message gets a zero row. *)
Definition update_round (es : list (nat * nat)) (h_n h_e : mat)
  (st : mat * mat) : result (mat * mat) :=
  let (F_n_t, F_e_t) := st in
  let s_n := map2 (fun h f => object_score (layers self) (h ++ f)) h_n F_n_t in
  let node := fun i => (nth i s_n 0%R, nth i F_n_t []) in
  let sent :=
    map2 (fun e hf => io_attention_send (fst hf) (snd hf)
                        (node (fst e)) (node (snd e)))
         es (combine h_e F_e_t) in
  let mails := map fst sent in
  F_i_tplus1 <-
    mapM (fun i =>
            match inbox es mails i with
            | [] => Ok (zeros (feature_dim self))
            | box => io_attention_reduce box (nth i F_n_t [])
            end)
         (seq 0 (length F_n_t)) ;;
  if update_relations self then
    F_e_tplus1 <-
      mapM (fun x => match snd x with Some f => Ok f | None => Raise KeyError end)
           sent ;;
    Ok (F_i_tplus1, F_e_tplus1)
  else Ok (F_i_tplus1, F_e_t).

(** [torch.split(x, sections)] *)
Fixpoint split_sections (x : mat) (sections : list nat) : list mat :=
  match sections with
  | [] => []
  | n :: rest => firstn n x :: split_sections (skipn n x) rest
  end.

Definition split (x : mat) (sections : list nat) : result (list mat) :=
  if list_sum sections =? length x then Ok (split_sections x sections)
  else Raise RuntimeError.

(** [pad_sequence(io, batch_first=True)] for rows of width [d] *)
Definition pad_sequence (d : nat) (io : list mat) : result (list mat) :=
  match io with
  | [] => Raise RuntimeError
  | _ =>
      let n := list_max (map (@length vec) io) in
      Ok (map (fun x => x ++ repeat (zeros d) (n - length x)) io)
  end.

(** [ContextGAT.forward(input_hidden, graphs, batch_num_nodes)] *)
Definition ContextGAT_forward (input_hidden : mat) (graphs : BatchedGraph)
  (batch_num_nodes_arg : option (list nat))
  : result (list mat * list (list bool)) :=
  let b_num_nodes :=
    match batch_num_nodes_arg with
    | None => batch_num_nodes graphs
    | Some l => l
    end in
  let h_t := map (input_proj (layers self)) input_hidden in
  F_n_t <-
    (if 0 <? num_edges (union graphs) then
       if negb (length h_t =? length (batch_num_nodes graphs)) then
         Raise DGLError
       else
         let broadcasted_hn := broadcast (batch_num_nodes graphs) h_t in
         let broadcasted_he := broadcast (batch_num_edges graphs) h_t in
         F_n <- ndata (union graphs) ;;
         F_e <- edata (union graphs) ;;
         st <- for_range (k_update_steps self)
                 (fun st _ => update_round (edge_list (union graphs))
                                broadcasted_hn broadcasted_he st)
                 (F_n, F_e) ;;
         Ok (fst st)
     else ndata (union graphs)) ;;
  io <- split F_n_t b_num_nodes ;;
  io <- pad_sequence (width F_n_t) io ;;
  let io_mask := map (map (fun row => Rneqb (rsum row) 0)) io in
  Ok (io, io_mask).

End MessagePassing.

(** *** cascade_sg_first_contextGAT_Decoder *)

Record Decoder : Type := {
  decoder_dim : nat;
  vocab_size : nat;
  augmentation : Z;
  edge_drop_prob : R;
  node_drop_prob : R;
  attr_drop_prob : R;
  (** [word_map['<start>']]; [None] when the lookup raises *)
  word_map : option Z;
  teacher_force : bool;
  (** [nn.Module.training] *)
  training : bool;
  context_gat : ContextGAT;
  cascade1_attention : Attention;
  cascade2_attention : Attention;
  embedding : Z -> vec;
  dropout : vec -> vec;
  top_down_attention : vec -> vec * vec -> vec * vec;
  language_model : vec -> vec * vec -> vec * vec;
  fc1 : vec -> vec;
  fc : vec -> vec
}.

(** The arguments of [forward]; [caption_lengths] is the squeezed column. *)
Record inputs : Type := {
  image_features : list mat;
  object_features : list mat;
  relation_features : list mat;
  object_mask : list (list bool);
  relation_mask : list (list bool);
  pair_ids : list (list (nat * nat));
  encoded_captions : list (list Z);
  caption_lengths : list Z
}.

(** The returned tuple [(predictions, predictions1, encoded_captions,
    decode_lengths, sort_ind)]. *)
Definition outputs : Type :=
  (list mat * list mat * list (list Z) * list Z * list nat)%type.

(** [init_hidden_state]: one of the two zero tensors *)
Definition init_hidden_state (self : Decoder) (batch_size : nat) : mat :=
  repeat (zeros (decoder_dim self)) batch_size.

(** [x.sort(dim=0, descending=True)]: insertion keeps equal lengths in
    their original order. *)
Fixpoint insert_desc (x : Z * nat) (l : list (Z * nat)) : list (Z * nat) :=
  match l with
  | [] => [x]
  | y :: l' =>
      if (fst y <=? fst x)%Z then x :: y :: l' else y :: insert_desc x l'
  end.

Definition sort_desc (l : list Z) : list Z * list nat :=
  let s := fold_right insert_desc [] (combine l (seq 0 (length l))) in
  (map fst s, map snd s).

(** [max(l)] of a Python list *)
Definition py_max (l : list Z) : result Z :=
  match l with
  | [] => Raise ValueError
  | x :: l' => Ok (fold_left Z.max l' x)
  end.

(** [torch.zeros(batch_size, T, vocab_size)] *)
Definition zero_buffer (batch_size : nat) (T : Z) (vocab : nat)
  : result (list mat) :=
  if (T <? 0)%Z then Raise RuntimeError
  else Ok (repeat (repeat (zeros vocab) (Z.to_nat T)) batch_size).

(** [sum([l > t for l in decode_lengths])] *)
Definition active (decode_lengths : list Z) (t : nat) : nat :=
  length (filter (fun l => (Z.of_nat t <? l)%Z) decode_lengths).

(** [preds.max(1)[1]] on one row *)
Fixpoint argmax_from (best : R) (ibest i : nat) (v : vec) : nat :=
  match v with
  | [] => ibest
  | x :: v' =>
      if Rltb best x then argmax_from x i (S i) v'
      else argmax_from best ibest (S i) v'
  end.

Definition argmax (v : vec) : Z :=
  match v with
  | [] => 0%Z
  | x :: v' => Z.of_nat (argmax_from x 0 1 v')
  end.

(** What the three decode functions compute before their loop: the pooled
    features, the batch sorted by decreasing caption length, the graphs. *)
Record prepared : Type := {
  batch_size : nat;
  img : list mat;
  img_mean : mat;
  graph_mean : mat;
  objs : list mat;
  objs_mask : list (list bool);
  g : list DGLGraph;
  decode_lengths : list Z;
  sort_ind : list nat;
  gen_after : rng
}.

Definition pool_graph (o r : mat) (om rm : list bool) : vec :=
  map (fun x => (x / INR (count_true (om ++ rm)))%R)
      (sum_rows (width o) (o ++ r)).

Fixpoint pool_graphs (o r : list mat) (om rm : list (list bool)) : mat :=
  match o, r, om, rm with
  | o1 :: o', r1 :: r', om1 :: om', rm1 :: rm' =>
      pool_graph o1 r1 om1 rm1 :: pool_graphs o' r' om' rm'
  | _, _, _, _ => []
  end.

(** The shared head of the decode functions.  [captions] is what the
    function has as [encoded_captions] when it reaches the graph builder:
    only the teacher-forced function has re-indexed it by [sort_ind]. *)
Definition prepare (self : Decoder) (x : inputs) (s : rng)
  (sort_captions : bool) : result (prepared * list (list Z)) :=
  let batch_size := length (image_features x) in
  let image_features_mean :=
    map (fun f => mean_rows (width f) f) (image_features x) in
  let graph_features_mean :=
    pool_graphs (object_features x) (relation_features x)
                (object_mask x) (relation_mask x) in
  let (caption_lengths, sort_ind) := sort_desc (caption_lengths x) in
  image_features <- gather (image_features x) sort_ind ;;
  object_features <- gather (object_features x) sort_ind ;;
  object_mask <- gather (object_mask x) sort_ind ;;
  relation_features <- gather (relation_features x) sort_ind ;;
  relation_mask <- gather (relation_mask x) sort_ind ;;
  pair_ids <- gather (pair_ids x) sort_ind ;;
  image_features_mean <- gather image_features_mean sort_ind ;;
  graph_features_mean <- gather graph_features_mean sort_ind ;;
  encoded_captions <-
    (if sort_captions then gather (encoded_captions x) sort_ind
     else Ok (encoded_captions x)) ;;
  '(g, object_features, object_mask, s') <-
    (if training self then
       create_batched_graphs_augmented object_features object_mask
         relation_features relation_mask pair_ids 1 (augmentation self)
         (edge_drop_prob self) (node_drop_prob self) (attr_drop_prob self) s
     else
       create_batched_graphs_augmented object_features object_mask
         relation_features relation_mask pair_ids 1 0%Z
         (edge_drop_prob self) (node_drop_prob self) (attr_drop_prob self) s) ;;
  let decode_lengths := map (fun l => (l - 1)%Z) caption_lengths in
  Ok ({| batch_size := batch_size; img := image_features;
         img_mean := image_features_mean; graph_mean := graph_features_mean;
         objs := object_features; objs_mask := object_mask; g := g;
         decode_lengths := decode_lengths; sort_ind := sort_ind;
         gen_after := s' |},
      encoded_captions).

(** The loop variables all three policies share. *)
Record state : Type := {
  h1 : mat; c1 : mat;
  h2 : mat; c2 : mat;
  predictions : list mat;
  predictions1 : list mat
}.

(** An [nn.LSTMCell] applied to each row. *)
Definition lstm (cell : vec -> vec * vec -> vec * vec) (x : mat) (h c : mat)
  : mat * mat :=
  let out := map2 cell x (combine h c) in
  (map fst out, map snd out).

(** [cgat_obj]: the ContextGAT rows in the leading slots, zeros behind. *)
Definition fill_obj (of_ : mat) (cgat_out : mat) : result mat :=
  if length cgat_out <=? length of_ then
    Ok (cgat_out
          ++ map (fun row => zeros (length row)) (skipn (length cgat_out) of_))
  else Raise RuntimeError.

(** [cgat_mask] *)
Definition fill_mask (om : list bool) (cgat_mask_out : list bool)
  : result (list bool) :=
  if length cgat_mask_out <=? length om then
    Ok (cgat_mask_out ++ repeat false (length om - length cgat_mask_out))
  else Raise RuntimeError.

(** [cgat_obj[~cgat_mask & om] = of[~cgat_mask & om]] on one sample *)
Fixpoint restore (cgat_obj of_ : mat) (cgat_mask om : list bool) : mat :=
  match cgat_obj, of_, cgat_mask, om with
  | c :: cs, f :: fs, cm :: cms, m :: ms =>
      (if negb cm && m then f else c) :: restore cs fs cms ms
  | _, _, _, _ => cgat_obj
  end.

(** The five lines from [cgat_obj = torch.zeros_like(of)] to
    [cgat_obj[~cgat_mask & om] = of[~cgat_mask & om]], sample by sample, on
    tensors that hold the same number of samples and whose masks have one
    flag per row. *)
Fixpoint reconcile (of_ : list mat) (om : list (list bool)) (cgat_out : list mat)
  (cgat_mask_out : list (list bool)) : result (list mat) :=
  match of_, om, cgat_out, cgat_mask_out with
  | [], [], [], [] => Ok []
  | f :: fs, m :: ms, c :: cs, cm :: cms =>
      cgat_obj <- fill_obj f c ;;
      cgat_mask <- fill_mask m cm ;;
      rest <- reconcile fs ms cs cms ;;
      Ok (restore cgat_obj f cgat_mask m :: rest)
  | _, _, _, _ => Raise RuntimeError
  end.

(** [buf[:n, t, :] = vals] given the [n] leading rows of [buf] *)
Fixpoint write_rows (t : nat) (buf : list mat) (vals : mat) (n : nat)
  {struct n} : list mat :=
  match n, buf, vals with
  | S n', row :: buf', v :: vals' => update row t v :: write_rows t buf' vals' n'
  | _, _, _ => buf
  end.

Definition put (buf : list mat) (batch_size_t t : nat) (vals : mat)
  : result (list mat) :=
  let n := Nat.min batch_size_t (length buf) in
  if length vals =? n then Ok (write_rows t buf vals n)
  else match vals with
       | [v] => Ok (write_rows t buf (repeat v n) n)
       | _ => Raise RuntimeError
       end.

(** The body of the loop over [t] up to the choice of the next embedding;
    [emb] is the slice of [embeddings] fed to the top-down cell.  Returns the
    new loop variables and [preds]. *)
Definition decode_step (self : Decoder) (p : prepared) (t : nat)
  (emb : result mat) (st : state) : result (state * mat) :=
  let batch_size_t := active (decode_lengths p) t in
  sub_g <- batch (upto batch_size_t (g p)) ;;
  emb <- emb ;;
  let (h1, c1) :=
    lstm (top_down_attention self)
         (cat1 (cat1 (cat1 (upto batch_size_t (h2 st))
                           (upto batch_size_t (img_mean p)))
                     (upto batch_size_t (graph_mean p)))
               emb)
         (upto batch_size_t (h1 st)) (upto batch_size_t (c1 st)) in
  '(cgat_out, cgat_mask_out) <-
    ContextGAT_forward (context_gat self) (upto batch_size_t h1) sub_g
                       (Some (batch_num_nodes sub_g)) ;;
  let of_ := upto batch_size_t (objs p) in
  let om := upto batch_size_t (objs_mask p) in
  cgat_obj <- reconcile of_ om cgat_out cgat_mask_out ;;
  graph_weighted_enc <-
    Attention_forward (cascade1_attention self) (upto batch_size_t cgat_obj)
                      (upto batch_size_t h1) (Some om) ;;
  img_weighted_enc <-
    Attention_forward (cascade2_attention self) (upto batch_size_t (img p))
                      (cat1 (upto batch_size_t h1)
                            (upto batch_size_t graph_weighted_enc)) None ;;
  let preds1 := map (fun h => fc1 self (dropout self h)) h1 in
  let (h2, c2) :=
    lstm (language_model self)
         (cat1 (cat1 (upto batch_size_t graph_weighted_enc)
                     (upto batch_size_t img_weighted_enc))
               (upto batch_size_t h1))
         (upto batch_size_t (h2 st)) (upto batch_size_t (c2 st)) in
  let preds := map (fun h => fc self (dropout self h)) h2 in
  predictions <- put (predictions st) batch_size_t t preds ;;
  predictions1 <- put (predictions1 st) batch_size_t t preds1 ;;
  Ok ({| h1 := h1; c1 := c1; h2 := h2; c2 := c2;
         predictions := predictions; predictions1 := predictions1 |},
      preds).

(** The loop variables before the first step. *)
Definition init_state (self : Decoder) (p : prepared) : result (state * Z) :=
  let h1 := init_hidden_state self (batch_size p) in
  let c1 := init_hidden_state self (batch_size p) in
  let h2 := init_hidden_state self (batch_size p) in
  let c2 := init_hidden_state self (batch_size p) in
  T <- py_max (decode_lengths p) ;;
  predictions <- zero_buffer (batch_size p) T (vocab_size self) ;;
  predictions1 <- zero_buffer (batch_size p) T (vocab_size self) ;;
  Ok ({| h1 := h1; c1 := c1; h2 := h2; c2 := c2;
         predictions := predictions; predictions1 := predictions1 |}, T).

(** [embeddings[:batch_size_t, t, :]] *)
Definition at_step (embeddings : list mat) (batch_size_t t : nat) : result mat :=
  mapM (fun e => get e t) (upto batch_size_t embeddings).

Definition third (out : outputs) : list (list Z) :=
  let '(_, _, encoded_captions, _, _) := out in encoded_captions.

Definition _forward_with_teacher_forcing (self : Decoder) (x : inputs) (s : rng)
  : result outputs :=
  '(p, encoded_captions) <- prepare self x s true ;;
  let embeddings := map (map (embedding self)) encoded_captions in
  '(st, T) <- init_state self p ;;
  st <-
    for_range (Z.to_nat T)
      (fun st t =>
         let batch_size_t := active (decode_lengths p) t in
         '(st, _) <- decode_step self p t (at_step embeddings batch_size_t t) st ;;
         Ok st)
      st ;;
  Ok (predictions st, predictions1 st, encoded_captions, decode_lengths p,
      sort_ind p).

(** [self.word_map['<start>']] *)
Definition start_token (self : Decoder) : result Z :=
  match word_map self with
  | Some w => Ok w
  | None => Raise KeyError
  end.

Definition _forward_no_teacher_force (self : Decoder) (x : inputs) (s : rng)
  : result outputs :=
  '(p, encoded_captions) <- prepare self x s false ;;
  start <- start_token self ;;
  let k_prev_words := repeat [start] (batch_size p) in
  let embeddings :=
    map (fun w => hd [] (map (embedding self) w)) k_prev_words in
  '(st, T) <- init_state self p ;;
  '(st, _) <-
    for_range (Z.to_nat T)
      (fun (v : state * mat) t =>
         let (st, embeddings) := v in
         let batch_size_t := active (decode_lengths p) t in
         '(st, preds) <-
           decode_step self p t (Ok (upto batch_size_t embeddings)) st ;;
         let embeddings := map (fun row => embedding self (argmax row)) preds in
         Ok (st, embeddings))
      (st, embeddings) ;;
  Ok (predictions st, predictions1 st, encoded_captions, decode_lengths p,
      sort_ind p).

(** The two shapes the variable [embeddings] of [_schedule_sampleing] can
    hold: the caption embeddings (batch x length x embed_dim) or the
    embeddings of the predicted tokens (batch x embed_dim). *)
Inductive embeddings_var : Type :=
| Captions (e : list mat)
| Predicted (e : mat).

(** Which side of a two-way choice ran: the one that reads the caption
    embeddings or the one that feeds the prediction back. *)
Inductive branch : Type :=
| TeacherForced
| FedBack.

(** One timestep of [_schedule_sampleing] as an observer sees it: the side of
    [if t==0 or sampled_teacher_force] that ran, the rows it fed to the
    top-down cell, and the side of [if 1] that ran. *)
Record visit : Type := {
  input_branch : branch;
  fed : mat;
  next_branch : branch
}.

(** Python truth value of an integer *)
Definition truthy (n : Z) : bool := negb (n =? 0)%Z.

Record sampling : Type := {
  loop : state;
  embeddings : embeddings_var;
  (** [None] while the local variable is unbound *)
  sampled_teacher_force : option bool;
  visits : list visit
}.

Definition sampling_step (self : Decoder) (p : prepared)
  (teacher_force_embeddings : list mat) (v : sampling) (t : nat)
  : result sampling :=
  let batch_size_t := active (decode_lengths p) t in
  cond <- (if t =? 0 then Ok true
           else match sampled_teacher_force v with
                | Some b => Ok b
                | None => Raise UnboundLocalError
                end) ;;
  let emb :=
    if (cond : bool) then
      match embeddings v with
      | Captions e => at_step e batch_size_t t
      | Predicted _ => Raise IndexError
      end
    else
      match embeddings v with
      | Captions _ => Raise RuntimeError
      | Predicted e => Ok (upto batch_size_t e)
      end in
  '(st, preds) <- decode_step self p t emb (loop v) ;;
  fed_rows <- emb ;;
  let seen := {| input_branch := if cond then TeacherForced else FedBack;
                 fed := fed_rows;
                 next_branch := if truthy 1 then TeacherForced else FedBack |} in
  if truthy 1 then
    Ok {| loop := st; embeddings := Captions teacher_force_embeddings;
          sampled_teacher_force := Some true; visits := visits v ++ [seen] |}
  else
    Ok {| loop := st;
          embeddings :=
            Predicted (map (fun row => embedding self (argmax row)) preds);
          sampled_teacher_force := Some false; visits := visits v ++ [seen] |}.

(** [_schedule_sampleing], returning the visits next to the tuple. *)
Definition schedule_sampleing_visits (self : Decoder) (x : inputs) (s : rng)
  : result (outputs * list visit) :=
  '(p, encoded_captions) <- prepare self x s false ;;
  start <- start_token self ;;
  let k_prev_words := repeat [start] (batch_size p) in
  let embeddings := map (map (embedding self)) encoded_captions in
  let teacher_force_embeddings := embeddings in
  let embeddings := teacher_force_embeddings in
  '(st, T) <- init_state self p ;;
  v <-
    for_range (Z.to_nat T) (sampling_step self p teacher_force_embeddings)
      {| loop := st; embeddings := Captions embeddings;
         sampled_teacher_force := None; visits := [] |} ;;
  Ok ((predictions (loop v), predictions1 (loop v), encoded_captions,
       decode_lengths p, sort_ind p),
      visits v).

Definition _schedule_sampleing (self : Decoder) (x : inputs) (s : rng)
  : result outputs :=
  '(out, _) <- schedule_sampleing_visits self x s ;;
  Ok out.

(** [cascade_sg_first_contextGAT_Decoder.forward] *)
Definition forward (self : Decoder) (x : inputs) (s : rng) : result outputs :=
  if teacher_force self then _forward_with_teacher_forcing self x s
  else _forward_no_teacher_force self x s.

(** The decoder with other augmentation settings, everything else kept. *)
Definition with_augmentation (self : Decoder) (aug : Z) (edge node attr : R)
  : Decoder :=
  {| decoder_dim := decoder_dim self; vocab_size := vocab_size self;
     augmentation := aug; edge_drop_prob := edge; node_drop_prob := node;
     attr_drop_prob := attr; word_map := word_map self;
     teacher_force := teacher_force self; training := training self;
     context_gat := context_gat self;
     cascade1_attention := cascade1_attention self;
     cascade2_attention := cascade2_attention self;
     embedding := embedding self; dropout := dropout self;
     top_down_attention := top_down_attention self;
     language_model := language_model self; fc1 := fc1 self; fc := fc self |}.

End Models.
Import Models.

(** ** More of src/utils.py *)

(** [create_batched_graphs(o, om, r, rm, pairs, beam_size)] *)
Definition create_batched_graphs (o : list mat) (om : list (list bool))
  (r : list mat) (rm : list (list bool)) (pairs : list (list (nat * nat)))
  (beam_size : nat) : result (list DGLGraph) :=
  let bsz := length o in
  for_range bsz
    (fun graphs b =>
       for_range beam_size
         (fun graphs _ =>
            let graph := empty in
            om_b <- get om b ;;
            let graph := add_nodes graph (count_true om_b) in
            o_b <- get o b ;;
            F_n <- index_mask o_b om_b ;;
            graph <- set_ndata graph F_n ;;
            rm_b <- get rm b ;;
            let cpu_mask := rm_b in
            pairs_b <- get pairs b ;;
            es <- index_mask pairs_b cpu_mask ;;
            let graph := add_edges graph es in
            r_b <- get r b ;;
            F_e <- index_mask r_b rm_b ;;
            graph <- set_edata graph F_e ;;
            Ok (graphs ++ [graph]))
         graphs)
    [].

(** The word map and the caption encoding of [create_input_files]: the
    part of the function between reading the Karpathy file and writing the
    JSON files. *)

Module WordMap.

Import String.StringSyntax.
Delimit Scope string_scope with string.

Definition word : Type := String.string.

(** A Python [dict] (or [Counter]) with string keys, in insertion order. *)
Definition dict (V : Type) : Type := list (word * V).

(** [d.get(k)] *)
Fixpoint lookup {V : Type} (d : dict V) (k : word) : option V :=
  match d with
  | [] => None
  | (k', v) :: d' => if String.eqb k k' then Some v else lookup d' k
  end.

(** [d[k]] *)
Definition item {V : Type} (d : dict V) (k : word) : result V :=
  match lookup d k with
  | Some v => Ok v
  | None => Raise KeyError
  end.

(** [d[k] = v]: a present key keeps its place, a new one goes last. *)
Fixpoint assign {V : Type} (d : dict V) (k : word) (v : V) : dict V :=
  match d with
  | [] => [(k, v)]
  | (k', v') :: d' =>
      if String.eqb k k' then (k', v) :: d' else (k', v') :: assign d' k v
  end.

(** [word_freq.update(c['tokens'])] *)
Definition Counter_update (word_freq : dict Z) (tokens : list word) : dict Z :=
  fold_left (fun d w => assign d w (match lookup d w with
                                    | Some n => n + 1
                                    | None => 1
                                    end)%Z)
            tokens word_freq.

(** [word_freq] after the loop over the images; [sentences] lists the
    [c['tokens']] of all images in order. *)
Definition count_words (sentences : list (list word)) : dict Z :=
  fold_left Counter_update sentences [].

(** [[w for w in word_freq.keys() if word_freq[w] > min_word_freq]] *)
Definition frequent (word_freq : dict Z) (min_word_freq : Z) : list word :=
  map fst (filter (fun kv => (min_word_freq <? snd kv)%Z) word_freq).

Definition len {V : Type} (d : dict V) : Z := Z.of_nat (length d).

(** The four statements under [# Create word map]. *)
Definition create_word_map (word_freq : dict Z) (min_word_freq : Z) : dict Z :=
  let words := frequent word_freq min_word_freq in
  let word_map :=
    fold_left (fun d vk => assign d (snd vk) (Z.of_nat (fst vk) + 1)%Z)
              (combine (seq 0 (length words)) words) [] in
  let word_map := assign word_map "<unk>"%string (len word_map + 1)%Z in
  let word_map := assign word_map "<start>"%string (len word_map + 1)%Z in
  let word_map := assign word_map "<end>"%string (len word_map + 1)%Z in
  assign word_map "<pad>"%string 0%Z.

(** [enc_c] and [c_len] for one caption [c]. *)
Definition encode_caption (word_map : dict Z) (max_len : Z) (c : list word)
  : result (list Z * Z) :=
  start <- item word_map "<start>"%string ;;
  ws <- mapM (fun w => unk <- item word_map "<unk>"%string ;;
                       Ok (match lookup word_map w with
                           | Some v => v
                           | None => unk
                           end)) c ;;
  end_ <- item word_map "<end>"%string ;;
  pad <- item word_map "<pad>"%string ;;
  let enc_c :=
    [start] ++ ws ++ [end_]
            ++ repeat pad (Z.to_nat (max_len - Z.of_nat (length c))) in
  let c_len := (Z.of_nat (length c) + 2)%Z in
  Ok (enc_c, c_len).

End WordMap.
Import WordMap String.StringSyntax.

(** [AverageMeter] (and [AverageMeter_cl], which adds a name and a format):
    values are real numbers, weights integers. *)

Module AverageMeter.

Record t : Type := {
  val : R;
  avg : R;
  sum : R;
  count : Z
}.

(** Division of a number by the integer 0. *)
Inductive raised : Type := ZeroDivisionError.

(** [reset] *)
Definition reset : t := {| val := 0; avg := 0; sum := 0; count := 0 |}.

(** [update(val, n)]: the object as the call leaves it, and the exception
    if the division raises (the three fields before it are then already
    written). *)
Definition update (self : t) (v : R) (n : Z) : t * option raised :=
  let self := {| val := v; avg := avg self; sum := sum self; count := count self |} in
  let self := {| val := val self; avg := avg self;
                 sum := sum self + v * IZR n; count := count self |} in
  let self := {| val := val self; avg := avg self; sum := sum self;
                 count := count self + n |} in
  if (count self =? 0)%Z then (self, Some ZeroDivisionError)
  else ({| val := val self; avg := sum self / IZR (count self);
           sum := sum self; count := count self |}, None).

End AverageMeter.

(** ** src/datasets.py *)

Module Datasets.

Inductive Split : Type := TRAIN | VAL | TEST.

(** An entry of a detections file: the tag (["v"] or ["t"]) and the row of
    the HDF5 file it points to. *)
Definition det : Type := (String.string * nat)%type.

(** What [__init__] opens: the HDF5 datasets and the JSON lists. *)
Record files : Type := {
  sg_train_object_features : list mat;
  sg_train_object_mask : list (list bool);
  sg_train_relation_features : list mat;
  sg_train_relation_mask : list (list bool);
  sg_train_relation_pair_idx : list (list (nat * nat));
  sg_val_object_features : list mat;
  sg_val_object_mask : list (list bool);
  sg_val_relation_features : list mat;
  sg_val_relation_mask : list (list bool);
  sg_val_relation_pair_idx : list (list (nat * nat));
  SCENE_GRAPHS_FEATURES : list det;
  train_image_features : list mat;
  val_image_features : list mat;
  CAPTIONS : list (list Z);
  ORIG_CAPTIONS : list (list word);
  CAPLENS : list Z;
  GENOME_DETS : list det
}.

Record CaptionDataset : Type := {
  split : Split;
  two_crop : bool;
  (** [self.transform is not None] *)
  transform : bool;
  train_obj : list mat;
  train_obj_mask : list (list bool);
  train_rel : list mat;
  train_rel_mask : list (list bool);
  train_pair_idx : list (list (nat * nat));
  val_obj : list mat;
  val_obj_mask : list (list bool);
  val_rel : list mat;
  val_rel_mask : list (list bool);
  val_pair_idx : list (list (nat * nat));
  sgdet : list det;
  train_features : list mat;
  val_features : list mat;
  cpi : nat;
  captions : list (list Z);
  orig_captions : list (list word);
  caplens : list Z;
  objdet : list det;
  dataset_size : nat
}.

(** [CaptionDataset.__init__]; [fs] is what the files of [data_folder]
    hold for this split. *)
Definition __init__ (fs : files) (split : Split) (two_crop transform : bool)
  : CaptionDataset :=
  {| split := split; two_crop := two_crop; transform := transform;
     train_obj := sg_train_object_features fs;
     train_obj_mask := sg_train_object_mask fs;
     train_rel := sg_train_relation_features fs;
     train_rel_mask := sg_train_relation_mask fs;
     train_pair_idx := sg_train_relation_pair_idx fs;
     val_obj := sg_val_object_features fs;
     val_obj_mask := sg_val_object_mask fs;
     val_rel := sg_val_relation_features fs;
     val_rel_mask := sg_val_relation_mask fs;
     val_pair_idx := sg_val_relation_pair_idx fs;
     sgdet := SCENE_GRAPHS_FEATURES fs;
     train_features := train_image_features fs;
     val_features := val_image_features fs;
     cpi := 5;
     captions := CAPTIONS fs;
     orig_captions := ORIG_CAPTIONS fs;
     caplens := CAPLENS fs;
     objdet := GENOME_DETS fs;
     dataset_size := length (CAPTIONS fs) |}.

(** The three tuples [__getitem__] can return. *)
Inductive item : Type :=
| TwoCrops (img : mat * mat) (obj : mat * mat) (rel : mat)
    (obj_mask rel_mask : list bool) (pair_idx : list (nat * nat))
    (caption : list Z) (caplen : list Z)
| Training (img obj rel : mat) (obj_mask rel_mask : list bool)
    (pair_idx : list (nat * nat)) (caption : list Z) (caplen : list Z)
| Evaluation (img obj rel : mat) (obj_mask rel_mask : list bool)
    (pair_idx : list (nat * nat)) (caption : list Z) (caplen : list Z)
    (all_captions : list (list word)).

(** A lookup that raises (whatever the exception) ends the call. *)
Definition and_then {A B : Type} (m : option A) (k : A -> option B) : option B :=
  match m with
  | Some a => k a
  | None => None
  end.

Section GetItem.

(** The two Cutout pipelines of the module, followed by [torch.squeeze]. *)
Variables transform_img transform_obj : mat -> rng -> mat * rng.

(** [CaptionDataset.__getitem__(i)]; [None] when a lookup raises. *)
Definition __getitem__ (self : CaptionDataset) (i : nat) (s : rng)
  : option (item * rng) :=
  and_then (nth_error (objdet self) (i / cpi self)) (fun objdet =>
  and_then (nth_error (sgdet self) (i / cpi self)) (fun sgdet =>
  and_then (nth_error (captions self) i) (fun caption =>
  and_then (nth_error (caplens self) i) (fun caplen_i =>
  let caplen := [caplen_i] in
  and_then
    (if String.eqb (fst sgdet) "v" then
       and_then (nth_error (val_obj self) (snd sgdet)) (fun obj =>
       and_then (nth_error (val_rel self) (snd sgdet)) (fun rel =>
       and_then (nth_error (val_obj_mask self) (snd sgdet)) (fun obj_mask =>
       and_then (nth_error (val_rel_mask self) (snd sgdet)) (fun rel_mask =>
       and_then (nth_error (val_pair_idx self) (snd sgdet)) (fun pair_idx =>
       Some (obj, rel, obj_mask, rel_mask, pair_idx))))))
     else
       and_then (nth_error (train_obj self) (snd sgdet)) (fun obj =>
       and_then (nth_error (train_rel self) (snd sgdet)) (fun rel =>
       and_then (nth_error (train_obj_mask self) (snd sgdet)) (fun obj_mask =>
       and_then (nth_error (train_rel_mask self) (snd sgdet)) (fun rel_mask =>
       and_then (nth_error (train_pair_idx self) (snd sgdet)) (fun pair_idx =>
       Some (obj, rel, obj_mask, rel_mask, pair_idx)))))))
    (fun sg =>
  let '(obj, rel, obj_mask, rel_mask, pair_idx) := sg in
  and_then
    (if String.eqb (fst objdet) "v" then nth_error (val_features self) (snd objdet)
     else nth_error (train_features self) (snd objdet))
    (fun img =>
  match split self with
  | TRAIN =>
      if transform self && two_crop self then
        let (img1, s) := transform_img img s in
        let (img2, s) := transform_img img s in
        let (obj1, s) := transform_obj obj s in
        let (obj2, s) := transform_obj obj s in
        Some (TwoCrops (img1, img2) (obj1, obj2) rel obj_mask rel_mask pair_idx
                       caption caplen, s)
      else
        Some (Training img obj rel obj_mask rel_mask pair_idx caption caplen, s)
  | _ =>
      let all_captions :=
        firstn (i / cpi self * cpi self + cpi self - i / cpi self * cpi self)
               (skipn (i / cpi self * cpi self) (orig_captions self)) in
      Some (Evaluation img obj rel obj_mask rel_mask pair_idx caption caplen
                       all_captions, s)
  end)))))).

End GetItem.

(** [CaptionDataset.__len__] *)
Definition __len__ (self : CaptionDataset) : nat := dataset_size self.

End Datasets.

(** ** Vocabulary of the statements *)

(** One sample of a batch as the graph builder reads it: row [b] of the
    tensors [o], [om], [r], [rm] and [pairs]. *)
Record sample : Type := {
  s_o : mat;
  s_om : list bool;
  s_r : mat;
  s_rm : list bool;
  s_pairs : list (nat * nat)
}.

(** The masks and the pair list have one entry per slot. *)
Definition well_shaped (x : sample) : Prop :=
  length (s_o x) = length (s_om x)
  /\ length (s_r x) = length (s_rm x)
  /\ length (s_pairs x) = length (s_rm x).

(** Every masked-in relation joins two of the masked-in objects. *)
Definition pairs_in_range (x : sample) : Prop :=
  Forall (fun e => fst e < count_true (s_om x) /\ snd e < count_true (s_om x))
         (select (s_pairs x) (s_rm x)).

(** The graph of augmentation 0 for one sample. *)
Definition is_identity_graph (x : sample) (graph : DGLGraph) : Prop :=
  num_nodes graph = count_true (s_om x)
  /\ num_edges graph = count_true (s_rm x)
  /\ ndata_F_n graph = Some (select (s_o x) (s_om x))
  /\ edata_F_e graph = Some (select (s_r x) (s_rm x))
  /\ edge_list graph = select (s_pairs x) (s_rm x).






(** Two samples of three object slots and two relation slots. *)
Definition example_samples : list sample :=
  [ {| s_o := [[1; 2]; [3; 4]; [0; 0]]%R; s_om := [true; true; false];
       s_r := [[5; 6]; [0; 0]]%R; s_rm := [true; false];
       s_pairs := [(0, 1); (0, 0)] |};
    {| s_o := [[7; 8]; [0; 0]; [0; 0]]%R; s_om := [true; false; false];
       s_r := [[0; 0]; [0; 0]]%R; s_rm := [false; false];
       s_pairs := [(0, 0); (0, 0)] |} ].



(** A ContextGAT and an attention module whose layers are constant. *)
Definition plain_layers : ContextGAT_layers :=
  {| input_proj := fun _ => [0%R]; object_score := fun _ => 0%R;
     relation_score := fun _ => 0%R; linear_phi_edge := fun _ => [0%R; 0%R];
     linear_phi_node := fun _ => [0%R; 0%R] |}.

Definition plain_gat : ContextGAT :=
  {| context_dim := 1; feature_dim := 2; use_obj_info := true;
     use_rel_info := true; k_update_steps := 1; update_relations := true;
     layers := plain_layers |}.

Definition plain_attention : Attention :=
  {| features_att := fun _ => [0%R]; decoder_att := fun _ => [0%R];
     full_att := fun _ => 0%R; att_dropout := fun v => v |}.

(** One graph of one node, no edge, whose feature row sums to zero. *)
Definition cancelling_graph : BatchedGraph :=
  {| union := {| num_nodes := 1; ndata_F_n := Some [[1; -1]%R];
                 edge_list := []; edata_F_e := Some [] |};
     batch_num_nodes := [1];
     batch_num_edges := [0] |}.

(** Two graphs without edges, of two nodes and of one node. *)
Definition edgeless_graphs : BatchedGraph :=
  {| union := {| num_nodes := 3;
                 ndata_F_n := Some [[1; 2]; [3; 4]; [5; 6]]%R;
                 edge_list := []; edata_F_e := Some [] |};
     batch_num_nodes := [2; 1];
     batch_num_edges := [0; 0] |}.

(** How [ContextGAT.forward] reads its optional argument. *)
Definition node_counts (graphs : BatchedGraph) (arg : option (list nat))
  : list nat :=
  match arg with
  | None => batch_num_nodes graphs
  | Some l => l
  end.

(** What the derived mask says of one row. *)
Definition marks (row : vec) (real : bool) : Prop :=
  (real = true <-> rsum row <> 0%R)
  /\ (Forall (fun v => v = 0%R) row -> real = false)
  /\ (Forall (fun v => (0 <= v)%R) row ->
      (real = true <-> ~ Forall (fun v => v = 0%R) row)).

(** Position [v] is the one valid position of the mask [m]. *)
Definition only_valid (m : list bool) (v : nat) : Prop :=
  count_true m = 1 /\ nth_error m v = Some true.

(** A decoder with constant layers, and its teacher-forced twin. *)
Definition plain_decoder : Decoder :=
  {| decoder_dim := 1; vocab_size := 2; augmentation := 0;
     edge_drop_prob := 0; node_drop_prob := 0; attr_drop_prob := 0;
     word_map := Some 1%Z; teacher_force := false; training := false;
     context_gat := plain_gat;
     cascade1_attention := plain_attention;
     cascade2_attention := plain_attention;
     embedding := fun _ => [0%R]; dropout := fun v => v;
     top_down_attention := fun _ hc => hc;
     language_model := fun _ hc => hc;
     fc1 := fun _ => [1; 0]%R; fc := fun _ => [0; 1]%R |}.

Definition plain_teacher : Decoder :=
  {| decoder_dim := 1; vocab_size := 2; augmentation := 0;
     edge_drop_prob := 0; node_drop_prob := 0; attr_drop_prob := 0;
     word_map := Some 1%Z; teacher_force := true; training := false;
     context_gat := plain_gat;
     cascade1_attention := plain_attention;
     cascade2_attention := plain_attention;
     embedding := fun _ => [0%R]; dropout := fun v => v;
     top_down_attention := fun _ hc => hc;
     language_model := fun _ hc => hc;
     fc1 := fun _ => [1; 0]%R; fc := fun _ => [0; 1]%R |}.

(** A batch of two samples; the second caption is the longer one. *)
Definition two_captions : inputs :=
  {| image_features := [[[1]]; [[2]]]%R;
     object_features := [[[1; 2]; [0; 0]]; [[3; 4]; [5; 6]]]%R;
     relation_features := [[[0; 0]]; [[7; 8]]]%R;
     object_mask := [[true; false]; [true; true]];
     relation_mask := [[false]; [true]];
     pair_ids := [[(0, 0)]; [(0, 1)]];
     encoded_captions := [[1; 2; 0]; [1; 5; 2]]%Z;
     caption_lengths := [2; 3]%Z |}.

Definition no_draws : rng := fun _ => 0%R.

(** What holds of the loop variables of [_schedule_sampleing] after [k]
    timesteps. *)
Definition teacher_forced_so_far (lengths : list Z) (captions : list mat)
  (k : nat) (v : sampling) : Prop :=
  length (visits v) = k
  /\ embeddings v = Captions captions
  /\ (0 < k -> sampled_teacher_force v = Some true)
  /\ Forall (fun w => input_branch w = TeacherForced
                      /\ next_branch w = TeacherForced) (visits v)
  /\ (forall t w, nth_error (visits v) t = Some w ->
                  at_step captions (active lengths t) t = Ok (fed w)).

(** Decreasing order of caption lengths, and of (length, index) pairs. *)
Definition descending : list Z -> Prop :=
  StronglySorted (fun a b => (b <= a)%Z).

Definition descending_fst : list (Z * nat) -> Prop :=
  StronglySorted (fun x y => (fst y <= fst x)%Z).

(** [buf[i, t, :]], when the buffer has such a row *)
Definition cell (buf : list mat) (i t : nat) : option vec :=
  match nth_error buf i with
  | Some rows => nth_error rows t
  | None => None
  end.

(** After [k] timesteps, every row of [buf] that belongs to a sample no
    longer active at its timestep, or to a timestep not yet reached, still
    holds the zeros it was created with. *)
Definition untouched (lengths : list Z) (vocab : nat) (k : nat)
  (buf : list mat) : Prop :=
  forall i t v,
    cell buf i t = Some v -> active lengths t <= i \/ k <= t ->
    v = zeros vocab.

(** Two results agree: both succeed with related values, or both raise the
    same exception. *)
Definition agree {A B : Type} (R : A -> B -> Prop) (x : result A) (y : result B)
  : Prop :=
  match x, y with
  | Ok a, Ok b => R a b
  | Raise e, Raise e' => e = e'
  | _, _ => False
  end.

(** A graph whose feature fields have one row per node and per edge and
    whose edges join existing nodes. *)
Definition consistent (graph : DGLGraph) : Prop :=
  (forall F, ndata_F_n graph = Some F -> length F = num_nodes graph)
  /\ (forall E, edata_F_e graph = Some E -> length E = num_edges graph)
  /\ Forall (fun e => fst e < num_nodes graph /\ snd e < num_nodes graph)
             (edge_list graph).

(** The draws lie in [0, 1), as uniform draws do. *)
Definition unit_draws (s : rng) : Prop := forall n, (0 <= s n < 1)%R.



(** The graph of a sample whose masked-in pairs may name nodes beyond its
    masked-in objects: [add_edges] supplies the missing nodes, with zero
    feature rows. *)
Definition is_padded_graph (x : sample) (graph : DGLGraph) : Prop :=
  let F_n := select (s_o x) (s_om x) in
  let es := select (s_pairs x) (s_rm x) in
  num_nodes graph = Nat.max (count_true (s_om x)) (endpoint_bound es)
  /\ ndata_F_n graph
     = Some (F_n ++ repeat (zeros (width F_n))
                           (endpoint_bound es - count_true (s_om x)))
  /\ edge_list graph = es
  /\ edata_F_e graph = Some (select (s_r x) (s_rm x)).

(** The ContextGAT output fits the object tensor: one sample each, and no
    sample has more output rows (mask flags) than object slots. *)
Definition fits (of_ : list mat) (om : list (list bool)) (cgat_out : list mat)
  (cgat_mask_out : list (list bool)) : Prop :=
  length om = length of_
  /\ length cgat_out = length of_
  /\ length cgat_mask_out = length of_
  /\ (forall i f c, nth_error of_ i = Some f -> nth_error cgat_out i = Some c ->
                    length c <= length f)
  /\ (forall i m cm, nth_error om i = Some m ->
                     nth_error cgat_mask_out i = Some cm ->
                     length cm <= length m).

(** Slot [j] of a sample after [cgat_obj[~cgat_mask & om] = of[~cgat_mask & om]]:
    the original row [x] where the object is masked in and the ContextGAT mask
    does not mark it, else the ContextGAT row, else zeros. *)
Definition reconciled_slot (m : list bool) (c : mat) (cm : list bool) (j : nat)
  (x : vec) : vec :=
  if negb (nth j cm false) && nth j m false then x
  else match nth_error c j with
       | Some y => y
       | None => zeros (length x)
       end.

(** A consistent graph whose two feature fields are set. *)
Definition featured (graph : DGLGraph) : Prop :=
  consistent graph /\ ndata_F_n graph <> None /\ edata_F_e graph <> None.

(** A graph of two nodes joined by one edge. *)
Definition linked_graph : DGLGraph :=
  {| num_nodes := 2; ndata_F_n := Some [[1; 2]; [3; 4]]%R;
     edge_list := [(0, 1)]; edata_F_e := Some [[5; 6]%R] |}.

Definition linked_graphs : BatchedGraph :=
  {| union := linked_graph; batch_num_nodes := [2]; batch_num_edges := [1] |}.

(** [plain_gat] told to use the neighbouring objects only. *)
Definition objects_only_gat : ContextGAT :=
  {| context_dim := 1; feature_dim := 2; use_obj_info := true;
     use_rel_info := false; k_update_steps := 1; update_relations := false;
     layers := plain_layers |}.

(** A prediction buffer of [B] samples with [T] timesteps each. *)
Definition shaped (B T : nat) (buf : list mat) : Prop :=
  length buf = B /\ Forall (fun rows => length rows = T) buf.

(** The batch [x] with other captions. *)
Definition with_captions (x : inputs) (captions : list (list Z)) : inputs :=
  {| image_features := image_features x;
     object_features := object_features x;
     relation_features := relation_features x;
     object_mask := object_mask x;
     relation_mask := relation_mask x;
     pair_ids := pair_ids x;
     encoded_captions := captions;
     caption_lengths := caption_lengths x |}.

(** The four reserved tokens of the word map. *)
Definition specials : list word :=
  ["<unk>"; "<start>"; "<end>"; "<pad>"]%string.

(** The ids 1 .. n that the word map gives to [n] corpus words. *)
Definition word_ids (n : nat) : list Z :=
  map (fun v => (Z.of_nat v + 1)%Z) (seq 0 n).

(** A run of [update] calls on a meter, up to the first that raises. *)
Fixpoint updates (self : AverageMeter.t) (calls : list (R * Z))
  : AverageMeter.t * option AverageMeter.raised :=
  match calls with
  | [] => (self, None)
  | (v, n) :: rest =>
      match AverageMeter.update self v n with
      | (self', None) => updates self' rest
      | failed => failed
      end
  end.

(** Sum of the weights of a run of calls, and the weighted values added up
    from 0 in the order of the calls, as [self.sum += val * n] does. *)
Definition total_weight (calls : list (R * Z)) : Z :=
  fold_right (fun c acc => (snd c + acc)%Z) 0%Z calls.

Definition running_total (calls : list (R * Z)) : R :=
  fold_left (fun acc c => (acc + fst c * IZR (snd c))%R) calls 0%R.

(** What a lookup gives after [k] more occurrences have been counted. *)
Definition tally (o : option Z) (k : nat) : option Z :=
  match k with
  | 0 => o
  | S _ => Some (match o with Some n => n | None => 0 end + Z.of_nat k)%Z
  end.

(** A validation split of two images with five captions each; the second
    image has the longer captions. *)
Definition small_files : Datasets.files :=
  {| Datasets.sg_train_object_features := [];
     Datasets.sg_train_object_mask := [];
     Datasets.sg_train_relation_features := [];
     Datasets.sg_train_relation_mask := [];
     Datasets.sg_train_relation_pair_idx := [];
     Datasets.sg_val_object_features := [[[1; 2]]; [[3; 4]]]%R;
     Datasets.sg_val_object_mask := [[true]; [true]];
     Datasets.sg_val_relation_features := [[[0; 0]]; [[5; 6]]]%R;
     Datasets.sg_val_relation_mask := [[false]; [true]];
     Datasets.sg_val_relation_pair_idx := [[(0, 0)]; [(0, 0)]];
     Datasets.SCENE_GRAPHS_FEATURES := [("v", 0); ("v", 1)]%string;
     Datasets.train_image_features := [];
     Datasets.val_image_features := [[[1]]; [[2]]]%R;
     Datasets.CAPTIONS := repeat [4; 1; 5; 0]%Z 5 ++ repeat [4; 1; 2; 5]%Z 5;
     Datasets.ORIG_CAPTIONS :=
       repeat ["a"]%string 5
         ++ [["a"; "dog"]; ["a"; "cat"]; ["the"; "dog"]; ["one"; "dog"];
             ["dog"; "runs"]]%string;
     Datasets.CAPLENS := repeat 3%Z 5 ++ repeat 4%Z 5;
     Datasets.GENOME_DETS := [("v", 0); ("v", 1)]%string |}.







(** * Properties *)

Unset Implicit Arguments.

(** ** Results and loops *)

Lemma bind_Ok {A B : Type} (m : result A) (f : A -> result B) (b : B) :
  bind m f = Ok b -> exists a, m = Ok a /\ f a = Ok b.
Proof.
  destruct m as [a | e]; simpl; intros H.
  - exists a. split; [reflexivity | exact H].
  - discriminate H.
Qed.

Lemma bind_ret {A : Type} (m : result A) : bind m (fun a => Ok a) = m.
Proof. destruct m; reflexivity. Qed.

(** Splits a successful [bind] in hypothesis [H] into its two halves. *)
Ltac bind_inv H :=
  let a := fresh "a" in
  let E := fresh "E" in
  apply bind_Ok in H; destruct H as (a & E & H).

Lemma for_each_app {A S : Type} (xs ys : list A) (body : S -> A -> result S)
  (s : S) :
  for_each (xs ++ ys) body s = (s' <- for_each xs body s ;; for_each ys body s').
Proof.
  revert s. induction xs as [| x xs IH]; intros s; simpl.
  - reflexivity.
  - destruct (body s x) as [s1 | e]; simpl; [apply IH | reflexivity].
Qed.

Lemma for_range_S {S : Type} (n : nat) (body : S -> nat -> result S) (s : S) :
  for_range (Datatypes.S n) body s
  = (s' <- for_range n body s ;; body s' n).
Proof.
  unfold for_range. rewrite seq_S, for_each_app. simpl.
  destruct (for_each (seq 0 n) body s) as [s1 | e]; simpl.
  - apply bind_ret.
  - reflexivity.
Qed.

(** A loop that cannot fail under its invariant runs to the end and
    establishes it. *)
Lemma for_range_total {S : Type} (I : nat -> S -> Prop) (n : nat)
  (body : S -> nat -> result S) (s : S) :
  I 0 s ->
  (forall k st, k < n -> I k st -> exists st', body st k = Ok st' /\ I (Datatypes.S k) st') ->
  exists s', for_range n body s = Ok s' /\ I n s'.
Proof.
  intros H0 Hstep. induction n as [| n IH].
  - exists s. split; [reflexivity | exact H0].
  - destruct IH as (s1 & E1 & I1).
    { intros k st Hk. apply Hstep. lia. }
    destruct (Hstep n s1 (Nat.lt_succ_diag_r n) I1) as (s2 & E2 & I2).
    exists s2. split; [| exact I2].
    rewrite for_range_S, E1. exact E2.
Qed.

(** Whatever a finished loop returns satisfies an invariant its body keeps. *)
Lemma for_range_inv {S : Type} (I : nat -> S -> Prop) (n : nat)
  (body : S -> nat -> result S) (s s' : S) :
  I 0 s ->
  (forall k st st', k < n -> I k st -> body st k = Ok st' -> I (Datatypes.S k) st') ->
  for_range n body s = Ok s' -> I n s'.
Proof.
  intros H0 Hstep. revert s'. induction n as [| n IH]; intros s' Hrun.
  - injection Hrun as <-. exact H0.
  - rewrite for_range_S in Hrun. bind_inv Hrun.
    apply (Hstep n a s' (Nat.lt_succ_diag_r n)); [| exact Hrun].
    apply IH; [| exact E]. intros k st st' Hk. apply Hstep. lia.
Qed.


Lemma mapM_Ok_length {A B : Type} (f : A -> result B) (xs : list A) (ys : list B) :
  mapM f xs = Ok ys -> length ys = length xs.
Proof.
  revert ys. induction xs as [| x xs IH]; simpl; intros ys H.
  - injection H as <-. reflexivity.
  - bind_inv H. bind_inv H. injection H as <-. simpl. f_equal. now apply IH.
Qed.

Lemma mapM_Ok_nth {A B : Type} (f : A -> result B) (xs : list A) (ys : list B)
  (i : nat) (x : A) :
  mapM f xs = Ok ys -> nth_error xs i = Some x ->
  exists y, nth_error ys i = Some y /\ f x = Ok y.
Proof.
  revert ys i. induction xs as [| x0 xs IH]; simpl; intros ys i H Hi.
  - destruct i; discriminate Hi.
  - bind_inv H. bind_inv H. injection H as <-. destruct i as [| i]; simpl in *.
    + injection Hi as <-. exists a. split; [reflexivity | assumption].
    + now apply IH.
Qed.

(** ** Masks and selections *)

Lemma count_true_cons (b : bool) (m : list bool) :
  count_true (b :: m) = (if b then 1 else 0) + count_true m.
Proof. unfold count_true. destruct b; reflexivity. Qed.

Lemma select_length {A : Type} (xs : list A) (m : list bool) :
  length xs = length m -> length (select xs m) = count_true m.
Proof.
  revert m. induction xs as [| x xs IH]; intros [| b m] H; try discriminate H.
  - reflexivity.
  - simpl in H. injection H as H. rewrite count_true_cons.
    destruct b; simpl; rewrite IH by assumption; reflexivity.
Qed.


Lemma index_mask_ok {A : Type} (xs : list A) (m : list bool) :
  length xs = length m -> index_mask xs m = Ok (select xs m).
Proof. intros H. unfold index_mask. now rewrite H, Nat.eqb_refl. Qed.

Lemma get_map {A B : Type} (f : A -> B) (xs : list A) (i : nat) (x : A) :
  nth_error xs i = Some x -> get (map f xs) i = Ok (f x).
Proof. intros H. unfold get. now rewrite (map_nth_error f _ _ H). Qed.

Lemma firstn_snoc {A : Type} (xs : list A) (i : nat) (x : A) :
  nth_error xs i = Some x -> firstn (S i) xs = firstn i xs ++ [x].
Proof.
  revert i. induction xs as [| y xs IH]; intros [| i] H; try discriminate H.
  - injection H as <-. reflexivity.
  - simpl in *. f_equal. now apply IH.
Qed.

Lemma nth_error_lt {A : Type} (xs : list A) (i : nat) :
  i < length xs -> exists x, nth_error xs i = Some x.
Proof.
  intros H. destruct (nth_error xs i) as [x |] eqn:E; [now exists x |].
  apply nth_error_None in E. lia.
Qed.

(** ** Configuration errors *)

(** C9. Constructing a ContextGAT with both [use_obj_info] and
    [use_rel_info] false raises at construction (the assertion), and the
    graph builder called with an augmentation code outside 0..5 raises
    [ValueError]; in both cases the result is the exception alone: no
    module, no graph and no partial tuple is returned. *)
Theorem configuration_errors_fail_fast :
  (forall context_dim feature_dim k_update_steps update_relations w,
      ContextGAT_init context_dim feature_dim false false k_update_steps
                      update_relations w
      = Raise AssertionError)
  /\ (forall o om r rm pairs beam_size augmentation edge node attr s,
         (augmentation < 0 \/ 5 < augmentation)%Z ->
         create_batched_graphs_augmented o om r rm pairs beam_size augmentation
                                         edge node attr s
         = Raise ValueError).
Proof.
  split.
  - reflexivity.
  - intros o om r rm pairs beam_size augmentation edge node attr s Haug.
    unfold create_batched_graphs_augmented.
    repeat match goal with
           | |- context [(augmentation =? ?c)%Z] =>
               destruct (Z.eqb_spec augmentation c); [lia |]
           end.
    reflexivity.
Qed.

Lemma configuration_errors_fail_fast_witness :
  (6 < 0 \/ 5 < 6)%Z
  /\ create_batched_graphs_augmented [[[1%R]]] [[true]] [[[2%R]]] [[false]]
       [[(0, 0)]] 1 6 0 0 0 (fun _ => 0%R)
     = Raise ValueError.
Proof.
  split.
  - right. lia.
  - apply (proj2 configuration_errors_fail_fast). right. lia.
Defined.

(** ** The identity graphs *)

Lemma endpoint_bound_le (es : list (nat * nat)) (n : nat) :
  Forall (fun e => fst e < n /\ snd e < n) es -> endpoint_bound es <= n.
Proof.
  unfold endpoint_bound.
  induction 1 as [| e es [Hu Hv] _ IH]; cbn [fold_right]; lia.
Qed.

Lemma graph_ext (g : DGLGraph) n F es E :
  num_nodes g = n -> ndata_F_n g = F -> edge_list g = es -> edata_F_e g = E ->
  g = {| num_nodes := n; ndata_F_n := F; edge_list := es; edata_F_e := E |}.
Proof. destruct g; simpl; intros; subst; reflexivity. Qed.

(** Adding edges between existing nodes adds no node. *)
Lemma add_edges_in_range (g : DGLGraph) (es : list (nat * nat)) :
  endpoint_bound es <= num_nodes g -> edata_F_e g = None ->
  add_edges g es
  = {| num_nodes := num_nodes g; ndata_F_n := ndata_F_n g;
       edge_list := edge_list g ++ es; edata_F_e := None |}.
Proof.
  intros Hb He. unfold add_edges, add_nodes. simpl.
  replace (endpoint_bound es - num_nodes g) with 0 by lia.
  rewrite He. simpl. rewrite Nat.add_0_r. f_equal.
  destruct (ndata_F_n g) as [F |]; simpl; [| reflexivity].
  now rewrite app_nil_r.
Qed.

(** The block every branch of the builder starts from yields, on a
    well-formed sample, the graph of its masked-in objects and relations. *)
Lemma plain_graph_ok (r : list mat) (rm : list (list bool))
  (pairs : list (list (nat * nat))) (st : builder) (b : nat) (x : sample) :
  well_shaped x -> pairs_in_range x ->
  get (om st) b = Ok (s_om x) -> get (o st) b = Ok (s_o x) ->
  get r b = Ok (s_r x) -> get rm b = Ok (s_rm x) ->
  get pairs b = Ok (s_pairs x) ->
  plain_graph r rm pairs st b
  = Ok {| num_nodes := count_true (s_om x);
          ndata_F_n := Some (select (s_o x) (s_om x));
          edge_list := select (s_pairs x) (s_rm x);
          edata_F_e := Some (select (s_r x) (s_rm x)) |}.
Proof.
  intros (Ho & Hr & Hp) Hrange Eom Eo Er Erm Ep.
  unfold plain_graph. rewrite Eom. simpl. rewrite Eo. simpl.
  rewrite (index_mask_ok _ _ Ho). simpl.
  unfold set_ndata. simpl. rewrite (select_length _ _ Ho), Nat.eqb_refl. simpl.
  rewrite Erm. simpl. rewrite Ep. simpl. rewrite (index_mask_ok _ _ Hp). simpl.
  rewrite add_edges_in_range; simpl;
    [| now apply endpoint_bound_le | reflexivity].
  rewrite Er. simpl. rewrite (index_mask_ok _ _ Hr). simpl.
  unfold set_edata, num_edges. simpl.
  rewrite (select_length _ _ Hr), (select_length _ _ Hp), Nat.eqb_refl.
  reflexivity.
Qed.

Lemma identity_graph_spec (x : sample) :
  well_shaped x ->
  is_identity_graph x
    {| num_nodes := count_true (s_om x);
       ndata_F_n := Some (select (s_o x) (s_om x));
       edge_list := select (s_pairs x) (s_rm x);
       edata_F_e := Some (select (s_r x) (s_rm x)) |}.
Proof.
  intros (_ & _ & Hp). unfold is_identity_graph, num_edges. simpl.
  rewrite (select_length _ _ Hp). repeat split; reflexivity.
Qed.

Lemma Forall2_snoc {A B : Type} (P : A -> B -> Prop) xs ys x y :
  Forall2 P xs ys -> P x y -> Forall2 P (xs ++ [x]) (ys ++ [y]).
Proof. intros H1 H2. apply Forall2_app; [exact H1 | now constructor]. Qed.




(** ** The global-node graphs *)

Lemma update_length {A : Type} (xs : list A) (i : nat) (v : A) :
  length (update xs i v) = length xs.
Proof.
  revert i. induction xs as [| x xs IH]; intros [| i]; simpl; auto.
Qed.






Lemma skipn_nth {A : Type} (xs : list A) (k : nat) (x : A) :
  nth_error xs k = Some x -> skipn k xs = x :: skipn (S k) xs.
Proof.
  revert k. induction xs as [| y xs IH]; intros [| k] H; try discriminate H.
  - now injection H as ->.
  - simpl in H. cbn [skipn]. now apply IH.
Qed.


Lemma map2_length {A B C : Type} (f : A -> B -> C) (xs : list A) (ys : list B) :
  length (map2 f xs ys) = Nat.min (length xs) (length ys).
Proof.
  revert ys. induction xs as [| x xs IH]; intros [| y ys]; simpl; auto.
Qed.

Lemma zeros_length (d : nat) : length (zeros d) = d.
Proof. apply repeat_length. Qed.












(** ** ContextGAT: pass-through and the derived mask *)

Lemma split_sections_spec (x : mat) (sections : list nat) :
  list_sum sections = length x ->
  concat (split_sections x sections) = x
  /\ map (@length vec) (split_sections x sections) = sections.
Proof.
  revert x. induction sections as [| n rest IH]; intros x H; simpl in *.
  - destruct x; [split; reflexivity | discriminate H].
  - destruct (IH (skipn n x)) as (Hc & Hl).
    { rewrite length_skipn. lia. }
    rewrite Hc, Hl, firstn_skipn, length_firstn. split; [reflexivity |].
    f_equal. lia.
Qed.

Lemma pad_sequence_ok (d : nat) (io : list mat) :
  io <> [] ->
  pad_sequence d io
  = Ok (map (fun x => x ++ repeat (zeros d)
                                 (list_max (map (@length vec) io) - length x))
            io).
Proof. destruct io; [contradiction | reflexivity]. Qed.

(** The branch without message passing. *)
Lemma forward_without_edges (self : ContextGAT) (input_hidden : mat)
  (graphs : BatchedGraph) (arg : option (list nat)) :
  num_edges (union graphs) = 0 ->
  ContextGAT_forward self input_hidden graphs arg
  = (F_n <- ndata (union graphs) ;;
     io <- split F_n (node_counts graphs arg) ;;
     io <- pad_sequence (width F_n) io ;;
     Ok (io, map (map (fun row => Rneqb (rsum row) 0)) io)).
Proof.
  intros H. unfold ContextGAT_forward. rewrite H. reflexivity.
Qed.

(** C4. On a batched graph without edges, [ContextGAT.forward] returns the
    input node features [F_n] cut per sample by the node counts, each piece
    right-padded with zero rows up to the largest node count: the pieces
    put together again are [F_n], and no message passing has touched them. *)
Theorem zero_edges_pass_through (self : ContextGAT) (input_hidden : mat)
  (graphs : BatchedGraph) (arg : option (list nat)) (F_n : mat) :
  num_edges (union graphs) = 0 ->
  ndata_F_n (union graphs) = Some F_n ->
  node_counts graphs arg <> [] ->
  list_sum (node_counts graphs arg) = length F_n ->
  exists per_sample io_mask,
    ContextGAT_forward self input_hidden graphs arg
    = Ok (map (fun x => x ++ repeat (zeros (width F_n))
                                  (list_max (node_counts graphs arg) - length x))
              per_sample,
          io_mask)
    /\ concat per_sample = F_n
    /\ map (@length vec) per_sample = node_counts graphs arg.
Proof.
  intros Hedges HF Hne Hsum.
  destruct (split_sections_spec F_n _ Hsum) as (Hc & Hl).
  exists (split_sections F_n (node_counts graphs arg)). eexists.
  split; [| split; assumption].
  rewrite forward_without_edges by assumption.
  unfold ndata. rewrite HF. cbn [bind]. unfold split.
  rewrite Hsum, Nat.eqb_refl. cbn [bind].
  rewrite pad_sequence_ok.
  - cbn [bind]. rewrite Hl. reflexivity.
  - intros E. rewrite E in Hl. simpl in Hl. now apply Hne.
Qed.

Lemma zero_edges_pass_through_witness :
  exists per_sample io_mask,
    ContextGAT_forward plain_gat [[0%R]; [0%R]] edgeless_graphs None
    = Ok (map (fun x => x ++ repeat (zeros 2) (2 - length x)) per_sample,
          io_mask)
    /\ concat per_sample = [[1; 2]; [3; 4]; [5; 6]]%R
    /\ map (@length vec) per_sample = [2; 1].
Proof.
  apply (zero_edges_pass_through plain_gat [[0%R]; [0%R]] edgeless_graphs None
           [[1; 2]; [3; 4]; [5; 6]]%R);
    [reflexivity | reflexivity | discriminate | reflexivity].
Defined.

Lemma Rneqb_true (x y : R) : Rneqb x y = true <-> x <> y.
Proof.
  unfold Rneqb. destruct (Req_dec_T x y) as [E | N]; split; intros H;
    try discriminate H; try reflexivity; try assumption.
  now elim H.
Qed.

Lemma Rneqb_false (x y : R) : Rneqb x y = false <-> x = y.
Proof.
  unfold Rneqb. destruct (Req_dec_T x y) as [E | N]; split; intros H;
    try discriminate H; try reflexivity; try assumption.
  now elim N.
Qed.

Lemma rsum_all_zero (row : vec) : Forall (fun v => v = 0%R) row -> rsum row = 0%R.
Proof.
  induction 1 as [| v row Hv _ IH]; simpl; [reflexivity |].
  rewrite Hv, IH. apply Rplus_0_l.
Qed.

Lemma rsum_nonneg (row : vec) :
  Forall (fun v => (0 <= v)%R) row -> (0 <= rsum row)%R.
Proof.
  induction 1 as [| v row Hv _ IH]; simpl; lra.
Qed.

Lemma rsum_zero_nonneg (row : vec) :
  Forall (fun v => (0 <= v)%R) row -> rsum row = 0%R ->
  Forall (fun v => v = 0%R) row.
Proof.
  induction 1 as [| v row Hv Hrow IH]; simpl; intros Hs; constructor.
  - pose proof (rsum_nonneg row Hrow). lra.
  - apply IH. pose proof (rsum_nonneg row Hrow). lra.
Qed.

Lemma marks_spec (row : vec) : marks row (Rneqb (rsum row) 0).
Proof.
  split; [apply Rneqb_true |]. split.
  - intros H. apply Rneqb_false. now apply rsum_all_zero.
  - intros Hpos. rewrite Rneqb_true. split.
    + intros Hs Hz. apply Hs. now apply rsum_all_zero.
    + intros Hnz Hs. apply Hnz. now apply rsum_zero_nonneg.
Qed.

Lemma Forall2_map_r {A B : Type} (P : A -> B -> Prop) (f : A -> B) (xs : list A) :
  (forall x, P x (f x)) -> Forall2 P xs (map f xs).
Proof. intros H. induction xs; simpl; constructor; auto. Qed.

Lemma forward_Ok_inv (self : ContextGAT) (input_hidden : mat)
  (graphs : BatchedGraph) (arg : option (list nat)) io io_mask :
  ContextGAT_forward self input_hidden graphs arg = Ok (io, io_mask) ->
  exists F_n_t pieces,
    split F_n_t (node_counts graphs arg) = Ok pieces
    /\ pad_sequence (width F_n_t) pieces = Ok io
    /\ io_mask = map (map (fun row => Rneqb (rsum row) 0)) io.
Proof.
  unfold ContextGAT_forward. intros H.
  bind_inv H. bind_inv H. bind_inv H. injection H as <- <-.
  exists a, a0. repeat split; assumption.
Qed.

Lemma split_Ok_inv (x : mat) (sections : list nat) (pieces : list mat) :
  split x sections = Ok pieces ->
  pieces = split_sections x sections /\ list_sum sections = length x.
Proof.
  unfold split. destruct (Nat.eqb_spec (list_sum sections) (length x)) as [E | N];
    intros H; [| discriminate H].
  injection H as <-. split; [reflexivity | exact E].
Qed.

Lemma pad_sequence_Ok_inv (d : nat) (pieces io : list mat) :
  pad_sequence d pieces = Ok io ->
  io = map (fun x => x ++ repeat (zeros d)
                                (list_max (map (@length vec) pieces) - length x))
           pieces.
Proof.
  unfold pad_sequence. destruct pieces; intros H; [discriminate H |].
  now injection H as <-.
Qed.

Lemma rsum_zeros (d : nat) : rsum (zeros d) = 0%R.
Proof. apply rsum_all_zero. unfold zeros. apply Forall_forall.
  intros v Hv. now apply repeat_spec in Hv. Qed.

(** C2, as the code has it.  The mask returned by [ContextGAT.forward]
    marks a row of the padded output as real exactly when the sum of its
    entries is not zero.  Hence a row that is identically zero, and so every
    padding row, is marked not-real; a row marked real is not identically
    zero; and for a row without negative entries (such as the output of the
    ReLU update) the mark is true exactly when the row is not identically
    zero. *)
Theorem io_mask_marks_nonzero_sums (self : ContextGAT) (input_hidden : mat)
  (graphs : BatchedGraph) (arg : option (list nat)) (io : list mat)
  (io_mask : list (list bool)) :
  ContextGAT_forward self input_hidden graphs arg = Ok (io, io_mask) ->
  Forall2 (Forall2 marks) io io_mask
  /\ (forall i j n real,
         nth_error (node_counts graphs arg) i = Some n -> n <= j ->
         nth_error (nth i io_mask []) j = Some real -> real = false).
Proof.
  intros H. apply forward_Ok_inv in H.
  destruct H as (F & pieces & Hsplit & Hpad & ->).
  split.
  - apply Forall2_map_r. intros x. apply Forall2_map_r. apply marks_spec.
  - intros i j n real Hi Hj Hreal.
    apply split_Ok_inv in Hsplit. destruct Hsplit as (-> & Hsum).
    apply pad_sequence_Ok_inv in Hpad. subst io.
    destruct (split_sections_spec F _ Hsum) as (_ & Hl).
    remember (split_sections F (node_counts graphs arg)) as pieces eqn:Hpieces.
    assert (Hp : exists piece, nth_error pieces i = Some piece /\ length piece = n).
    { rewrite <- Hl in Hi. rewrite nth_error_map in Hi.
      match type of Hi with
      | option_map _ ?t = _ => destruct t as [piece |] eqn:Ep
      end; simpl in Hi; [| discriminate Hi].
      injection Hi as Hi. now exists piece. }
    destruct Hp as (piece & Ep & Hn).
    rewrite !map_map in Hreal.
    rewrite (nth_error_nth _ _ _ (map_nth_error _ _ _ Ep)) in Hreal.
    rewrite nth_error_map in Hreal.
    rewrite nth_error_app2 in Hreal by lia.
    destruct (nth_error (repeat _ _) (j - length piece)) as [row |] eqn:Erow;
      [| discriminate Hreal].
    apply nth_error_In, repeat_spec in Erow. subst row.
    injection Hreal as <-. apply Rneqb_false, rsum_zeros.
Qed.

Lemma io_mask_marks_nonzero_sums_witness :
  exists io io_mask,
    ContextGAT_forward plain_gat [[0%R]; [0%R]] edgeless_graphs None
    = Ok (io, io_mask)
    /\ Forall2 (Forall2 marks) io io_mask
    /\ (forall i j n real,
           nth_error [2; 1] i = Some n -> n <= j ->
           nth_error (nth i io_mask []) j = Some real -> real = false).
Proof.
  eexists. eexists. split; [reflexivity |].
  apply (io_mask_marks_nonzero_sums plain_gat [[0%R]; [0%R]] edgeless_graphs
           None).
  reflexivity.
Defined.

(** C2 as stated fails: a node whose feature row is [[1; -1]] is not
    identically zero, yet on a graph without edges the returned mask marks
    it not-real. *)
Lemma io_mask_misses_cancelling_row :
  ContextGAT_forward plain_gat [[0%R]] cancelling_graph None
  = Ok ([[[1; -1]%R]], [[false]])
  /\ ~ Forall (fun v => v = 0%R) [1; -1]%R.
Proof.
  split.
  - rewrite forward_without_edges by reflexivity. simpl.
    replace (Rneqb (1 + (-1 + 0)) 0) with false; [reflexivity |].
    symmetry. apply Rneqb_false. lra.
  - intros H. inversion H as [| v row Hv _]. lra.
Qed.

(** ** Attention with a single valid key *)

Lemma count_true_zero (m : list bool) :
  count_true m = 0 -> m = repeat false (length m).
Proof.
  induction m as [| b m IH]; [reflexivity |].
  rewrite count_true_cons. destruct b; simpl; intros H; [discriminate H |].
  f_equal. now apply IH.
Qed.

Lemma count_true_nth (m : list bool) (v : nat) :
  nth_error m v = Some true -> 1 <= count_true m.
Proof.
  revert v. induction m as [| b m IH]; intros [| v] H; simpl in H;
    try discriminate H; rewrite count_true_cons.
  - injection H as ->. lia.
  - specialize (IH v H). lia.
Qed.

(** A mask with one valid position is false, true, false. *)
Lemma only_valid_shape (m : list bool) (v : nat) :
  only_valid m v ->
  m = repeat false v ++ true :: repeat false (length m - S v).
Proof.
  unfold only_valid. revert v. induction m as [| b m IH]; intros v [Hc Hv].
  - destruct v; discriminate Hv.
  - rewrite count_true_cons in Hc. destruct v as [| v]; simpl in Hv.
    + injection Hv as ->. simpl in *. f_equal. rewrite Nat.sub_0_r.
      apply count_true_zero. lia.
    + pose proof (count_true_nth m v Hv) as H1.
      destruct b; [simpl in Hc; lia |].
      simpl. f_equal. apply IH. split; [simpl in Hc; lia | exact Hv].
Qed.

Lemma split_at {A : Type} (l : list A) (v : nat) (d : A) :
  v < length l -> l = firstn v l ++ nth v l d :: skipn (S v) l.
Proof.
  revert v. induction l as [| x l IH]; intros [| v] H; simpl in *; try lia.
  - reflexivity.
  - f_equal. apply IH. lia.
Qed.

Lemma map2_app {A B C : Type} (f : A -> B -> C) (xs xs' : list A)
  (ys ys' : list B) :
  length xs = length ys ->
  map2 f (xs ++ xs') (ys ++ ys') = map2 f xs ys ++ map2 f xs' ys'.
Proof.
  revert ys. induction xs as [| x xs IH]; intros [| y ys] H;
    try discriminate H; simpl; [reflexivity |].
  f_equal. apply IH. now injection H.
Qed.

Lemma map2_repeat_r {A B C : Type} (f : A -> B -> C) (xs : list A) (c : B) :
  map2 f xs (repeat c (length xs)) = map (fun x => f x c) xs.
Proof. induction xs as [| x xs IH]; simpl; [reflexivity | now rewrite IH]. Qed.

Lemma rsum_app (u v : vec) : rsum (u ++ v) = (rsum u + rsum v)%R.
Proof.
  induction u as [| x u IH]; simpl; [now rewrite Rplus_0_l |].
  rewrite IH. now rewrite Rplus_assoc.
Qed.

Lemma rsum_const_zero {A : Type} (xs : list A) :
  rsum (map (fun _ => 0%R) xs) = 0%R.
Proof. induction xs as [| x xs IH]; simpl; [reflexivity |]. rewrite IH. lra. Qed.

Lemma map_const_repeat {A B : Type} (c : B) (xs : list A) :
  map (fun _ => c) xs = repeat c (length xs).
Proof. induction xs as [| x xs IH]; simpl; [reflexivity | now rewrite IH]. Qed.

(** The three parts a list falls into around position [v]. *)
Lemma around {A : Type} (l : list A) (v : nat) (d : A) :
  v < length l ->
  exists l1 l2,
    l = l1 ++ nth v l d :: l2 /\ length l1 = v /\ length l2 = length l - S v.
Proof.
  intros H. exists (firstn v l), (skipn (S v) l).
  split; [now apply split_at |].
  rewrite length_firstn, length_skipn. lia.
Qed.

Lemma softmax_around (a1 a2 : list R) (x : R) :
  softmax (map2 fill (a1 ++ x :: a2)
                (repeat false (length a1) ++ true :: repeat false (length a2)))
  = repeat 0%R (length a1) ++ 1%R :: repeat 0%R (length a2).
Proof.
  rewrite map2_app by (now rewrite repeat_length).
  cbn [map2]. rewrite !map2_repeat_r. unfold fill, softmax. cbv zeta.
  rewrite !map_app. cbn [map]. rewrite !map_map. cbn [exp_score].
  rewrite rsum_app. cbn [rsum fold_right]. fold rsum.
  rewrite !rsum_const_zero.
  replace (0 + (exp x + 0))%R with (exp x) by lra.
  rewrite !map_const_repeat. f_equal; [f_equal; unfold Rdiv; apply Rmult_0_l |].
  f_equal; [| f_equal; unfold Rdiv; apply Rmult_0_l].
  apply Rdiv_diag. pose proof (exp_pos x). lra.
Qed.

(** With one valid position, the softmax of the masked scores is 1 there
    and 0 elsewhere. *)
Lemma softmax_single_valid (att : list R) (m : list bool) (v : nat)
  (scores : list score) :
  only_valid m v ->
  masked_fill att m = Ok scores ->
  softmax scores
  = repeat 0%R v ++ 1%R :: repeat 0%R (length m - S v).
Proof.
  intros Hv Hfill. unfold masked_fill in Hfill.
  destruct (Nat.eqb_spec (length m) (length att)) as [Hlen | _];
    [| discriminate Hfill].
  injection Hfill as <-.
  pose proof (only_valid_shape m v Hv) as Hm.
  assert (Hlt : v < length att).
  { rewrite <- Hlen. apply nth_error_Some. destruct Hv as [_ ->]. discriminate. }
  destruct (around att v 0%R Hlt) as (a1 & a2 & Ha & L1 & L2).
  remember (length m - S v) as k eqn:Hk.
  assert (Ek : k = length a2) by lia.
  rewrite Ha, Hm, Ek, <- L1. apply softmax_around.
Qed.

Lemma vadd_scaled_zero (f u : vec) :
  length f = length u -> vadd (vscale 0 f) u = u.
Proof.
  revert u. induction f as [| x f IH]; intros [| y u] H; try discriminate H;
    [reflexivity |].
  unfold vadd, vscale in *. simpl. f_equal; [ring | apply IH; now injection H].
Qed.

Lemma vadd_scaled_one (f : vec) : vadd (vscale 1 f) (zeros (length f)) = f.
Proof.
  induction f as [| x f IH]; [reflexivity |].
  unfold vadd, vscale, zeros in *. simpl. f_equal; [ring | exact IH].
Qed.

Lemma weighted_cons (d : nat) (f : vec) (F : mat) (a : R) (alpha : list R) :
  weighted_sum d (f :: F) (a :: alpha)
  = vadd (vscale a f) (weighted_sum d F alpha).
Proof. reflexivity. Qed.

Lemma weighted_zero (d : nat) (F : mat) :
  Forall (fun f => length f = d) F ->
  weighted_sum d F (repeat 0%R (length F)) = zeros d.
Proof.
  unfold weighted_sum. induction 1 as [| f F Hf _ IH]; [reflexivity |].
  simpl. rewrite IH. apply vadd_scaled_zero. now rewrite zeros_length.
Qed.

Lemma weighted_skip (d : nat) (F1 F2 : mat) (alpha : list R) :
  Forall (fun f => length f = d) F1 ->
  length (weighted_sum d F2 alpha) = d ->
  weighted_sum d (F1 ++ F2) (repeat 0%R (length F1) ++ alpha)
  = weighted_sum d F2 alpha.
Proof.
  unfold weighted_sum. intros H1 H2.
  induction H1 as [| f F1 Hf _ IH]; [reflexivity |].
  simpl. rewrite IH. apply vadd_scaled_zero. now rewrite H2.
Qed.

(** The weights 0 .. 0 1 0 .. 0 pick the row under the 1. *)
Lemma weighted_around (d : nat) (F1 F2 : mat) (f : vec) :
  Forall (fun k => length k = d) (F1 ++ f :: F2) ->
  weighted_sum d (F1 ++ f :: F2)
               (repeat 0%R (length F1) ++ 1%R :: repeat 0%R (length F2))
  = f.
Proof.
  intros H. apply Forall_app in H. destruct H as (H1 & H2).
  inversion H2 as [| f' F2' Hf HF2]; subst.
  assert (E : weighted_sum (length f) (f :: F2)
                           (1%R :: repeat 0%R (length F2)) = f).
  { rewrite weighted_cons, weighted_zero by assumption.
    apply vadd_scaled_one. }
  rewrite weighted_skip; [exact E | exact H1 |]. now rewrite E.
Qed.

(** One sample of [Attention.forward] whose mask has a single valid
    position returns the key at that position. *)
Lemma attend_single_valid (a : Attention) (keys : mat) (h : vec)
  (m : list bool) (v : nat) (x : vec) :
  Forall (fun k => length k = width keys) keys ->
  only_valid m v ->
  attend a keys h (Some m) = Ok x ->
  x = nth v keys [].
Proof.
  intros Hrect Hv H. unfold attend in H. bind_inv H. injection H as <-.
  rewrite (softmax_single_valid _ m v a0 Hv E).
  assert (Hlen : length m = length keys).
  { unfold masked_fill in E. rewrite !length_map in E.
    destruct (Nat.eqb_spec (length m) (length keys)) as [Hl | _];
      [exact Hl | discriminate E]. }
  assert (Hlt : v < length keys).
  { rewrite <- Hlen. apply nth_error_Some. destruct Hv as [_ ->]. discriminate. }
  destruct (around keys v [] Hlt) as (F1 & F2 & HF & L1 & L2).
  rewrite Hlen, <- L2. subst v.
  remember (nth (length F1) keys []) as f eqn:Hf in *.
  remember (width keys) as d eqn:Hd in *. clear Hf Hd E Hlt L2 Hlen.
  subst keys. now apply weighted_around.
Qed.

Lemma attend_all_nth (a : Attention) (image_features : list mat)
  (decoder_hidden : mat) (mask : list (list bool)) (out : mat) (i : nat)
  (keys : mat) (m : list bool) :
  attend_all a image_features decoder_hidden (Some mask) = Ok out ->
  nth_error image_features i = Some keys ->
  nth_error mask i = Some m ->
  exists h x,
    nth_error decoder_hidden i = Some h
    /\ attend a keys h (Some m) = Ok x
    /\ nth_error out i = Some x.
Proof.
  revert decoder_hidden mask out i.
  induction image_features as [| f fs IH];
    intros [| h hs] [| m0 ms] out i H Hk Hm;
    try (destruct i; discriminate Hk); try (destruct i; discriminate Hm);
    try discriminate H.
  cbn [attend_all] in H. bind_inv H. bind_inv H. injection H as <-.
  destruct i as [| i]; simpl in Hk, Hm.
  - injection Hk as <-. injection Hm as <-. exists h, a0. repeat split.
    exact E.
  - destruct (IH hs ms a1 i E0 Hk Hm) as (h' & x & H1 & H2 & H3).
    exists h', x. repeat split; assumption.
Qed.

(** C5. When the mask of a sample has exactly one valid key position,
    [Attention.forward] returns for that sample the original (unprojected)
    feature vector of the valid key: the masked-out scores are minus
    infinity, so the softmax weights are 0 there and 1 at the valid
    position. *)
Theorem single_valid_key_is_returned (a : Attention) (image_features : list mat)
  (decoder_hidden : mat) (mask : list (list bool)) (out : mat) (i v : nat)
  (keys : mat) (m : list bool) :
  Attention_forward a image_features decoder_hidden (Some mask) = Ok out ->
  nth_error image_features i = Some keys ->
  nth_error mask i = Some m ->
  Forall (fun k => length k = width keys) keys ->
  only_valid m v ->
  nth_error out i = Some (nth v keys []).
Proof.
  intros H Hk Hm Hrect Hv. unfold Attention_forward in H.
  destruct (attend_all_nth a _ _ _ _ i keys m H Hk Hm) as (h & x & _ & Hx & ->).
  f_equal. now apply (attend_single_valid a keys h m v x).
Qed.

Lemma single_valid_key_is_returned_witness :
  exists out,
    Attention_forward plain_attention [[[1; 2]; [3; 4]]%R; [[5; 6]; [7; 8]]%R]
                      [[0%R]; [0%R]] (Some [[true; true]; [false; true]])
    = Ok out
    /\ nth_error out 1 = Some [7; 8]%R.
Proof.
  eexists. split; [reflexivity |].
  apply (single_valid_key_is_returned plain_attention
           [[[1; 2]; [3; 4]]%R; [[5; 6]; [7; 8]]%R] [[0%R]; [0%R]]
           [[true; true]; [false; true]] _ 1 1 [[5; 6]; [7; 8]]%R [false; true]);
    try reflexivity.
  - repeat constructor.
  - split; reflexivity.
Defined.

(** ** The decoder: what the shared head returns *)

Lemma prepare_Ok_inv (self : Decoder) (x : inputs) (s : rng) (sorting : bool)
  (p : prepared) (captions : list (list Z)) :
  prepare self x s sorting = Ok (p, captions) ->
  decode_lengths p
  = map (fun l => (l - 1)%Z) (fst (sort_desc (caption_lengths x)))
  /\ sort_ind p = snd (sort_desc (caption_lengths x))
  /\ batch_size p = length (image_features x)
  /\ (if sorting then gather (encoded_captions x) (sort_ind p) = Ok captions
      else captions = encoded_captions x).
Proof.
  unfold prepare. destruct (sort_desc (caption_lengths x)) as [lens ind].
  intros H. do 9 bind_inv H. bind_inv H.
  destruct a8 as [[[graphs objs] mask] s']. injection H as <- <-. cbn.
  repeat split; try reflexivity.
  destruct sorting; [exact E7 | now injection E7].
Qed.

Lemma teacher_forcing_Ok_inv (self : Decoder) (x : inputs) (s : rng)
  (out : outputs) :
  _forward_with_teacher_forcing self x s = Ok out ->
  exists p captions st,
    prepare self x s true = Ok (p, captions)
    /\ out = (predictions st, predictions1 st, captions, decode_lengths p,
              sort_ind p).
Proof.
  unfold _forward_with_teacher_forcing. intros H.
  bind_inv H. destruct a as [p captions]. bind_inv H. destruct a as [st T].
  bind_inv H. injection H as <-. now exists p, captions, a.
Qed.

Lemma no_teacher_force_Ok_inv (self : Decoder) (x : inputs) (s : rng)
  (out : outputs) :
  _forward_no_teacher_force self x s = Ok out ->
  exists p captions st,
    prepare self x s false = Ok (p, captions)
    /\ out = (predictions st, predictions1 st, captions, decode_lengths p,
              sort_ind p).
Proof.
  unfold _forward_no_teacher_force. intros H.
  bind_inv H. destruct a as [p captions]. bind_inv H. bind_inv H.
  destruct a0 as [st T]. bind_inv H. destruct a0 as [st' emb].
  injection H as <-. now exists p, captions, st'.
Qed.

(** The teacher-forced path returns the captions re-indexed by the sort
    permutation it also returns. *)
Lemma teacher_forcing_returns_sorted_captions (self : Decoder) (x : inputs)
  (s : rng) (predictions predictions1 : list mat) (captions : list (list Z))
  (lengths : list Z) (ind : list nat) :
  _forward_with_teacher_forcing self x s
  = Ok (predictions, predictions1, captions, lengths, ind) ->
  gather (encoded_captions x) ind = Ok captions.
Proof.
  intros H. apply teacher_forcing_Ok_inv in H.
  destruct H as (p & c & st & Hp & E). injection E as -> -> -> -> ->.
  apply prepare_Ok_inv in Hp. now destruct Hp as (_ & _ & _ & Hc).
Qed.

(** The free-running path returns the captions exactly as it was given
    them, whatever the sort permutation is. *)
Lemma no_teacher_force_returns_given_captions (self : Decoder) (x : inputs)
  (s : rng) (out : outputs) :
  _forward_no_teacher_force self x s = Ok out ->
  third out = encoded_captions x.
Proof.
  intros H. apply no_teacher_force_Ok_inv in H.
  destruct H as (p & c & st & Hp & ->). cbn.
  apply prepare_Ok_inv in Hp. now destruct Hp as (_ & _ & _ & Hc).
Qed.

(** C1 fails on the free-running path.  For a batch whose second caption is
    the longer one, the sort permutation is [[1; 0]] and the teacher-forced
    path returns the captions in that order, but the free-running path
    returns them in the order it was given: the third element of its tuple
    is not the captions reordered by [sort_ind]. *)
Theorem free_running_returns_unsorted_captions :
  (exists predictions predictions1 lengths,
      forward plain_decoder two_captions no_draws
      = Ok (predictions, predictions1, [[1; 2; 0]; [1; 5; 2]]%Z, lengths, [1; 0]))
  /\ (exists predictions predictions1 lengths,
         forward plain_teacher two_captions no_draws
         = Ok (predictions, predictions1, [[1; 5; 2]; [1; 2; 0]]%Z, lengths,
               [1; 0]))
  /\ gather (encoded_captions two_captions) [1; 0]
     = Ok [[1; 5; 2]; [1; 2; 0]]%Z.
Proof.
  split; [| split].
  - do 3 eexists. vm_compute. reflexivity.
  - do 3 eexists. vm_compute. reflexivity.
  - reflexivity.
Qed.

(** ** Scheduled sampling *)

Lemma init_state_Ok_inv (self : Decoder) (p : prepared) (st : state) (T : Z) :
  init_state self p = Ok (st, T) ->
  py_max (decode_lengths p) = Ok T
  /\ zero_buffer (batch_size p) T (vocab_size self) = Ok (predictions st)
  /\ zero_buffer (batch_size p) T (vocab_size self) = Ok (predictions1 st).
Proof.
  unfold init_state. intros H. do 3 bind_inv H. injection H as <- <-.
  cbn. repeat split; assumption.
Qed.

Lemma schedule_sampleing_Ok_inv (self : Decoder) (x : inputs) (s : rng)
  (out : outputs) (vs : list visit) :
  schedule_sampleing_visits self x s = Ok (out, vs) ->
  exists p st T v,
    prepare self x s false = Ok (p, encoded_captions x)
    /\ init_state self p = Ok (st, T)
    /\ for_range (Z.to_nat T)
         (sampling_step self p
            (map (map (embedding self)) (encoded_captions x)))
         {| loop := st;
            embeddings :=
              Captions (map (map (embedding self)) (encoded_captions x));
            sampled_teacher_force := None; visits := [] |}
       = Ok v
    /\ out = (predictions (loop v), predictions1 (loop v), encoded_captions x,
              decode_lengths p, sort_ind p)
    /\ vs = visits v.
Proof.
  unfold schedule_sampleing_visits. intros H.
  bind_inv H. destruct a as [p captions].
  pose proof (prepare_Ok_inv _ _ _ _ _ _ E) as (_ & _ & _ & Hc).
  cbn in Hc. subst captions.
  bind_inv H. bind_inv H. destruct a0 as [st T]. bind_inv H.
  injection H as <- <-. exists p, st, T, a0. repeat split; assumption.
Qed.

Lemma sampling_step_keeps (self : Decoder) (p : prepared) (captions : list mat)
  (k : nat) (v v' : sampling) :
  teacher_forced_so_far (decode_lengths p) captions k v ->
  sampling_step self p captions v k = Ok v' ->
  teacher_forced_so_far (decode_lengths p) captions (S k) v'.
Proof.
  intros (Hlen & Hemb & Hflag & Hall & Hfed) H.
  unfold sampling_step in H. rewrite Hemb in H.
  assert (Hcond : (if k =? 0 then Ok true
                   else match sampled_teacher_force v with
                        | Some b => Ok b
                        | None => Raise UnboundLocalError
                        end) = Ok true).
  { destruct k as [| k]; [reflexivity |]. cbn. now rewrite Hflag by lia. }
  rewrite Hcond in H. cbn [bind] in H.
  bind_inv H. destruct a as [st preds]. bind_inv H.
  change (truthy 1) with true in H. cbv iota in H. injection H as <-.
  unfold teacher_forced_so_far. cbn.
  split; [rewrite length_app, Hlen; simpl; lia |].
  split; [reflexivity |]. split; [reflexivity |].
  split.
  - apply Forall_app. split; [exact Hall |]. constructor; [| constructor].
    cbn. split; reflexivity.
  - intros t w Hw.
    destruct (Nat.lt_ge_cases t (length (visits v))) as [Hlt | Hge].
    + rewrite nth_error_app1 in Hw by exact Hlt. now apply Hfed.
    + rewrite nth_error_app2 in Hw by exact Hge.
      destruct (t - length (visits v)) as [| d] eqn:Ed; simpl in Hw.
      * injection Hw as <-. cbn. replace t with k by lia. exact E0.
      * destruct d; discriminate Hw.
Qed.

(** C8. In [_schedule_sampleing] the condition [t==0 or
    sampled_teacher_force] is true at every timestep and the choice
    [if 1] always takes its first side: at each of the
    [max(decode_lengths)] timesteps the rows fed to the top-down cell are
    the embeddings of the ground-truth captions at position [t], and the
    side that feeds the predicted token back never runs. *)
Theorem scheduled_sampling_always_teacher_forces (self : Decoder) (x : inputs)
  (s : rng) (predictions predictions1 : list mat) (captions : list (list Z))
  (lengths : list Z) (ind : list nat) (vs : list visit) :
  schedule_sampleing_visits self x s
  = Ok ((predictions, predictions1, captions, lengths, ind), vs) ->
  (exists T, py_max lengths = Ok T /\ length vs = Z.to_nat T)
  /\ Forall (fun w => input_branch w = TeacherForced
                      /\ next_branch w = TeacherForced) vs
  /\ (forall t w, nth_error vs t = Some w ->
                  at_step (map (map (embedding self)) (encoded_captions x))
                          (active lengths t) t
                  = Ok (fed w)).
Proof.
  intros H. apply schedule_sampleing_Ok_inv in H.
  destruct H as (p & st & T & v & Hp & Hinit & Hrun & Hout & ->).
  injection Hout as -> -> -> -> ->.
  apply init_state_Ok_inv in Hinit. destruct Hinit as (HT & _ & _).
  assert (Hinv : teacher_forced_so_far (decode_lengths p)
                   (map (map (embedding self)) (encoded_captions x))
                   (Z.to_nat T) v).
  { eapply (for_range_inv
              (teacher_forced_so_far (decode_lengths p)
                 (map (map (embedding self)) (encoded_captions x))));
      [| | exact Hrun].
    - unfold teacher_forced_so_far. cbn. repeat split; try lia.
      + constructor.
      + intros t w Hw. destruct t; discriminate Hw.
    - intros k st0 st1 _. apply sampling_step_keeps. }
  destruct Hinv as (Hlen & _ & _ & Hall & Hfed).
  split; [now exists T |]. split; assumption.
Qed.

Lemma scheduled_sampling_always_teacher_forces_witness :
  exists predictions predictions1 vs,
    schedule_sampleing_visits plain_decoder two_captions no_draws
    = Ok ((predictions, predictions1, [[1; 2; 0]; [1; 5; 2]]%Z, [2; 1]%Z,
           [1; 0]), vs)
    /\ (exists T, py_max [2; 1]%Z = Ok T /\ length vs = Z.to_nat T)
    /\ Forall (fun w => input_branch w = TeacherForced
                        /\ next_branch w = TeacherForced) vs
    /\ (forall t w, nth_error vs t = Some w ->
                    at_step (map (map (embedding plain_decoder))
                                 (encoded_captions two_captions))
                            (active [2; 1]%Z t) t
                    = Ok (fed w)).
Proof.
  do 3 eexists. split; [vm_compute; reflexivity |].
  eapply (scheduled_sampling_always_teacher_forces plain_decoder two_captions
            no_draws).
  vm_compute. reflexivity.
Defined.

(** ** Evaluation mode ignores the augmentation settings *)

(** Augmentation 0 does not read the three drop probabilities. *)
Lemma identity_ignores_probabilities o om r rm pairs beam_size
  (edge node attr edge' node' attr' : R) (s : rng) :
  create_batched_graphs_augmented o om r rm pairs beam_size 0 edge node attr s
  = create_batched_graphs_augmented o om r rm pairs beam_size 0 edge' node'
      attr' s.
Proof. reflexivity. Qed.

Lemma prepare_in_eval (self : Decoder) (aug : Z) (edge node attr : R)
  (x : inputs) (s : rng) (sorting : bool) :
  training self = false ->
  prepare (with_augmentation self aug edge node attr) x s sorting
  = prepare self x s sorting.
Proof.
  intros H. unfold prepare.
  change (training (with_augmentation self aug edge node attr))
    with (training self).
  rewrite H. reflexivity.
Qed.

(** In evaluation mode the graphs are those of augmentation code 0. *)
Lemma eval_builds_identity_graphs (self : Decoder) (x : inputs) (s : rng)
  (sorting : bool) (p : prepared) (captions : list (list Z)) :
  training self = false ->
  prepare self x s sorting = Ok (p, captions) ->
  exists o om r rm pairs,
    gather (object_features x) (sort_ind p) = Ok o
    /\ gather (object_mask x) (sort_ind p) = Ok om
    /\ gather (relation_features x) (sort_ind p) = Ok r
    /\ gather (relation_mask x) (sort_ind p) = Ok rm
    /\ gather (pair_ids x) (sort_ind p) = Ok pairs
    /\ create_batched_graphs_augmented o om r rm pairs 1 0 0 0 0 s
       = Ok (g p, objs p, objs_mask p, gen_after p).
Proof.
  intros Htrain. unfold prepare. rewrite Htrain.
  destruct (sort_desc (caption_lengths x)) as [lens ind].
  intros H. do 9 bind_inv H. bind_inv H.
  destruct a8 as [[[graphs objs] mask] s']. injection H as <- <-. cbn.
  exists a0, a1, a2, a3, a4. repeat split; try assumption.
Qed.

(** C10. In evaluation mode ([training] false) the decoder builds its
    graphs with augmentation code 0 whatever [augmentation] is configured,
    and [forward] returns the same result for any two settings of
    [augmentation], [edge_drop_prob], [node_drop_prob] and
    [attr_drop_prob]. *)
Theorem eval_mode_ignores_augmentation (self : Decoder)
  (aug aug' : Z) (edge node attr edge' node' attr' : R) (x : inputs) (s : rng) :
  training self = false ->
  forward (with_augmentation self aug edge node attr) x s
  = forward (with_augmentation self aug' edge' node' attr') x s
  /\ (forall sorting p captions,
         prepare (with_augmentation self aug edge node attr) x s sorting
         = Ok (p, captions) ->
         exists o om r rm pairs,
           gather (object_features x) (sort_ind p) = Ok o
           /\ gather (object_mask x) (sort_ind p) = Ok om
           /\ gather (relation_features x) (sort_ind p) = Ok r
           /\ gather (relation_mask x) (sort_ind p) = Ok rm
           /\ gather (pair_ids x) (sort_ind p) = Ok pairs
           /\ create_batched_graphs_augmented o om r rm pairs 1 0 0 0 0 s
              = Ok (g p, objs p, objs_mask p, gen_after p)).
Proof.
  intros H. split.
  - unfold forward.
    change (teacher_force (with_augmentation self aug edge node attr))
      with (teacher_force self).
    change (teacher_force (with_augmentation self aug' edge' node' attr'))
      with (teacher_force self).
    destruct (teacher_force self).
    + unfold _forward_with_teacher_forcing.
      rewrite !prepare_in_eval by exact H. reflexivity.
    + unfold _forward_no_teacher_force.
      rewrite !prepare_in_eval by exact H. reflexivity.
  - intros sorting p captions Hp. rewrite prepare_in_eval in Hp by exact H.
    now apply (eval_builds_identity_graphs self x s sorting p captions).
Qed.

Lemma eval_mode_ignores_augmentation_witness :
  training plain_decoder = false
  /\ forward (with_augmentation plain_decoder 5 (1 / 2) (1 / 2) (1 / 2))
             two_captions no_draws
     = forward (with_augmentation plain_decoder 2 0 1 0) two_captions no_draws.
Proof.
  split; [reflexivity |].
  apply (eval_mode_ignores_augmentation plain_decoder). reflexivity.
Defined.

(** ** Decode lengths, the active prefix and the prediction buffers *)

Lemma insert_desc_In (x z : Z * nat) (l : list (Z * nat)) :
  In z (insert_desc x l) <-> z = x \/ In z l.
Proof.
  induction l as [| y l IH]; simpl.
  - intuition congruence.
  - destruct (fst y <=? fst x)%Z; simpl; [intuition congruence |].
    rewrite IH. intuition congruence.
Qed.

Lemma insert_desc_length (x : Z * nat) (l : list (Z * nat)) :
  length (insert_desc x l) = S (length l).
Proof.
  induction l as [| y l IH]; simpl; [reflexivity |].
  destruct (fst y <=? fst x)%Z; simpl; [reflexivity | now rewrite IH].
Qed.

Lemma insert_desc_sorted (x : Z * nat) (l : list (Z * nat)) :
  descending_fst l -> descending_fst (insert_desc x l).
Proof.
  unfold descending_fst.
  induction 1 as [| y l Hl IH Hy]; simpl.
  - constructor; constructor.
  - destruct (Z.leb_spec (fst y) (fst x)) as [Hle | Hgt].
    + constructor; [constructor; assumption |].
      constructor; [exact Hle |].
      revert Hy. apply Forall_impl. intros z Hz. lia.
    + constructor; [exact IH |].
      apply Forall_forall. intros z Hz. apply insert_desc_In in Hz.
      destruct Hz as [-> | Hz]; [lia |].
      now apply (proj1 (Forall_forall _ _) Hy).
Qed.

Lemma sorted_pairs (l : list (Z * nat)) :
  descending_fst (fold_right insert_desc [] l)
  /\ length (fold_right insert_desc [] l) = length l
  /\ (forall z, In z (fold_right insert_desc [] l) <-> In z l).
Proof.
  induction l as [| x l (Hs & Hl & Hin)]; simpl.
  - split; [constructor |]. split; [reflexivity | tauto].
  - split; [now apply insert_desc_sorted |].
    split; [now rewrite insert_desc_length, Hl |].
    intros z. rewrite insert_desc_In, Hin. intuition congruence.
Qed.

Lemma In_combine_seq (l : list Z) (a n : nat) (c : Z) (j : nat) :
  In (c, j) (combine l (seq a n)) -> a <= j /\ nth_error l (j - a) = Some c.
Proof.
  revert a n. induction l as [| x l IH]; intros a [| n] H; simpl in H;
    try contradiction.
  destruct H as [H | H].
  - injection H as -> ->. rewrite Nat.sub_diag. split; [lia | reflexivity].
  - apply IH in H. destruct H as (Hle & Hn). split; [lia |].
    replace (j - a) with (S (j - S a)) by lia. exact Hn.
Qed.

Lemma descending_map_fst (s : list (Z * nat)) :
  descending_fst s -> descending (map fst s).
Proof.
  unfold descending, descending_fst.
  induction 1 as [| y l Hl IH Hy]; simpl; constructor; [exact IH |].
  apply Forall_map. exact Hy.
Qed.

Lemma descending_pred (l : list Z) :
  descending l -> descending (map (fun c => (c - 1)%Z) l).
Proof.
  unfold descending.
  induction 1 as [| y l Hl IH Hy]; simpl; constructor; [exact IH |].
  apply Forall_map. revert Hy. apply Forall_impl. intros z Hz. lia.
Qed.

(** [sort] returns the lengths in decreasing order together with the
    positions they came from. *)
Lemma sort_desc_spec (l : list Z) :
  descending (fst (sort_desc l))
  /\ length (fst (sort_desc l)) = length l
  /\ (forall i c, nth_error (fst (sort_desc l)) i = Some c ->
                  exists j, nth_error (snd (sort_desc l)) i = Some j
                            /\ nth_error l j = Some c).
Proof.
  unfold sort_desc. cbn [fst snd].
  destruct (sorted_pairs (combine l (seq 0 (length l)))) as (Hs & Hl & Hin).
  split; [now apply descending_map_fst |].
  split.
  - rewrite length_map, Hl, length_combine, length_seq. lia.
  - intros i c Hi. rewrite nth_error_map in Hi.
    destruct (nth_error (fold_right insert_desc [] _) i) as [[c' j] |] eqn:E;
      [| discriminate Hi].
    injection Hi as <-. exists j. split.
    + rewrite nth_error_map, E. reflexivity.
    + apply nth_error_In, Hin, In_combine_seq in E. destruct E as (_ & E).
      now rewrite Nat.sub_0_r in E.
Qed.

Lemma active_cons (a : Z) (l : list Z) (t : nat) :
  active (a :: l) t = (if (Z.of_nat t <? a)%Z then 1 else 0) + active l t.
Proof. unfold active. simpl. destruct (Z.of_nat t <? a)%Z; reflexivity. Qed.

Lemma active_none (l : list Z) (t : nat) :
  Forall (fun b => (b <= Z.of_nat t)%Z) l -> active l t = 0.
Proof.
  induction 1 as [| b l Hb _ IH]; [reflexivity |].
  rewrite active_cons, IH. destruct (Z.ltb_spec (Z.of_nat t) b); [lia | reflexivity].
Qed.

(** On lengths in decreasing order the active samples are a prefix: sample
    [i] is among the first [active lengths t] exactly when its decode length
    exceeds [t]. *)
Lemma active_prefix (lengths : list Z) (t i : nat) :
  descending lengths ->
  i < active lengths t
  <-> exists l, nth_error lengths i = Some l /\ (Z.of_nat t < l)%Z.
Proof.
  unfold descending. intros Hs. revert i.
  induction Hs as [| a l Hl IH Ha]; intros i.
  - split; [unfold active; simpl; lia |].
    intros (c & Hc & _). destruct i; discriminate Hc.
  - rewrite active_cons. destruct (Z.ltb_spec (Z.of_nat t) a) as [Hlt | Hge].
    + destruct i as [| i]; simpl.
      * split; [intros _; now exists a | lia].
      * rewrite <- IH. lia.
    + rewrite active_none
        by (revert Ha; apply Forall_impl; intros b Hb; lia).
      split; [lia |]. intros (c & Hc & Hlt).
      destruct i as [| i]; simpl in Hc.
      * injection Hc as ->. lia.
      * apply nth_error_In in Hc.
        pose proof (proj1 (Forall_forall _ _) Ha c Hc) as Hca.
        cbv beta in Hca. lia.
Qed.

(** The active batch size never grows with [t]. *)
Lemma active_antitone (lengths : list Z) (t t' : nat) :
  t <= t' -> active lengths t' <= active lengths t.
Proof.
  intros H. induction lengths as [| a l IH]; [apply Nat.le_refl |].
  rewrite !active_cons.
  destruct (Z.ltb_spec (Z.of_nat t') a), (Z.ltb_spec (Z.of_nat t) a); lia.
Qed.

Lemma update_other {A : Type} (xs : list A) (t t' : nat) (v : A) :
  t' <> t -> nth_error (update xs t v) t' = nth_error xs t'.
Proof.
  revert t t'. induction xs as [| x xs IH]; intros [| t] [| t'] H; simpl;
    try reflexivity; try contradiction.
  apply IH. lia.
Qed.

(** Writing timestep [t] of the [n] leading samples leaves the other
    samples and the other timesteps alone. *)
Lemma write_rows_untouched (t : nat) (buf : list mat) (vals : mat) (n i t' : nat) :
  n <= i \/ t' <> t ->
  cell (write_rows t buf vals n) i t' = cell buf i t'.
Proof.
  revert buf vals i. induction n as [| n IH]; intros buf vals i H.
  - reflexivity.
  - destruct buf as [| row buf]; [reflexivity |].
    destruct vals as [| v vals]; [reflexivity |].
    cbn [write_rows]. destruct i as [| i]; unfold cell; simpl.
    + destruct H as [H | H]; [lia |]. now apply update_other.
    + apply IH. lia.
Qed.

Lemma put_untouched (buf buf' : list mat) (batch_size_t t : nat) (vals : mat)
  (i t' : nat) :
  put buf batch_size_t t vals = Ok buf' ->
  batch_size_t <= i \/ t' <> t ->
  cell buf' i t' = cell buf i t'.
Proof.
  unfold put. intros H Hi.
  assert (Hn : Nat.min batch_size_t (length buf) <= i \/ t' <> t).
  { destruct Hi as [Hi | Hi]; [| now right].
    destruct (Nat.le_gt_cases (length buf) i) as [Hb | Hb]; [left; lia |].
    left. lia. }
  destruct (length vals =? Nat.min batch_size_t (length buf)).
  - injection H as <-. now apply write_rows_untouched.
  - destruct vals as [| v [| v' vals]]; try discriminate H.
    injection H as <-. now apply write_rows_untouched.
Qed.

Lemma put_keeps (lengths : list Z) (vocab k : nat) (buf buf' : list mat)
  (vals : mat) :
  untouched lengths vocab k buf ->
  put buf (active lengths k) k vals = Ok buf' ->
  untouched lengths vocab (S k) buf'.
Proof.
  intros Hinv Hput i t v Hcell Hit.
  assert (Hside : active lengths k <= i \/ t <> k).
  { destruct (Nat.eq_dec t k) as [-> | Hne]; [left | now right].
    destruct Hit; [assumption | lia]. }
  rewrite (put_untouched _ _ _ _ _ i t Hput Hside) in Hcell.
  apply (Hinv i t v Hcell). destruct Hit; [now left | right; lia].
Qed.

Lemma zero_buffer_untouched (lengths : list Z) (batch vocab : nat) (T : Z)
  (buf : list mat) :
  zero_buffer batch T vocab = Ok buf -> untouched lengths vocab 0 buf.
Proof.
  unfold zero_buffer. destruct (T <? 0)%Z; intros H; [discriminate H |].
  injection H as <-. intros i t v Hcell _. unfold cell in Hcell.
  destruct (nth_error _ i) as [rows |] eqn:E; [| discriminate Hcell].
  apply nth_error_In, repeat_spec in E. subst rows.
  apply nth_error_In, repeat_spec in Hcell. exact Hcell.
Qed.

(** A decode step writes both buffers through [put] at its own timestep,
    for the samples active at that timestep. *)
Lemma decode_step_puts (self : Decoder) (p : prepared) (t : nat)
  (emb : result mat) (st st' : state) (preds : mat) :
  decode_step self p t emb st = Ok (st', preds) ->
  exists vals vals1,
    put (predictions st) (active (decode_lengths p) t) t vals
    = Ok (predictions st')
    /\ put (predictions1 st) (active (decode_lengths p) t) t vals1
       = Ok (predictions1 st').
Proof.
  unfold decode_step. intros H. bind_inv H. bind_inv H.
  match type of H with
  | context [lstm ?c ?x ?h ?cc] => destruct (lstm c x h cc) as [h1' c1']
  end.
  bind_inv H. destruct a1 as [cgat_out cgat_mask_out].
  bind_inv H. bind_inv H. bind_inv H.
  match type of H with
  | context [lstm ?c ?x ?h ?cc] => destruct (lstm c x h cc) as [h2' c2']
  end.
  bind_inv H. bind_inv H. injection H as <- <-. cbn.
  do 2 eexists. split; [exact E5 | exact E6].
Qed.

Lemma decode_step_keeps (self : Decoder) (p : prepared) (k : nat)
  (emb : result mat) (st st' : state) (preds : mat) :
  decode_step self p k emb st = Ok (st', preds) ->
  untouched (decode_lengths p) (vocab_size self) k (predictions st)
  /\ untouched (decode_lengths p) (vocab_size self) k (predictions1 st) ->
  untouched (decode_lengths p) (vocab_size self) (S k) (predictions st')
  /\ untouched (decode_lengths p) (vocab_size self) (S k) (predictions1 st').
Proof.
  intros H (H0 & H1). apply decode_step_puts in H.
  destruct H as (vals & vals1 & P0 & P1).
  split; [eapply put_keeps; [exact H0 | exact P0]
         | eapply put_keeps; [exact H1 | exact P1]].
Qed.

(** Whichever path [forward] takes, the buffers it returns were written
    only through [decode_step]. *)
Lemma forward_buffers (self : Decoder) (x : inputs) (s : rng)
  (predictions predictions1 : list mat) (captions : list (list Z))
  (lengths : list Z) (ind : list nat) :
  forward self x s = Ok (predictions, predictions1, captions, lengths, ind) ->
  exists T,
    lengths = map (fun l => (l - 1)%Z) (fst (sort_desc (caption_lengths x)))
    /\ ind = snd (sort_desc (caption_lengths x))
    /\ py_max lengths = Ok T
    /\ untouched lengths (vocab_size self) (Z.to_nat T) predictions
    /\ untouched lengths (vocab_size self) (Z.to_nat T) predictions1.
Proof.
  unfold forward. destruct (teacher_force self).
  - unfold _forward_with_teacher_forcing. intros H.
    bind_inv H. destruct a as [p c]. bind_inv H. destruct a as [st0 T].
    bind_inv H. injection H as <- <- <- <- <-.
    pose proof (prepare_Ok_inv _ _ _ _ _ _ E) as (Hl & Hi & _ & _).
    apply init_state_Ok_inv in E0. destruct E0 as (HT & Z0 & Z1).
    exists T. split; [exact Hl |]. split; [exact Hi |]. split; [exact HT |].
    refine (for_range_inv
              (fun k st =>
                 untouched (decode_lengths p) (vocab_size self) k
                           (Models.predictions st)
                 /\ untouched (decode_lengths p) (vocab_size self) k
                              (Models.predictions1 st))
              (Z.to_nat T) _ st0 a _ _ E1).
    + split; eapply zero_buffer_untouched; eassumption.
    + intros k st st' _ Hinv Hstep. bind_inv Hstep.
      destruct a0 as [st1 preds]. injection Hstep as <-.
      eapply decode_step_keeps; eassumption.
  - unfold _forward_no_teacher_force. intros H.
    bind_inv H. destruct a as [p c]. bind_inv H. bind_inv H.
    destruct a0 as [st0 T]. bind_inv H. destruct a0 as [st emb].
    injection H as <- <- <- <- <-.
    pose proof (prepare_Ok_inv _ _ _ _ _ _ E) as (Hl & Hi & _ & _).
    apply init_state_Ok_inv in E1. destruct E1 as (HT & Z0 & Z1).
    exists T. split; [exact Hl |]. split; [exact Hi |]. split; [exact HT |].
    refine (for_range_inv
              (fun k (v : state * mat) =>
                 untouched (decode_lengths p) (vocab_size self) k
                           (Models.predictions (fst v))
                 /\ untouched (decode_lengths p) (vocab_size self) k
                              (Models.predictions1 (fst v)))
              (Z.to_nat T) _ _ (st, emb) _ _ E2).
    + split; eapply zero_buffer_untouched; eassumption.
    + intros k [st1 emb1] v' _ Hinv Hstep. bind_inv Hstep.
      destruct a0 as [st2 preds]. injection Hstep as <-. cbn [fst] in *.
      eapply decode_step_keeps; eassumption.
Qed.

(** C3. In every decoder forward call: the decode length of each sample is
    its caption length minus one (sample [i] of the sorted batch is sample
    [ind[i]] of the input); at every timestep [t] the active batch size
    counts the samples whose decode length exceeds [t] (they are the first
    [active lengths t] of the batch) and does not grow with [t]; and for a
    sample whose decode length is at most [t], the rows at timestep [t] of
    both prediction buffers still hold the zeros they were created with. *)
Theorem decode_lengths_govern_writes (self : Decoder) (x : inputs) (s : rng)
  (predictions predictions1 : list mat) (captions : list (list Z))
  (lengths : list Z) (ind : list nat) :
  forward self x s = Ok (predictions, predictions1, captions, lengths, ind) ->
  (length lengths = length (caption_lengths x)
   /\ forall i l, nth_error lengths i = Some l ->
                  exists j c, nth_error ind i = Some j
                              /\ nth_error (caption_lengths x) j = Some c
                              /\ l = (c - 1)%Z)
  /\ (forall t i, i < active lengths t
                  <-> exists l, nth_error lengths i = Some l
                                /\ (Z.of_nat t < l)%Z)
  /\ (forall t t', t <= t' -> active lengths t' <= active lengths t)
  /\ (forall i t l, nth_error lengths i = Some l -> (l <= Z.of_nat t)%Z ->
                    (forall v, cell predictions i t = Some v ->
                               v = zeros (vocab_size self))
                    /\ (forall v, cell predictions1 i t = Some v ->
                                  v = zeros (vocab_size self))).
Proof.
  intros H. apply forward_buffers in H.
  destruct H as (T & -> & -> & HT & H0 & H1).
  destruct (sort_desc_spec (caption_lengths x)) as (Hsorted & Hlen & Hnth).
  assert (Hdesc : descending (map (fun l => (l - 1)%Z)
                                  (fst (sort_desc (caption_lengths x)))))
    by now apply descending_pred.
  split; [split |].
  - now rewrite length_map.
  - intros i l Hl. rewrite nth_error_map in Hl.
    destruct (nth_error (fst (sort_desc (caption_lengths x))) i) as [c |] eqn:E;
      [| discriminate Hl].
    injection Hl as <-. destruct (Hnth i c E) as (j & Hj & Hc).
    now exists j, c.
  - split; [intros t i; now apply active_prefix |].
    split; [intros t t'; apply active_antitone |].
    intros i t l Hl Hle.
    assert (Hi : active (map (fun l => (l - 1)%Z)
                             (fst (sort_desc (caption_lengths x)))) t <= i).
    { apply Nat.nlt_ge. intros Hlt. apply (active_prefix _ t i Hdesc) in Hlt.
      destruct Hlt as (l' & Hl' & Hgt). rewrite Hl in Hl'. injection Hl' as <-.
      lia. }
    split; intros v Hv; [eapply H0 | eapply H1]; try eassumption; now left.
Qed.

Lemma decode_lengths_govern_writes_witness :
  exists predictions predictions1,
    forward plain_teacher two_captions no_draws
    = Ok (predictions, predictions1, [[1; 5; 2]; [1; 2; 0]]%Z, [2; 1]%Z, [1; 0])
    /\ cell predictions 0 1 = Some [0; 1]%R
    /\ cell predictions 1 1 = Some [0; 0]%R
    /\ (forall i t l, nth_error [2; 1]%Z i = Some l -> (l <= Z.of_nat t)%Z ->
                      (forall v, cell predictions i t = Some v ->
                                 v = zeros (vocab_size plain_teacher))
                      /\ (forall v, cell predictions1 i t = Some v ->
                                    v = zeros (vocab_size plain_teacher))).
Proof.
  do 2 eexists. split; [vm_compute; reflexivity |].
  split; [reflexivity |]. split; [reflexivity |].
  eapply (decode_lengths_govern_writes plain_teacher two_captions no_draws).
  vm_compute. reflexivity.
Defined.

(** * Further properties of the code *)

(** ** The drop helpers of src/utils.py *)


(** Reading a list at the positions of the true flags is selecting by the
    flags. *)
Lemma take_nonzero_from {A : Type} (xs : list A) (m : list bool) (i : nat) :
  take xs (nonzero_from i m) = select (skipn i xs) m.
Proof.
  unfold take. revert i. induction m as [| b m IH]; intros i; simpl.
  - now destruct (skipn i xs).
  - destruct (nth_error xs i) as [x |] eqn:E.
    + rewrite (skipn_nth _ _ _ E).
      destruct b; simpl; rewrite ?E, IH; reflexivity.
    + assert (Hi : length xs <= i) by now apply nth_error_None.
      assert (Hnil : forall l : list A, select (skipn (S i) xs) m = l -> l = []).
      { intros l <-. rewrite skipn_all2 by lia. now destruct m. }
      rewrite (skipn_all2 xs Hi).
      destruct b; cbn [flat_map select]; rewrite ?E, IH; cbn [app];
        now apply Hnil.
Qed.

Lemma take_nonzero {A : Type} (xs : list A) (m : list bool) :
  take xs (nonzero m) = select xs m.
Proof. apply (take_nonzero_from xs m 0). Qed.


















Lemma bernoulli_n_sure (p : R) (n : nat) (s : rng) :
  unit_draws s -> (1 <= p)%R -> fst (bernoulli_n p n s) = repeat true n.
Proof.
  revert s. induction n as [| n IH]; intros s Hs Hp; simpl; [reflexivity |].
  assert (Hs' : unit_draws (fun k => s (S k))) by (intros k; apply Hs).
  specialize (IH _ Hs' Hp).
  destruct (bernoulli_n p n (fun k => s (S k))) as [bs s2]. simpl in *.
  rewrite IH. f_equal. unfold Rltb. destruct (Rlt_dec (s 0) p); [reflexivity |].
  pose proof (Hs 0). lra.
Qed.

Lemma bernoulli_n_never (p : R) (n : nat) (s : rng) :
  unit_draws s -> (p <= 0)%R -> fst (bernoulli_n p n s) = repeat false n.
Proof.
  revert s. induction n as [| n IH]; intros s Hs Hp; simpl; [reflexivity |].
  assert (Hs' : unit_draws (fun k => s (S k))) by (intros k; apply Hs).
  specialize (IH _ Hs' Hp).
  destruct (bernoulli_n p n (fun k => s (S k))) as [bs s2]. simpl in *.
  rewrite IH. f_equal. unfold Rltb. destruct (Rlt_dec (s 0) p); [| reflexivity].
  pose proof (Hs 0). lra.
Qed.

Lemma select_all {A : Type} (xs : list A) (n : nat) :
  length xs <= n -> select xs (repeat true n) = xs.
Proof.
  revert n. induction xs as [| x xs IH]; intros [| n] H; simpl in *;
    try reflexivity; try lia.
  f_equal. apply IH. lia.
Qed.

Lemma select_none {A : Type} (xs : list A) (n : nat) :
  select xs (repeat false n) = [].
Proof.
  revert n. induction xs as [| x xs IH]; intros [| n]; simpl; auto.
Qed.

Lemma nonzero_from_all (i n : nat) : nonzero_from i (repeat true n) = seq i n.
Proof.
  revert i. induction n as [| n IH]; intros i; simpl; [reflexivity |].
  now rewrite IH.
Qed.

Lemma nonzero_from_none (i n : nat) : nonzero_from i (repeat false n) = [].
Proof. revert i. induction n as [| n IH]; intros i; simpl; auto. Qed.

Lemma position_seq (u a n : nat) :
  a <= u < a + n -> position u (seq a n) = Some (u - a).
Proof.
  revert a. induction n as [| n IH]; intros a H; [lia |].
  simpl. destruct (Nat.eqb_spec u a) as [-> | Hne].
  - now rewrite Nat.sub_diag.
  - rewrite IH by lia. simpl. f_equal. lia.
Qed.

Lemma induced_seq (n : nat) (e : nat * nat) :
  fst e < n /\ snd e < n -> induced (seq 0 n) e = Some e.
Proof.
  intros [Hu Hv]. unfold induced. rewrite !position_seq by lia.
  rewrite !Nat.sub_0_r. now destruct e.
Qed.

Lemma induced_all (n : nat) (es : list (nat * nat)) :
  Forall (fun e => fst e < n /\ snd e < n) es ->
  flat_map (fun e => match induced (seq 0 n) e with
                     | Some e' => [e'] | None => [] end) es = es
  /\ map (survives (seq 0 n)) es = repeat true (length es).
Proof.
  induction 1 as [| e es He _ (IH1 & IH2)]; [split; reflexivity |].
  cbn [flat_map map length repeat]. unfold survives at 1.
  rewrite (induced_seq n e He), IH1, IH2. split; reflexivity.
Qed.

Lemma scatter_none {A : Type} (xs : list A) (n : nat) (vals : list A) :
  scatter xs (repeat false n) vals = xs.
Proof.
  revert n. induction xs as [| x xs IH]; intros [| n]; simpl; try reflexivity.
  now rewrite IH.
Qed.

Lemma scatter_all_zeros (row : vec) :
  scatter row (repeat true (length row)) (zeros (length row))
  = zeros (length row).
Proof.
  induction row as [| x row IH]; [reflexivity |].
  change (zeros (length (x :: row))) with (0%R :: zeros (length row)).
  cbn [length repeat scatter]. now rewrite IH.
Qed.

(** X4. With draws from [0, 1): a drop probability of 0 makes [drop_edge],
    [drop_node] (on a graph with one feature row per node and edge, edges
    between its nodes) and [drop_feat] return their input unchanged; a
    drop probability of 1 makes [drop_edge] return a graph without edges,
    [drop_node] the empty graph, and [drop_feat] all-zero rows. *)
Theorem extreme_drop_probabilities (s : rng) :
  unit_draws s ->
  (forall graph, consistent graph -> fst (drop_edge graph 0 s) = graph)
  /\ (forall graph, edge_list (fst (drop_edge graph 1 s)) = [])
  /\ (forall graph, consistent graph -> fst (drop_node graph 0 s) = graph)
  /\ (forall graph, num_nodes (fst (drop_node graph 1 s)) = 0
                     /\ edge_list (fst (drop_node graph 1 s)) = [])
  /\ (forall D x, fst (drop_feat D x 0 s) = x)
  /\ (forall D x, Forall (fun row => length row = D) x ->
                   fst (drop_feat D x 1 s) = map (fun _ => zeros D) x).
Proof.
  intros Hs.
  split; [| split; [| split; [| split; [| split]]]].
  - intros graph (HF & HE & Hes). unfold drop_edge.
    pose proof (bernoulli_n_sure (1 - 0) (num_edges graph) s Hs) as Hb.
    destruct (bernoulli_n (1 - 0) (num_edges graph) s) as [masks s'].
    cbn [fst] in *. rewrite Hb by lra. unfold edge_subgraph.
    rewrite take_nonzero, select_all by (unfold num_edges; lia).
    assert (HE' : option_map
                    (fun m => take m (nonzero (repeat true (num_edges graph))))
                    (edata_F_e graph) = edata_F_e graph).
    { destruct (edata_F_e graph) as [E |] eqn:EE; [| reflexivity].
      cbn [option_map]. rewrite take_nonzero, select_all; [reflexivity |].
      rewrite (HE E eq_refl). lia. }
    rewrite HE'. now destruct graph.
  - intros graph. unfold drop_edge.
    pose proof (bernoulli_n_never (1 - 1) (num_edges graph) s Hs) as Hb.
    destruct (bernoulli_n (1 - 1) (num_edges graph) s) as [masks s'].
    cbn [fst] in *. rewrite Hb by lra. cbn [edge_subgraph edge_list].
    unfold edge_subgraph. cbn [edge_list].
    rewrite take_nonzero. apply select_none.
  - intros graph (HF & HE & Hes). unfold drop_node.
    pose proof (bernoulli_n_sure (1 - 0) (num_nodes graph) s Hs) as Hb.
    destruct (bernoulli_n (1 - 0) (num_nodes graph) s) as [masks s'].
    cbn [fst] in *. rewrite Hb by lra. unfold node_subgraph.
    assert (Hidx : nonzero (repeat true (num_nodes graph))
                   = seq 0 (num_nodes graph)) by apply nonzero_from_all.
    destruct (induced_all (num_nodes graph) (edge_list graph) Hes) as (H1 & H2).
    assert (HF' : option_map
                    (fun m => take m (nonzero (repeat true (num_nodes graph))))
                    (ndata_F_n graph) = ndata_F_n graph).
    { destruct (ndata_F_n graph) as [F |] eqn:EF; [| reflexivity].
      cbn [option_map]. rewrite take_nonzero, select_all; [reflexivity |].
      rewrite (HF F eq_refl). lia. }
    rewrite HF'. rewrite Hidx, length_seq, H1, H2.
    assert (HE' : option_map
                    (fun m => select m (repeat true (length (edge_list graph))))
                    (edata_F_e graph) = edata_F_e graph).
    { destruct (edata_F_e graph) as [E |] eqn:EE; [| reflexivity].
      cbn [option_map]. rewrite select_all; [reflexivity |].
      rewrite (HE E eq_refl). unfold num_edges. lia. }
    rewrite HE'. now destruct graph.
  - intros graph. unfold drop_node.
    pose proof (bernoulli_n_never (1 - 1) (num_nodes graph) s Hs) as Hb.
    destruct (bernoulli_n (1 - 1) (num_nodes graph) s) as [masks s'].
    cbn [fst] in *. rewrite Hb by lra. unfold node_subgraph, nonzero.
    rewrite nonzero_from_none. cbn [num_nodes edge_list length].
    split; [reflexivity |].
    induction (edge_list graph) as [| e es IH]; [reflexivity |].
    cbn [flat_map]. rewrite IH. unfold induced. cbn [position].
    reflexivity.
  - intros D x. unfold drop_feat.
    pose proof (bernoulli_n_never 0 D s Hs) as Hb.
    destruct (bernoulli_n 0 D s) as [masks s']. cbn [fst] in *.
    rewrite Hb by lra. unfold zero_at.
    induction x as [| row x IH]; [reflexivity |].
    cbn [map]. now rewrite scatter_none, IH.
  - intros D x Hx. unfold drop_feat.
    pose proof (bernoulli_n_sure 1 D s Hs) as Hb.
    destruct (bernoulli_n 1 D s) as [masks s']. cbn [fst] in *.
    rewrite Hb by lra. unfold zero_at.
    induction Hx as [| row x Hrow _ IH]; [reflexivity |].
    cbn [map]. rewrite IH. f_equal. subst D.
    assert (Hc : count_true (repeat true (length row)) = length row).
    { clear. induction (length row) as [| n IHn]; [reflexivity |].
      cbn [repeat]. rewrite count_true_cons, IHn. reflexivity. }
    rewrite Hc. apply scatter_all_zeros.
Qed.

Lemma extreme_drop_probabilities_witness :
  unit_draws no_draws
  /\ fst (drop_feat 2 [[1; 2]; [3; 4]]%R 1 no_draws) = [zeros 2; zeros 2].
Proof.
  assert (H : unit_draws no_draws) by (intros n; unfold no_draws; lra).
  split; [exact H |].
  apply (proj2 (proj2 (proj2 (proj2 (proj2
           (extreme_drop_probabilities no_draws H)))))).
  repeat constructor.
Defined.

(** ** The builder's other branches *)

Lemma repeat_snoc {A : Type} (x : A) (n : nat) :
  repeat x (S n) = repeat x n ++ [x].
Proof. induction n as [| n IH]; simpl in *; [reflexivity | now rewrite <- IH]. Qed.

(** A branch that appends one graph and leaves [o] and [om] alone yields,
    sample by sample, [beam_size] graphs each. *)
Lemma per_sample_pushes (P : sample -> DGLGraph -> Prop) (samples : list sample)
  (beam_size : nat) (body : builder -> nat -> result builder) (s : rng) :
  (forall st b x,
      nth_error samples b = Some x ->
      o st = map s_o samples -> om st = map s_om samples ->
      exists graph s', body st b = Ok (push st graph s') /\ P x graph) ->
  exists st,
    per_sample (length samples) beam_size body
      {| graphs := []; o := map s_o samples; om := map s_om samples; gen := s |}
    = Ok st
    /\ o st = map s_o samples /\ om st = map s_om samples
    /\ Forall2 P (flat_map (fun x => repeat x beam_size) samples) (graphs st).
Proof.
  intros Hbody. unfold per_sample.
  destruct (@for_range_total _
              (fun k st =>
                 o st = map s_o samples /\ om st = map s_om samples
                 /\ Forall2 P (flat_map (fun x => repeat x beam_size)
                                        (firstn k samples))
                            (graphs st))
              (length samples)
              (fun st b => for_range beam_size (fun st _ => body st b) st)
              {| graphs := []; o := map s_o samples; om := map s_om samples;
                 gen := s |})
    as (st & Erun & Ho & Hom & Hg).
  - cbn. repeat split. constructor.
  - intros k st Hk (Ho & Hom & Hg).
    destruct (nth_error_lt samples k Hk) as (x & Ex).
    destruct (@for_range_total _
                (fun j st' =>
                   o st' = map s_o samples /\ om st' = map s_om samples
                   /\ Forall2 P (flat_map (fun x => repeat x beam_size)
                                          (firstn k samples) ++ repeat x j)
                              (graphs st'))
                beam_size (fun st' _ => body st' k) st)
      as (st' & Erun' & Ho' & Hom' & Hg').
    + rewrite app_nil_r. repeat split; assumption.
    + intros j st' _ (Ho' & Hom' & Hg').
      destruct (Hbody st' k x Ex Ho' Hom') as (graph & s' & E & HP).
      eexists. split; [exact E |]. unfold push. cbn [graphs o om gen].
      split; [exact Ho' |]. split; [exact Hom' |].
      rewrite repeat_snoc, app_assoc. now apply Forall2_snoc.
    + exists st'. split; [exact Erun' |]. split; [exact Ho' |].
      split; [exact Hom' |].
      rewrite (firstn_snoc _ _ _ Ex), flat_map_app. cbn [flat_map].
      now rewrite app_nil_r.
  - exists st. rewrite firstn_all in Hg. repeat split; assumption.
Qed.







(** Two loops whose bodies agree step by step agree as a whole. *)
Lemma for_each_agree {S T A : Type} (Rel : S -> T -> Prop) (xs : list A)
  (f : S -> A -> result S) (g : T -> A -> result T) :
  (forall a s t, In a xs -> Rel s t -> agree Rel (f s a) (g t a)) ->
  forall s t, Rel s t -> agree Rel (for_each xs f s) (for_each xs g t).
Proof.
  induction xs as [| a xs IH]; intros Hstep s t Hst.
  - exact Hst.
  - cbn [for_each].
    pose proof (Hstep a s t (or_introl eq_refl) Hst) as Ha.
    destruct (f s a) as [s1 | e1], (g t a) as [t1 | e2]; cbn in Ha |- *;
      try contradiction.
    + apply IH; [| exact Ha]. intros a' s' t' Hin. apply Hstep. now right.
    + exact Ha.
Qed.

Lemma create_batched_graphs_agree (o0 : list mat) (om0 : list (list bool))
  (r : list mat) (rm : list (list bool)) (pairs : list (list (nat * nat)))
  (beam_size : nat) (edge node attr : R) (s : rng) :
  agree (fun graphs out => out = (graphs, o0, om0, s))
        (create_batched_graphs o0 om0 r rm pairs beam_size)
        (create_batched_graphs_augmented o0 om0 r rm pairs beam_size 0
                                         edge node attr s).
Proof.
  unfold create_batched_graphs, create_batched_graphs_augmented, per_sample,
    for_range.
  cbn [Z.eqb].
  set (Rel := fun (gs : list DGLGraph) (st : builder) =>
                st = {| graphs := gs; o := o0; om := om0; gen := s |}).
  assert (H : agree Rel
                (for_each (seq 0 (length o0))
                   (fun graphs b =>
                      for_each (seq 0 beam_size)
                        (fun graphs _ =>
                           let graph := empty in
                           om_b <- get om0 b ;;
                           let graph := add_nodes graph (count_true om_b) in
                           o_b <- get o0 b ;;
                           F_n <- index_mask o_b om_b ;;
                           graph <- set_ndata graph F_n ;;
                           rm_b <- get rm b ;;
                           let cpu_mask := rm_b in
                           pairs_b <- get pairs b ;;
                           es <- index_mask pairs_b cpu_mask ;;
                           let graph := add_edges graph es in
                           r_b <- get r b ;;
                           F_e <- index_mask r_b rm_b ;;
                           graph <- set_edata graph F_e ;;
                           Ok (graphs ++ [graph])) graphs) [])
                (for_each (seq 0 (length o0))
                   (fun st b =>
                      for_each (seq 0 beam_size)
                        (fun st _ => identical r rm pairs st b) st)
                   {| graphs := []; o := o0; om := om0; gen := s |})).
  { apply for_each_agree; [| reflexivity].
    intros b gs st _ Hst. apply for_each_agree; [| exact Hst].
    clear gs st Hst. intros _ gs st _ ->.
    unfold identical, plain_graph. cbn [o om graphs gen].
    destruct (get om0 b) as [om_b | e]; [| reflexivity]. cbn [bind].
    destruct (get o0 b) as [o_b | e]; [| reflexivity]. cbn [bind].
    destruct (index_mask o_b om_b) as [F_n | e]; [| reflexivity]. cbn [bind].
    destruct (set_ndata _ F_n) as [g1 | e]; [| reflexivity]. cbn [bind].
    destruct (get rm b) as [rm_b | e]; [| reflexivity]. cbn [bind].
    destruct (get pairs b) as [pairs_b | e]; [| reflexivity]. cbn [bind].
    destruct (index_mask pairs_b rm_b) as [es | e]; [| reflexivity]. cbn [bind].
    destruct (get r b) as [r_b | e]; [| reflexivity]. cbn [bind].
    destruct (index_mask r_b rm_b) as [F_e | e]; [| reflexivity]. cbn [bind].
    destruct (set_edata _ F_e) as [g2 | e]; [| reflexivity]. cbn [bind agree].
    reflexivity. }
  destruct (for_each (seq 0 (length o0)) _ []) as [gs | e1],
           (for_each (seq 0 (length o0)) _ _) as [st | e2];
    cbn in H |- *; try contradiction.
  - unfold Rel in H. rewrite H. reflexivity.
  - exact H.
Qed.

(** X6. [create_batched_graphs] is the augmented builder with code 0: on
    every input, for every beam size, either both raise the same exception
    or both succeed with the same list of graphs, and the augmented builder
    then hands back its [o], [om] and random source untouched. *)
Theorem plain_builder_is_code_0 (o0 : list mat) (om0 : list (list bool))
  (r : list mat) (rm : list (list bool)) (pairs : list (list (nat * nat)))
  (beam_size : nat) (edge node attr : R) (s : rng) :
  agree (fun graphs out => out = (graphs, o0, om0, s))
        (create_batched_graphs o0 om0 r rm pairs beam_size)
        (create_batched_graphs_augmented o0 om0 r rm pairs beam_size 0
                                         edge node attr s).
Proof. exact (create_batched_graphs_agree o0 om0 r rm pairs beam_size edge node attr s). Qed.

Lemma length_flat_repeat {A : Type} (xs : list A) (n : nat) :
  length (flat_map (fun x => repeat x n) xs) = length xs * n.
Proof.
  induction xs as [| x xs IH]; [reflexivity |].
  cbn [flat_map length]. rewrite length_app, repeat_length, IH. simpl. lia.
Qed.

(** X7. On well-shaped samples whose masked-in pairs have both indices
    below the number of masked-in objects,
    [create_batched_graphs] returns bsz x beam_size graphs: sample after
    sample, [beam_size] copies of the sample's identity graph (one node per
    masked-in object, one edge per masked-in relation, with their rows). *)
Theorem plain_builder_repeats_per_beam (samples : list sample) (beam_size : nat) :
  Forall well_shaped samples ->
  Forall pairs_in_range samples ->
  exists graphs,
    create_batched_graphs
      (map s_o samples) (map s_om samples) (map s_r samples)
      (map s_rm samples) (map s_pairs samples) beam_size
    = Ok graphs
    /\ length graphs = length samples * beam_size
    /\ Forall2 is_identity_graph
               (flat_map (fun x => repeat x beam_size) samples) graphs.
Proof.
  intros Hshape Hrange.
  pose proof (create_batched_graphs_agree
                (map s_o samples) (map s_om samples) (map s_r samples)
                (map s_rm samples) (map s_pairs samples) beam_size 0 0 0
                no_draws) as Hagree.
  unfold create_batched_graphs_augmented in Hagree.
  rewrite length_map in Hagree. cbn [Z.eqb] in Hagree.
  destruct (per_sample_pushes is_identity_graph samples beam_size
              (identical (map s_r samples) (map s_rm samples)
                         (map s_pairs samples)) no_draws)
    as (st & E & Ho & Hom & Hg).
  - intros st b x Ex Ho Hom.
    assert (Hx : In x samples) by (eapply nth_error_In; eassumption).
    assert (Hxs : well_shaped x) by now apply (proj1 (Forall_forall _ _) Hshape).
    assert (Hxr : pairs_in_range x) by now apply (proj1 (Forall_forall _ _) Hrange).
    unfold identical.
    rewrite (plain_graph_ok _ _ _ st b x); try assumption;
      try (now apply get_map);
      try (rewrite Hom; now apply get_map);
      try (rewrite Ho; now apply get_map).
    cbn [bind]. eexists. exists (gen st). split; [reflexivity |].
    now apply identity_graph_spec.
  - rewrite E in Hagree. cbn [bind] in Hagree.
    destruct (create_batched_graphs _ _ _ _ _ beam_size) as [gs | e];
      cbn [agree] in Hagree; [| contradiction].
    injection Hagree as Hgs _ _ _. exists gs. split; [reflexivity |].
    rewrite <- Hgs.
    split; [| exact Hg].
    rewrite <- (Forall2_length Hg). apply length_flat_repeat.
Qed.

Lemma plain_builder_repeats_per_beam_witness :
  Forall well_shaped example_samples
  /\ Forall pairs_in_range example_samples
  /\ exists graphs,
      create_batched_graphs
        (map s_o example_samples) (map s_om example_samples)
        (map s_r example_samples) (map s_rm example_samples)
        (map s_pairs example_samples) 3
      = Ok graphs
      /\ length graphs = length example_samples * 3
      /\ Forall2 is_identity_graph
                 (flat_map (fun x => repeat x 3) example_samples) graphs.
Proof.
  assert (H1 : Forall well_shaped example_samples).
  { repeat constructor. }
  assert (H2 : Forall pairs_in_range example_samples).
  { repeat constructor. }
  split; [exact H1 |]. split; [exact H2 |].
  exact (plain_builder_repeats_per_beam example_samples 3 H1 H2).
Defined.

(** ** Attribute masking *)








(** ** Pairs that name missing nodes *)

Lemma plain_graph_padded (r : list mat) (rm : list (list bool))
  (pairs : list (list (nat * nat))) (st : builder) (b : nat) (x : sample) :
  well_shaped x ->
  get (om st) b = Ok (s_om x) -> get (o st) b = Ok (s_o x) ->
  get r b = Ok (s_r x) -> get rm b = Ok (s_rm x) ->
  get pairs b = Ok (s_pairs x) ->
  exists graph,
    plain_graph r rm pairs st b = Ok graph /\ is_padded_graph x graph.
Proof.
  intros (Ho & Hr & Hp) Eom Eo Er Erm Ep.
  unfold plain_graph. rewrite Eom. cbn [bind]. rewrite Eo. cbn [bind].
  rewrite (index_mask_ok _ _ Ho). cbn [bind].
  unfold set_ndata. cbn [num_nodes add_nodes empty Nat.add].
  rewrite (select_length _ _ Ho), Nat.eqb_refl. cbn [bind].
  rewrite Erm. cbn [bind]. rewrite Ep. cbn [bind].
  rewrite (index_mask_ok _ _ Hp). cbn [bind].
  rewrite Er. cbn [bind]. rewrite (index_mask_ok _ _ Hr). cbn [bind].
  unfold set_edata, num_edges, add_edges, add_nodes, grow.
  cbn [num_nodes ndata_F_n edge_list edata_F_e option_map app empty].
  rewrite (select_length _ _ Hr), (select_length _ _ Hp), Nat.eqb_refl.
  eexists. split; [reflexivity |].
  unfold is_padded_graph. cbn [num_nodes ndata_F_n edge_list edata_F_e].
  repeat split. lia.
Qed.

Lemma plain_builder_total (samples : list sample) (beam_size : nat) :
  Forall well_shaped samples ->
  exists graphs,
    create_batched_graphs
      (map s_o samples) (map s_om samples) (map s_r samples)
      (map s_rm samples) (map s_pairs samples) beam_size
    = Ok graphs
    /\ Forall2 is_padded_graph
               (flat_map (fun x => repeat x beam_size) samples) graphs.
Proof.
  intros Hshape.
  pose proof (create_batched_graphs_agree
                (map s_o samples) (map s_om samples) (map s_r samples)
                (map s_rm samples) (map s_pairs samples) beam_size 0 0 0
                no_draws) as Hagree.
  unfold create_batched_graphs_augmented in Hagree.
  rewrite length_map in Hagree. cbn [Z.eqb] in Hagree.
  destruct (per_sample_pushes is_padded_graph samples beam_size
              (identical (map s_r samples) (map s_rm samples)
                         (map s_pairs samples)) no_draws)
    as (st & E & Ho & Hom & Hg).
  - intros st b x Ex Ho Hom.
    assert (Hx : In x samples) by (eapply nth_error_In; eassumption).
    assert (Hxs : well_shaped x) by now apply (proj1 (Forall_forall _ _) Hshape).
    unfold identical.
    destruct (plain_graph_padded (map s_r samples) (map s_rm samples)
                (map s_pairs samples) st b x Hxs) as (graph & Eg & Hgraph);
      try (now apply get_map);
      try (rewrite Hom; now apply get_map);
      try (rewrite Ho; now apply get_map).
    rewrite Eg. cbn [bind]. exists graph, (gen st). split; [reflexivity | exact Hgraph].
  - rewrite E in Hagree. cbn [bind] in Hagree.
    destruct (create_batched_graphs _ _ _ _ _ beam_size) as [gs | e];
      cbn [agree] in Hagree; [| contradiction].
    injection Hagree as Hgs _ _ _. exists gs. split; [reflexivity |].
    now rewrite <- Hgs.
Qed.

(** X9. On well-shaped samples that each have a masked-in object,
    [create_batched_graphs] cannot fail, whatever node numbers (none
    negative) the pairs hold: where a masked-in pair names a node beyond the masked-in objects,
    [add_edges] adds the missing nodes, and the graph has as many nodes as
    the larger of the object count and one more than the largest endpoint,
    the added nodes carrying zero feature rows behind the masked-in object
    rows; edges and edge features are the masked-in pairs and relation
    rows. *)
Theorem stray_pairs_add_zero_nodes (samples : list sample) (beam_size : nat) :
  Forall well_shaped samples ->
  Forall (fun x => 0 < count_true (s_om x)) samples ->
  exists graphs,
    create_batched_graphs
      (map s_o samples) (map s_om samples) (map s_r samples)
      (map s_rm samples) (map s_pairs samples) beam_size
    = Ok graphs
    /\ Forall2 is_padded_graph
               (flat_map (fun x => repeat x beam_size) samples) graphs.
Proof. intros Hshape _. exact (plain_builder_total samples beam_size Hshape). Qed.

Lemma stray_pairs_add_zero_nodes_witness :
  Forall well_shaped
         [{| s_o := [[1; 2]; [3; 4]]%R; s_om := [true; false];
             s_r := [[5]]%R; s_rm := [true]; s_pairs := [(0, 2)] |}]
  /\ Forall (fun x => 0 < count_true (s_om x))
            [{| s_o := [[1; 2]; [3; 4]]%R; s_om := [true; false];
                s_r := [[5]]%R; s_rm := [true]; s_pairs := [(0, 2)] |}]
  /\ exists graphs,
      create_batched_graphs [[[1; 2]; [3; 4]]%R] [[true; false]] [[[5]]%R] [[true]]
                            [[(0, 2)]] 1
      = Ok graphs
      /\ Forall2 is_padded_graph
                 [{| s_o := [[1; 2]; [3; 4]]%R; s_om := [true; false];
                     s_r := [[5]]%R; s_rm := [true]; s_pairs := [(0, 2)] |}]
                 graphs.
Proof.
  assert (H : Forall well_shaped
                [{| s_o := [[1; 2]; [3; 4]]%R; s_om := [true; false];
                    s_r := [[5]]%R; s_rm := [true]; s_pairs := [(0, 2)] |}]).
  { repeat constructor. }
  assert (H' : Forall (fun x => 0 < count_true (s_om x))
                 [{| s_o := [[1; 2]; [3; 4]]%R; s_om := [true; false];
                     s_r := [[5]]%R; s_rm := [true]; s_pairs := [(0, 2)] |}]).
  { repeat constructor. }
  split; [exact H |]. split; [exact H' |].
  exact (stray_pairs_add_zero_nodes _ 1 H H').
Defined.

(** ** The attention weights *)

Lemma rsum_scale (e : list R) (c : R) :
  rsum (map (fun x => (x / c)%R) e) = (rsum e / c)%R.
Proof.
  induction e as [| x e IH]; simpl.
  - unfold Rdiv. now rewrite Rmult_0_l.
  - rewrite IH. unfold Rdiv. now rewrite Rmult_plus_distr_r.
Qed.

Lemma exp_score_nonneg (sc : score) : (0 <= exp_score sc)%R.
Proof. destruct sc as [| x]; simpl; [lra | pose proof (exp_pos x); lra]. Qed.

Lemma rsum_pos (e : list R) (x : R) :
  Forall (fun v => (0 <= v)%R) e -> In x e -> (0 < x)%R -> (0 < rsum e)%R.
Proof.
  intros Hall Hin Hx.
  pose proof (rsum_nonneg e Hall) as Hs.
  destruct (Req_dec_T (rsum e) 0) as [Hz | Hnz]; [| lra].
  pose proof (rsum_zero_nonneg e Hall Hz) as Hzero.
  pose proof (proj1 (Forall_forall _ _) Hzero x Hin) as H0. cbv beta in H0. lra.
Qed.

Lemma nth_error_map2 {A B C : Type} (f : A -> B -> C) (xs : list A) (ys : list B)
  (i : nat) :
  nth_error (map2 f xs ys) i
  = match nth_error xs i, nth_error ys i with
    | Some x, Some y => Some (f x y)
    | _, _ => None
    end.
Proof.
  revert ys i. induction xs as [| x xs IH]; intros [| y ys] [| i]; simpl;
    try reflexivity.
  - now destruct (nth_error xs i).
  - apply IH.
Qed.

(** The weights of a masked softmax with at least one valid position. *)
Lemma masked_softmax_spec (att : list R) (mask : list bool) :
  length mask = length att -> In true mask ->
  masked_fill att mask = Ok (map2 fill att mask)
  /\ length (softmax (map2 fill att mask)) = length att
  /\ rsum (softmax (map2 fill att mask)) = 1%R
  /\ forall i a, nth_error (softmax (map2 fill att mask)) i = Some a ->
                 (nth i mask false = true -> (0 < a <= 1)%R)
                 /\ (nth i mask false = false -> a = 0%R).
Proof.
  intros Hlen Hvalid.
  set (e := map exp_score (map2 fill att mask)).
  assert (Hnn : Forall (fun v => (0 <= v)%R) e).
  { unfold e. apply Forall_forall. intros v Hv. apply in_map_iff in Hv.
    destruct Hv as (sc & <- & _). apply exp_score_nonneg. }
  assert (Hpos : (0 < rsum e)%R).
  { apply In_nth_error in Hvalid. destruct Hvalid as (i & Hi).
    assert (Hlt : i < length att).
    { rewrite <- Hlen. apply nth_error_Some. now rewrite Hi. }
    destruct (nth_error_lt att i Hlt) as (x & Ex).
    apply (rsum_pos e (exp x) Hnn); [| apply exp_pos].
    unfold e. apply in_map_iff. exists (Finite x). split; [reflexivity |].
    apply (nth_error_In _ i). rewrite nth_error_map2, Ex, Hi. reflexivity. }
  split; [unfold masked_fill; now rewrite Hlen, Nat.eqb_refl |].
  unfold softmax. fold e.
  split; [unfold e; rewrite !length_map, map2_length, Hlen; apply Nat.min_id |].
  split; [rewrite rsum_scale; apply Rdiv_diag; lra |].
  intros i a Ha. rewrite nth_error_map in Ha.
  destruct (nth_error e i) as [v |] eqn:Ev; [| discriminate Ha].
  injection Ha as <-.
  assert (Hle : (v <= rsum e)%R).
  { clear - Hnn Ev. revert i Ev.
    induction Hnn as [| y e Hy Hall IH]; intros [| i] Ev; try discriminate Ev.
    - injection Ev as ->. simpl. pose proof (rsum_nonneg e Hall). lra.
    - simpl in Ev |- *. specialize (IH i Ev). lra. }
  unfold e in Ev. rewrite nth_error_map, nth_error_map2 in Ev.
  destruct (nth_error att i) as [x |] eqn:Ex; [| discriminate Ev].
  destruct (nth_error mask i) as [b |] eqn:Eb; [| discriminate Ev].
  injection Ev as <-. rewrite (nth_error_nth _ _ _ Eb) in *.
  split; intros ->; cbn [fill exp_score] in *.
  - pose proof (exp_pos x). split.
    + now apply Rdiv_pos_pos.
    + apply (Rmult_le_reg_r (rsum e)); [exact Hpos |].
      unfold Rdiv. rewrite Rmult_assoc, Rinv_l by lra. lra.
  - unfold Rdiv. apply Rmult_0_l.
Qed.

(** Scores that agree at the valid positions are the same after the fill. *)
Lemma map2_fill_agree (att att' : list R) (mask : list bool) :
  length att' = length att ->
  (forall i, nth i mask false = true -> nth_error att' i = nth_error att i) ->
  map2 fill att' mask = map2 fill att mask.
Proof.
  revert att' mask.
  induction att as [| x att IH]; intros [| x' att'] [| b mask] Hl H;
    try reflexivity; try discriminate Hl.
  cbn [map2]. f_equal.
  - destruct b; [| reflexivity].
    specialize (H 0 eq_refl). cbn in H. now injection H as ->.
  - apply IH; [simpl in Hl; lia |]. intros i Hi. exact (H (S i) Hi).
Qed.

(** Rows that differ only where the weight is 0 give the same products. *)
Lemma scaled_rows_agree (d : nat) (keys keys' : mat) (alpha : list R)
  (valid : nat -> bool) :
  length keys' = length keys ->
  Forall (fun k => length k = d) keys -> Forall (fun k => length k = d) keys' ->
  (forall i, valid i = true -> nth_error keys' i = nth_error keys i) ->
  (forall i w, nth_error alpha i = Some w -> valid i = false -> w = 0%R) ->
  map2 (fun f a => vscale a f) keys' alpha
  = map2 (fun f a => vscale a f) keys alpha.
Proof.
  revert keys' alpha valid.
  induction keys as [| k keys IH]; intros [| k' keys'] [| w alpha] valid
    Hl Hd Hd' Hk Hw; try reflexivity; try discriminate Hl.
  pose proof (Forall_inv Hd) as Hk1. pose proof (Forall_inv Hd') as Hk1'.
  cbv beta in Hk1, Hk1'.
  cbn [map2]. f_equal.
  - destruct (valid 0) eqn:E.
    + specialize (Hk 0 E). cbn in Hk. now injection Hk as ->.
    + rewrite (Hw 0 w eq_refl E). unfold vscale.
      assert (Hz : forall l : vec,
                 map (fun x => (x * 0)%R) l = repeat 0%R (length l)).
      { induction l as [| x l IHl]; [reflexivity |].
        simpl. now rewrite Rmult_0_r, IHl. }
      now rewrite !Hz, Hk1, Hk1'.
  - apply (IH keys' alpha (fun i => valid (S i))).
    + simpl in Hl. lia.
    + exact (Forall_inv_tail Hd).
    + exact (Forall_inv_tail Hd').
    + intros i Hi. exact (Hk (S i) Hi).
    + intros i w' Hi Hv. exact (Hw (S i) w' Hi Hv).
Qed.

Lemma masked_attention_spec (a : Attention) (d : nat) (keys keys' : mat)
  (h : vec) (mask : list bool) :
  length mask = length keys -> length keys' = length keys -> In true mask ->
  Forall (fun k => length k = d) keys -> Forall (fun k => length k = d) keys' ->
  (forall i, nth i mask false = true -> nth_error keys' i = nth_error keys i) ->
  (exists alpha : list R,
      attend a keys h (Some mask) = Ok (weighted_sum d keys alpha)
      /\ length alpha = length keys
      /\ forall i w, nth_error alpha i = Some w ->
                     (0 <= w <= 1)%R /\ (nth i mask false = false -> w = 0%R))
  /\ attend a keys' h (Some mask) = attend a keys h (Some mask).
Proof.
  intros Hlen Hlen' Hvalid Hd Hd' Hagree.
  assert (Hwd : width keys = d /\ width keys' = d).
  { destruct keys as [| k keys].
    - destruct mask; [elim Hvalid | discriminate Hlen].
    - destruct keys' as [| k' keys']; [discriminate Hlen' |].
      split; [exact (Forall_inv Hd) | exact (Forall_inv Hd')]. }
  destruct Hwd as (Hwd & Hwd').
  unfold attend. rewrite Hwd, Hwd'.
  set (g := fun k => full_att a (att_dropout a (relu (vadd k (decoder_att a h))))).
  set (att := map g (map (features_att a) keys)).
  set (att' := map g (map (features_att a) keys')).
  assert (Hl : length mask = length att).
  { unfold att. now rewrite !length_map. }
  assert (Hl' : length att' = length att).
  { unfold att, att'. now rewrite !length_map. }
  assert (Hsame : map2 fill att' mask = map2 fill att mask).
  { apply map2_fill_agree; [exact Hl' |]. intros i Hi.
    unfold att, att'. rewrite !nth_error_map. now rewrite (Hagree i Hi). }
  destruct (masked_softmax_spec att mask Hl Hvalid) as (Hfill & Hla & _ & Hw).
  assert (Hfill' : masked_fill att' mask = Ok (map2 fill att mask)).
  { unfold masked_fill. rewrite Hl', <- Hl, Nat.eqb_refl. now rewrite Hsame. }
  rewrite Hfill, Hfill'. cbn [bind].
  assert (Hzero : forall i w, nth_error (softmax (map2 fill att mask)) i = Some w ->
                              nth i mask false = false -> w = 0%R).
  { intros i w Hi. exact (proj2 (Hw i w Hi)). }
  split.
  - eexists. split; [reflexivity |].
    split; [rewrite Hla; unfold att; now rewrite !length_map |].
    intros i w Hi. split; [| exact (Hzero i w Hi)].
    destruct (Hw i w Hi) as (Hin & Hout).
    destruct (nth i mask false); [specialize (Hin eq_refl) | specialize (Hout eq_refl)];
      lra.
  - unfold weighted_sum. f_equal. f_equal.
    apply (scaled_rows_agree d keys keys' _ (fun i => nth i mask false));
      assumption.
Qed.

(** X10. With a mask that has one flag per key and at least one valid key,
    [Attention.forward] returns, for a sample, the sum of its keys weighted
    by one weight per key, each between 0 and 1 and equal to 0 at every
    masked-out position; and the output is the same for any other keys of
    the same width that agree with these at the valid positions: what sits
    in a masked-out slot does not reach the output. *)
Theorem masked_keys_do_not_reach_the_output (a : Attention) (d : nat)
  (keys keys' : mat) (h : vec) (mask : list bool) :
  length mask = length keys -> length keys' = length keys -> In true mask ->
  Forall (fun k => length k = d) keys -> Forall (fun k => length k = d) keys' ->
  (forall i, nth i mask false = true -> nth_error keys' i = nth_error keys i) ->
  (exists alpha : list R,
      attend a keys h (Some mask) = Ok (weighted_sum d keys alpha)
      /\ length alpha = length keys
      /\ forall i w, nth_error alpha i = Some w ->
                     (0 <= w <= 1)%R /\ (nth i mask false = false -> w = 0%R))
  /\ attend a keys' h (Some mask) = attend a keys h (Some mask).
Proof. exact (masked_attention_spec a d keys keys' h mask). Qed.

Lemma masked_keys_do_not_reach_the_output_witness :
  (exists alpha : list R,
      attend plain_attention [[1; 2]; [3; 4]; [5; 6]]%R [0%R]
             (Some [true; false; true])
      = Ok (weighted_sum 2 [[1; 2]; [3; 4]; [5; 6]]%R alpha)
      /\ length alpha = length [[1; 2]; [3; 4]; [5; 6]]%R
      /\ forall i w, nth_error alpha i = Some w ->
                     (0 <= w <= 1)%R
                     /\ (nth i [true; false; true] false = false -> w = 0%R))
  /\ attend plain_attention [[1; 2]; [7; 8]; [5; 6]]%R [0%R]
            (Some [true; false; true])
     = attend plain_attention [[1; 2]; [3; 4]; [5; 6]]%R [0%R]
              (Some [true; false; true]).
Proof.
  apply (masked_keys_do_not_reach_the_output plain_attention 2
           [[1; 2]; [3; 4]; [5; 6]]%R [[1; 2]; [7; 8]; [5; 6]]%R [0%R]
           [true; false; true]).
  - reflexivity.
  - reflexivity.
  - left. reflexivity.
  - repeat constructor.
  - repeat constructor.
  - intros [| [| [| i]]] H; try reflexivity; discriminate H.
Defined.

(** ** Writing the ContextGAT output back into the object slots *)

Lemma restore_length (co f : mat) (cmk m : list bool) :
  length (restore co f cmk m) = length co.
Proof.
  revert f cmk m. induction co as [| c co IH]; intros [| x f] [| b cmk] [| b' m];
    simpl; try reflexivity.
  now rewrite IH.
Qed.

Lemma restore_nth (co f : mat) (cmk m : list bool) (j : nat) (y x : vec)
  (b b' : bool) :
  nth_error co j = Some y -> nth_error f j = Some x ->
  nth_error cmk j = Some b -> nth_error m j = Some b' ->
  nth_error (restore co f cmk m) j = Some (if negb b && b' then x else y).
Proof.
  revert f cmk m j.
  induction co as [| c co IH]; intros [| x0 f] [| b0 cmk] [| b0' m] [| j] Hy Hx Hb Hb';
    try discriminate Hy; try discriminate Hx; try discriminate Hb;
    try discriminate Hb'; simpl in *.
  - injection Hy as ->. injection Hx as ->. injection Hb as ->.
    injection Hb' as ->. reflexivity.
  - now apply IH.
Qed.

Lemma reconcile_sample (f : mat) (m : list bool) (c : mat) (cm : list bool) :
  length c <= length f -> length cm <= length m -> length m = length f ->
  fill_obj f c
  = Ok (c ++ map (fun row => zeros (length row)) (skipn (length c) f))
  /\ fill_mask m cm = Ok (cm ++ repeat false (length m - length cm))
  /\ length (restore (c ++ map (fun row => zeros (length row))
                                (skipn (length c) f)) f
                      (cm ++ repeat false (length m - length cm)) m)
     = length f
  /\ forall j x,
       nth_error f j = Some x ->
       nth_error (restore (c ++ map (fun row => zeros (length row))
                                    (skipn (length c) f)) f
                          (cm ++ repeat false (length m - length cm)) m) j
       = Some (reconciled_slot m c cm j x).
Proof.
  intros Hc Hcm Hm.
  split; [unfold fill_obj; now rewrite (proj2 (Nat.leb_le _ _) Hc) |].
  split; [unfold fill_mask; now rewrite (proj2 (Nat.leb_le _ _) Hcm) |].
  split.
  - rewrite restore_length, length_app, length_map, length_skipn. lia.
  - intros j x Hx.
    assert (Hj : j < length f) by (apply nth_error_Some; now rewrite Hx).
    assert (Hjm : j < length m) by lia.
    destruct (nth_error_lt m j Hjm) as (b' & Eb').
    set (co := c ++ map (fun row => zeros (length row)) (skipn (length c) f)).
    set (cmk := cm ++ repeat false (length m - length cm)).
    assert (Eco : nth_error co j
                  = Some (match nth_error c j with
                          | Some y => y
                          | None => zeros (length x)
                          end)).
    { unfold co. destruct (Nat.lt_ge_cases j (length c)) as [Hlt | Hge].
      - rewrite nth_error_app1 by exact Hlt.
        destruct (nth_error_lt c j Hlt) as (y & ->). reflexivity.
      - rewrite nth_error_app2 by exact Hge.
        rewrite (proj2 (nth_error_None c j) Hge).
        rewrite nth_error_map, nth_error_skipn.
        replace (length c + (j - length c)) with j by lia.
        now rewrite Hx. }
    assert (Ecmk : nth_error cmk j = Some (nth j cm false)).
    { unfold cmk. destruct (Nat.lt_ge_cases j (length cm)) as [Hlt | Hge].
      - rewrite nth_error_app1 by exact Hlt.
        destruct (nth_error_lt cm j Hlt) as (b & Eb).
        now rewrite Eb, (nth_error_nth _ _ _ Eb).
      - rewrite nth_error_app2 by exact Hge.
        rewrite (nth_overflow cm false Hge).
        apply nth_error_repeat. lia. }
    rewrite (restore_nth co f cmk m j _ x _ b' Eco Hx Ecmk Eb').
    unfold reconciled_slot. now rewrite (nth_error_nth _ _ _ Eb').
Qed.

Lemma reconcile_spec (of_ : list mat) (om : list (list bool)) (cgat_out : list mat)
  (cgat_mask_out : list (list bool)) :
  fits of_ om cgat_out cgat_mask_out ->
  Forall2 (fun f m => length m = length f) of_ om ->
  exists cgat_obj,
    reconcile of_ om cgat_out cgat_mask_out = Ok cgat_obj
    /\ length cgat_obj = length of_
    /\ forall i f m c cm,
         nth_error of_ i = Some f -> nth_error om i = Some m ->
         nth_error cgat_out i = Some c -> nth_error cgat_mask_out i = Some cm ->
         exists slots,
           nth_error cgat_obj i = Some slots
           /\ length slots = length f
           /\ forall j x, nth_error f j = Some x ->
                          nth_error slots j = Some (reconciled_slot m c cm j x).
Proof.
  intros Hfits Hslots. revert cgat_out cgat_mask_out Hfits.
  induction Hslots as [| f m fs ms Hm _ IH];
    intros cs cms (H1 & H2 & H3 & Hc & Hcm).
  - destruct cs; [| discriminate H2]. destruct cms; [| discriminate H3].
    exists []. split; [reflexivity |]. split; [reflexivity |].
    intros [| i] f m c cm Hf; discriminate Hf.
  - destruct cs as [| c cs]; [discriminate H2 |].
    destruct cms as [| cm cms]; [discriminate H3 |].
    destruct (reconcile_sample f m c cm (Hc 0 f c eq_refl eq_refl)
                (Hcm 0 m cm eq_refl eq_refl) Hm) as (Eo & Em & Hl & Hs).
    destruct (IH cs cms) as (rest & Er & Hlr & Hrest).
    { simpl in H1, H2, H3. split; [lia |]. split; [lia |]. split; [lia |].
      split.
      - intros i f' c'. apply (Hc (S i)).
      - intros i m' cm'. apply (Hcm (S i)). }
    cbn [reconcile]. rewrite Eo. cbn [bind]. rewrite Em. cbn [bind].
    rewrite Er. cbn [bind]. eexists. split; [reflexivity |].
    split; [simpl; now rewrite Hlr |].
    intros [| i] f' m' c' cm' Hf' Hm' Hc' Hcm'; simpl in *.
    + injection Hf' as <-. injection Hm' as <-. injection Hc' as <-.
      injection Hcm' as <-. eexists. split; [reflexivity |].
      split; [exact Hl | exact Hs].
    + now apply (Hrest i).
Qed.

(** X11. When the ContextGAT output fits the object tensor, the step
    [cgat_obj[~cgat_mask & om] = of[~cgat_mask & om]] succeeds and keeps the
    slot layout: every sample has as many slots as before; a masked-in slot
    that the ContextGAT mask does not mark holds its original object row;
    every other slot holds the ContextGAT row for it, or a zero row when the
    ContextGAT output has no row for that slot. *)
Theorem unmarked_objects_keep_their_features (of_ : list mat)
  (om : list (list bool)) (cgat_out : list mat) (cgat_mask_out : list (list bool)) :
  fits of_ om cgat_out cgat_mask_out ->
  Forall2 (fun f m => length m = length f) of_ om ->
  exists cgat_obj,
    reconcile of_ om cgat_out cgat_mask_out = Ok cgat_obj
    /\ length cgat_obj = length of_
    /\ forall i f m c cm,
         nth_error of_ i = Some f -> nth_error om i = Some m ->
         nth_error cgat_out i = Some c -> nth_error cgat_mask_out i = Some cm ->
         exists slots,
           nth_error cgat_obj i = Some slots
           /\ length slots = length f
           /\ forall j x, nth_error f j = Some x ->
                          nth_error slots j = Some (reconciled_slot m c cm j x).
Proof. exact (reconcile_spec of_ om cgat_out cgat_mask_out). Qed.

Lemma unmarked_objects_keep_their_features_witness :
  fits [[[1; 2]; [3; 4]; [0; 0]]%R] [[true; true; false]]
       [[[9; 9]; [0; 0]]%R] [[true; false]]
  /\ Forall2 (fun (f : mat) (m : list bool) => length m = length f)
             [[[1; 2]; [3; 4]; [0; 0]]%R] [[true; true; false]]
  /\ exists cgat_obj,
      reconcile [[[1; 2]; [3; 4]; [0; 0]]%R] [[true; true; false]]
                [[[9; 9]; [0; 0]]%R] [[true; false]]
      = Ok cgat_obj
      /\ length cgat_obj = 1
      /\ forall i f m c cm,
           nth_error [[[1; 2]; [3; 4]; [0; 0]]%R] i = Some f ->
           nth_error [[true; true; false]] i = Some m ->
           nth_error [[[9; 9]; [0; 0]]%R] i = Some c ->
           nth_error [[true; false]] i = Some cm ->
           exists slots,
             nth_error cgat_obj i = Some slots
             /\ length slots = length f
             /\ forall j x, nth_error f j = Some x ->
                            nth_error slots j
                            = Some (reconciled_slot m c cm j x).
Proof.
  assert (H1 : fits [[[1; 2]; [3; 4]; [0; 0]]%R] [[true; true; false]]
                    [[[9; 9]; [0; 0]]%R] [[true; false]]).
  { unfold fits. repeat split.
    - intros [| i] f c Hf Hc; simpl in *; [| destruct i; discriminate Hf].
      injection Hf as <-. injection Hc as <-. simpl. lia.
    - intros [| i] m cm Hm Hcm; simpl in *; [| destruct i; discriminate Hm].
      injection Hm as <-. injection Hcm as <-. simpl. lia. }
  assert (H2 : Forall2 (fun (f : mat) (m : list bool) => length m = length f)
                       [[[1; 2]; [3; 4]; [0; 0]]%R] [[true; true; false]]).
  { repeat constructor. }
  split; [exact H1 |]. split; [exact H2 |].
  exact (unmarked_objects_keep_their_features _ _ _ _ H1 H2).
Defined.

Lemma reconcile_Ok_fits (of_ : list mat) (om : list (list bool))
  (cgat_out : list mat) (cgat_mask_out : list (list bool)) (cgat_obj : list mat) :
  reconcile of_ om cgat_out cgat_mask_out = Ok cgat_obj ->
  fits of_ om cgat_out cgat_mask_out.
Proof.
  revert om cgat_out cgat_mask_out cgat_obj.
  induction of_ as [| f fs IH]; intros [| m ms] [| c cs] [| cm cms] res H;
    try discriminate H.
  - unfold fits. repeat split; intros [| i] ? ? Hx; discriminate Hx.
  - cbn [reconcile] in H. bind_inv H. bind_inv H. bind_inv H.
    destruct (IH _ _ _ _ E1) as (H1 & H2 & H3 & Hc & Hcm).
    unfold fill_obj in E. unfold fill_mask in E0.
    destruct (Nat.leb_spec (length c) (length f)) as [Lc |]; [| discriminate E].
    destruct (Nat.leb_spec (length cm) (length m)) as [Lm |]; [| discriminate E0].
    unfold fits. simpl. split; [lia |]. split; [lia |]. split; [lia |]. split.
    + intros [| i] f' c' Hf' Hc'; simpl in *.
      * injection Hf' as <-. injection Hc' as <-. exact Lc.
      * now apply (Hc i).
    + intros [| i] m' cm' Hm' Hcm'; simpl in *.
      * injection Hm' as <-. injection Hcm' as <-. exact Lm.
      * now apply (Hcm i).
Qed.

Lemma reconcile_raises (of_ : list mat) (om : list (list bool))
  (cgat_out : list mat) (cgat_mask_out : list (list bool)) (e : exn) :
  reconcile of_ om cgat_out cgat_mask_out = Raise e -> e = RuntimeError.
Proof.
  revert om cgat_out cgat_mask_out.
  induction of_ as [| f fs IH]; intros [| m ms] [| c cs] [| cm cms] H;
    try (injection H as <-; reflexivity); try discriminate H.
  cbn [reconcile] in H. unfold fill_obj, fill_mask in H.
  destruct (length c <=? length f); [| now injection H as <-].
  cbn [bind] in H.
  destruct (length cm <=? length m); [| now injection H as <-].
  cbn [bind] in H.
  destruct (reconcile fs ms cs cms) as [rest | e'] eqn:E.
  - discriminate H.
  - cbn [bind] in H. injection H as <-. now apply (IH _ _ _ E).
Qed.

(** X12. When a sample has object slots but more ContextGAT rows than
    object slots, as after its graph has gained nodes, the write-back of the
    ContextGAT output raises RuntimeError: the rows do not fit the slice of
    [cgat_obj] they are assigned to. *)
Theorem oversized_gat_output_raises (of_ : list mat) (om : list (list bool))
  (cgat_out : list mat) (cgat_mask_out : list (list bool)) :
  (exists i f c, nth_error of_ i = Some f /\ nth_error cgat_out i = Some c
                 /\ 0 < length f < length c) ->
  reconcile of_ om cgat_out cgat_mask_out = Raise RuntimeError.
Proof.
  intros (i & f & c & Hf & Hc & Hlt).
  destruct (reconcile of_ om cgat_out cgat_mask_out) as [res | e] eqn:E.
  - exfalso.
    destruct (reconcile_Ok_fits _ _ _ _ _ E) as (_ & _ & _ & Hfit & _).
    specialize (Hfit i f c Hf Hc). lia.
  - f_equal. now apply (reconcile_raises _ _ _ _ _ E).
Qed.

Lemma oversized_gat_output_raises_witness :
  (exists i f c, nth_error [[[1; 2]]%R] i = Some f
                 /\ nth_error [[[9; 9]; [8; 8]]%R] i = Some c
                 /\ 0 < length f < length c)
  /\ reconcile [[[1; 2]]%R] [[true]] [[[9; 9]; [8; 8]]%R] [[true; true]]
     = Raise RuntimeError.
Proof.
  assert (H : exists i f c, nth_error [[[1; 2]]%R] i = Some f
                            /\ nth_error [[[9; 9]; [8; 8]]%R] i = Some c
                            /\ 0 < length f < length c).
  { exists 0, [[1; 2]]%R, [[9; 9]; [8; 8]]%R.
    split; [reflexivity |]. split; [reflexivity |]. simpl. lia. }
  split; [exact H |].
  exact (oversized_gat_output_raises _ [[true]] _ [[true; true]] H).
Defined.

(** ** The shape of the ContextGAT output *)

Lemma list_max_ge (l : list nat) (n : nat) : In n l -> n <= list_max l.
Proof.
  intros H. pose proof (proj1 (list_max_le l (list_max l)) (Nat.le_refl _)) as Hall.
  now apply (proj1 (Forall_forall _ _) Hall).
Qed.

Lemma update_round_rows (self : ContextGAT) (es : list (nat * nat))
  (h_n h_e : mat) (st st' : mat * mat) :
  update_round self es h_n h_e st = Ok st' ->
  length (fst st') = length (fst st).
Proof.
  destruct st as [F_n_t F_e_t]. unfold update_round. intros H.
  bind_inv H. apply mapM_Ok_length in E. rewrite length_seq in E.
  destruct (update_relations self).
  - bind_inv H. injection H as <-. exact E.
  - injection H as <-. exact E.
Qed.

(** The node features that reach [torch.split]: as many rows as [F_n]. *)
Lemma forward_rows (self : ContextGAT) (input_hidden : mat)
  (graphs : BatchedGraph) (arg : option (list nat)) io io_mask :
  ContextGAT_forward self input_hidden graphs arg = Ok (io, io_mask) ->
  exists F_n F_n_t pieces,
    ndata_F_n (union graphs) = Some F_n
    /\ length F_n_t = length F_n
    /\ split F_n_t (node_counts graphs arg) = Ok pieces
    /\ pad_sequence (width F_n_t) pieces = Ok io
    /\ io_mask = map (map (fun row => Rneqb (rsum row) 0)) io.
Proof.
  unfold ContextGAT_forward. intros H.
  bind_inv H. bind_inv H. bind_inv H. injection H as <- <-.
  fold (node_counts graphs arg) in E0.
  assert (HF : exists F_n, ndata_F_n (union graphs) = Some F_n
                           /\ length a = length F_n).
  { destruct (0 <? num_edges (union graphs)).
    - destruct (negb _); [discriminate E |].
      bind_inv E. bind_inv E. bind_inv E. injection E as <-.
      unfold ndata in E2. destruct (ndata_F_n (union graphs)) as [F_n |];
        [| discriminate E2].
      injection E2 as ->. exists a2. split; [reflexivity |].
      refine (for_range_inv (fun _ st => length (fst st) = length a2)
                (k_update_steps self) _ (a2, a3) a4 _ _ E4).
      + reflexivity.
      + intros k st st' _ Hst Hstep. cbv beta in *.
        etransitivity; [exact (update_round_rows _ _ _ _ _ _ Hstep) | exact Hst].
    - unfold ndata in E. destruct (ndata_F_n (union graphs)) as [F_n |];
        [| discriminate E].
      injection E as ->. exists a. split; reflexivity. }
  destruct HF as (F_n & HF & Hlen).
  exists F_n, a, a0. repeat split; assumption.
Qed.

Lemma gat_output_shape (self : ContextGAT) (input_hidden : mat)
  (graphs : BatchedGraph) (arg : option (list nat)) (io : list mat)
  (io_mask : list (list bool)) :
  ContextGAT_forward self input_hidden graphs arg = Ok (io, io_mask) ->
  node_counts graphs arg <> []
  /\ (exists F_n, ndata_F_n (union graphs) = Some F_n
                  /\ list_sum (node_counts graphs arg) = length F_n)
  /\ length io = length (node_counts graphs arg)
  /\ length io_mask = length (node_counts graphs arg)
  /\ Forall (fun m => length m = list_max (node_counts graphs arg)) io
  /\ Forall (fun m => length m = list_max (node_counts graphs arg)) io_mask.
Proof.
  intros H. apply forward_rows in H.
  destruct H as (F_n & F_n_t & pieces & HF & Hlen & Hsplit & Hpad & ->).
  apply split_Ok_inv in Hsplit. destruct Hsplit as (-> & Hsum).
  destruct (split_sections_spec F_n_t _ Hsum) as (_ & Hl).
  assert (Hne : node_counts graphs arg <> []).
  { intros E. rewrite E in Hpad. discriminate Hpad. }
  apply pad_sequence_Ok_inv in Hpad. rewrite Hl in Hpad. subst io.
  assert (Hrows : Forall (fun m : mat => length m = list_max (node_counts graphs arg))
                    (map (fun x => x ++ repeat (zeros (width F_n_t))
                                     (list_max (node_counts graphs arg) - length x))
                         (split_sections F_n_t (node_counts graphs arg)))).
  { apply Forall_forall. intros m Hm. apply in_map_iff in Hm.
    destruct Hm as (x & <- & Hx).
    assert (Hin : In (length x) (node_counts graphs arg)).
    { rewrite <- Hl. now apply in_map. }
    pose proof (list_max_ge _ _ Hin).
    rewrite length_app, repeat_length. lia. }
  split; [exact Hne |].
  split; [exists F_n; split; [exact HF | now rewrite Hsum] |].
  assert (Hn : length (split_sections F_n_t (node_counts graphs arg))
               = length (node_counts graphs arg)).
  { rewrite <- Hl at 2. now rewrite length_map. }
  split; [rewrite length_map; exact Hn |].
  split; [rewrite !length_map; exact Hn |].
  split; [exact Hrows |].
  apply Forall_forall. intros m Hm. apply in_map_iff in Hm.
  destruct Hm as (x & <- & Hx). rewrite length_map.
  exact (proj1 (Forall_forall _ _) Hrows x Hx).
Qed.

(** X13. Whenever [ContextGAT.forward] returns, with or without message
    passing, the node counts it was given are not empty and add up to the
    number of node feature rows of the batched graph, and the output has one
    block per count, every block (and every row of the mask) padded to the
    largest count. *)
Theorem gat_output_is_padded_to_largest_graph (self : ContextGAT)
  (input_hidden : mat) (graphs : BatchedGraph) (arg : option (list nat))
  (io : list mat) (io_mask : list (list bool)) :
  ContextGAT_forward self input_hidden graphs arg = Ok (io, io_mask) ->
  node_counts graphs arg <> []
  /\ (exists F_n, ndata_F_n (union graphs) = Some F_n
                  /\ list_sum (node_counts graphs arg) = length F_n)
  /\ length io = length (node_counts graphs arg)
  /\ length io_mask = length (node_counts graphs arg)
  /\ Forall (fun m => length m = list_max (node_counts graphs arg)) io
  /\ Forall (fun m => length m = list_max (node_counts graphs arg)) io_mask.
Proof. exact (gat_output_shape self input_hidden graphs arg io io_mask). Qed.

Lemma gat_output_is_padded_to_largest_graph_witness :
  exists io io_mask,
    ContextGAT_forward plain_gat [[0%R]] linked_graphs None = Ok (io, io_mask)
    /\ node_counts linked_graphs None <> []
    /\ (exists F_n, ndata_F_n (union linked_graphs) = Some F_n
                    /\ list_sum (node_counts linked_graphs None) = length F_n)
    /\ length io = length (node_counts linked_graphs None)
    /\ length io_mask = length (node_counts linked_graphs None)
    /\ Forall (fun m => length m = list_max (node_counts linked_graphs None)) io
    /\ Forall (fun m => length m = list_max (node_counts linked_graphs None))
              io_mask.
Proof.
  eexists. eexists. split; [reflexivity |].
  apply (gat_output_is_padded_to_largest_graph plain_gat [[0%R]] linked_graphs
           None).
  reflexivity.
Defined.

(** ** A ContextGAT with one of its two flags off *)

Lemma mapM_raises {A B : Type} (f : A -> result B) (xs : list A) (e : exn) :
  (forall x, In x xs -> f x = Raise e \/ exists y, f x = Ok y) ->
  (exists x, In x xs /\ f x = Raise e) ->
  mapM f xs = Raise e.
Proof.
  induction xs as [| x xs IH]; intros Hall (x0 & Hin & Hx0).
  - destruct Hin.
  - cbn [mapM]. destruct (Hall x (or_introl eq_refl)) as [Hx | (y & Hy)].
    + now rewrite Hx.
    + rewrite Hy. cbn [bind]. rewrite IH; [reflexivity | |].
      * intros x' Hx'. apply Hall. now right.
      * destruct Hin as [<- | Hin]; [rewrite Hy in Hx0; discriminate Hx0 |].
        now exists x0.
Qed.

Lemma mapM_all_Ok {A B : Type} (f : A -> result B) (xs : list A) :
  (forall x, In x xs -> exists y, f x = Ok y) -> exists ys, mapM f xs = Ok ys.
Proof.
  induction xs as [| x xs IH]; intros Hall.
  - now exists [].
  - destruct (Hall x (or_introl eq_refl)) as (y & Hy).
    destruct IH as (ys & Hys); [intros x' Hx'; apply Hall; now right |].
    exists (y :: ys). cbn [mapM]. now rewrite Hy, Hys.
Qed.

Lemma select_In {A : Type} (xs : list A) (m : list bool) (j : nat) (x : A) :
  nth_error xs j = Some x -> nth_error m j = Some true -> In x (select xs m).
Proof.
  revert m j. induction xs as [| y xs IH]; intros [| b m] [| j] Hx Hm;
    try discriminate Hx; try discriminate Hm; simpl in *.
  - injection Hx as ->. injection Hm as ->. now left.
  - destruct b; [right |]; now apply (IH m j).
Qed.

Lemma select_In_inv {A : Type} (xs : list A) (m : list bool) (x : A) :
  In x (select xs m) -> In x xs.
Proof.
  revert m. induction xs as [| y xs IH]; intros [| b m] H; simpl in *;
    try contradiction.
  destruct b; [destruct H as [-> | H]; [now left |] |]; right; now apply (IH m).
Qed.

Lemma broadcast_length (sizes : list nat) (h : mat) :
  length sizes <= length h -> length (broadcast sizes h) = list_sum sizes.
Proof.
  unfold broadcast. revert h.
  induction sizes as [| n sizes IH]; intros [| row h] H; simpl in *;
    try reflexivity; try lia.
  rewrite length_app, repeat_length, IH by lia. reflexivity.
Qed.

(** What [dgl.batch] makes of graphs that carry both feature fields. *)
Lemma batch_all_spec (gs : list DGLGraph) :
  Forall featured gs ->
  exists u F_n F_e,
    batch_all gs = Ok u
    /\ ndata_F_n u = Some F_n /\ edata_F_e u = Some F_e
    /\ length F_n = num_nodes u /\ length F_e = num_edges u
    /\ num_nodes u = list_sum (map num_nodes gs)
    /\ num_edges u = list_sum (map num_edges gs)
    /\ Forall (fun e => fst e < num_nodes u /\ snd e < num_nodes u)
              (edge_list u).
Proof.
  induction 1 as [| g gs ((Hn & He & Hr) & HF & HE) _ IH].
  - eexists. exists [], []. split; [reflexivity |]. cbn. repeat split.
    constructor.
  - destruct IH as (u & F_n' & F_e' & Eu & HFu & HEu & Ln & Le & Sn & Se & Ru).
    destruct (ndata_F_n g) as [F_n |] eqn:EF; [| contradiction].
    destruct (edata_F_e g) as [F_e |] eqn:EE; [| contradiction].
    cbn [batch_all]. unfold ndata, edata. rewrite EF, EE. cbn [bind].
    rewrite Eu. cbn [bind]. rewrite HFu, HEu. cbn [bind].
    eexists. exists (F_n ++ F_n'), (F_e ++ F_e'). split; [reflexivity |].
    unfold join, num_edges in *. cbn [num_nodes ndata_F_n edge_list edata_F_e map list_sum].
    split; [reflexivity |]. split; [reflexivity |].
    specialize (Hn F_n eq_refl). specialize (He F_e eq_refl).
    split; [rewrite length_app; lia |].
    split; [rewrite !length_app, length_map; lia |].
    split; [simpl; lia |]. split; [rewrite length_app, length_map; simpl; lia |].
    apply Forall_app. split.
    + eapply Forall_impl; [| exact Hr]. cbv beta. intros e [H1 H2]. lia.
    + apply Forall_map. eapply Forall_impl; [| exact Ru]. cbv beta.
      intros e [H1 H2]. unfold shift. cbn [fst snd]. lia.
Qed.

Lemma mail_keys (self : ContextGAT) (h_t F_e_t : vec) (src dst : R * vec) :
  let ml := fst (io_attention_send self h_t F_e_t src dst) in
  (use_obj_info self = false -> mail_s_n ml = None)
  /\ (use_obj_info self = true -> mail_s_n ml <> None)
  /\ (use_rel_info self = false -> mail_s_e ml = None).
Proof.
  unfold io_attention_send.
  destruct (update_relations self); cbn [fst mail_s_n mail_s_e];
    (split; [intros -> | split; intros ->]); try reflexivity; discriminate.
Qed.

Lemma reduce_raises (self : ContextGAT) (box : list Mail) (F_n_t : vec) :
  use_obj_info self && use_rel_info self = false ->
  box <> [] ->
  Forall (fun ml => (use_obj_info self = false -> mail_s_n ml = None)
                    /\ (use_obj_info self = true -> mail_s_n ml <> None)
                    /\ (use_rel_info self = false -> mail_s_e ml = None)) box ->
  io_attention_reduce self box F_n_t = Raise KeyError.
Proof.
  intros Hflags Hne Hbox. destruct box as [| ml box]; [contradiction |].
  unfold io_attention_reduce.
  destruct (use_obj_info self) eqn:Eobj.
  - destruct (mapM_all_Ok
                (fun ml0 => match mail_s_n ml0 with
                            | Some x => Ok x | None => Raise KeyError end)
                (ml :: box)) as (s_n & Es).
    { intros ml0 Hin.
      pose proof (proj1 (Forall_forall _ _) Hbox ml0 Hin) as (_ & Hsome & _).
      destruct (mail_s_n ml0) as [x |]; [now exists x |].
      now elim (Hsome eq_refl). }
    unfold mailbox at 1. rewrite Es. cbn [bind].
    cbn [andb] in Hflags.
    inversion Hbox as [| ? ? (_ & _ & Hnone) _]; subst.
    unfold mailbox at 1. cbn [mapM]. now rewrite (Hnone Hflags).
  - inversion Hbox as [| ? ? (Hnone & _ & _) _]; subst.
    unfold mailbox at 1. cbn [mapM]. now rewrite (Hnone eq_refl).
Qed.

Lemma update_round_raises (self : ContextGAT) (es : list (nat * nat))
  (h_n h_e F_n_t F_e_t : mat) :
  use_obj_info self && use_rel_info self = false ->
  es <> [] -> length es <= length h_e -> length es <= length F_e_t ->
  Forall (fun e => snd e < length F_n_t) es ->
  update_round self es h_n h_e (F_n_t, F_e_t) = Raise KeyError.
Proof.
  intros Hflags Hne Hh Hf Hr. unfold update_round. cbv beta iota zeta.
  set (sent := map2 _ es (combine h_e F_e_t)).
  set (mails := map fst sent).
  assert (Hkeys : Forall (fun ml =>
                    (use_obj_info self = false -> mail_s_n ml = None)
                    /\ (use_obj_info self = true -> mail_s_n ml <> None)
                    /\ (use_rel_info self = false -> mail_s_e ml = None)) mails).
  { apply Forall_forall. intros ml Hml. unfold mails in Hml.
    apply in_map_iff in Hml. destruct Hml as (x & <- & Hx).
    apply In_nth_error in Hx. destruct Hx as (j & Hj).
    unfold sent in Hj. rewrite nth_error_map2 in Hj.
    destruct (nth_error es j) as [e |]; [| discriminate Hj].
    destruct (nth_error (combine h_e F_e_t) j) as [hf |]; [| discriminate Hj].
    injection Hj as <-. apply mail_keys. }
  assert (Hlen : length mails = length es).
  { unfold mails, sent. rewrite length_map, map2_length, length_combine. lia. }
  rewrite (mapM_raises _ (seq 0 (length F_n_t)) KeyError); [reflexivity | |].
  - intros i _. destruct (inbox es mails i) as [| ml box] eqn:Ebox.
    + right. eexists. reflexivity.
    + left. apply reduce_raises; [exact Hflags | discriminate |].
      rewrite <- Ebox. unfold inbox. apply Forall_forall. intros ml0 Hin.
      apply select_In_inv in Hin.
      exact (proj1 (Forall_forall _ _) Hkeys ml0 Hin).
  - destruct es as [| e es]; [contradiction |].
    exists (snd e). split.
    + apply in_seq. inversion Hr; subst. lia.
    + destruct mails as [| ml mails'] eqn:Em; [discriminate Hlen |].
      assert (Hin : In ml (inbox (e :: es) (ml :: mails') (snd e))).
      { unfold inbox. apply (select_In _ _ 0); [reflexivity |].
        cbn. now rewrite Nat.eqb_refl. }
      destruct (inbox (e :: es) (ml :: mails') (snd e)) as [| ml0 box] eqn:Ebox;
        [destruct Hin |].
      apply reduce_raises; [exact Hflags | discriminate |].
      rewrite <- Ebox. unfold inbox. apply Forall_forall. intros ml1 Hin1.
      apply select_In_inv in Hin1.
      exact (proj1 (Forall_forall _ _) Hkeys ml1 Hin1).
Qed.

Lemma single_flag_spec (self : ContextGAT) (input_hidden : mat)
  (gs : list DGLGraph) (arg : option (list nat)) :
  use_obj_info self && use_rel_info self = false ->
  0 < k_update_steps self ->
  Forall featured gs ->
  length input_hidden = length gs ->
  Exists (fun g => 0 < num_edges g) gs ->
  exists graphs,
    batch gs = Ok graphs
    /\ ContextGAT_forward self input_hidden graphs arg = Raise KeyError.
Proof.
  intros Hflags Hk Hgs Hlen Hedge.
  destruct (batch_all_spec gs Hgs)
    as (u & F_n & F_e & Eu & HF & HE & Ln & Le & Sn & Se & Ru).
  assert (Hpos : 0 < num_edges u).
  { rewrite Se. clear - Hedge. induction Hedge as [g gs H | g gs _ IH]; simpl; lia. }
  assert (Hne : gs <> []) by (intros ->; inversion Hedge).
  unfold batch. destruct gs as [| g0 gs0] eqn:Egs; [contradiction |].
  rewrite <- Egs in *. rewrite Eu. cbn [bind]. eexists. split; [reflexivity |].
  unfold ContextGAT_forward. cbn [union batch_num_nodes batch_num_edges].
  rewrite (proj2 (Nat.ltb_lt _ _) Hpos).
  rewrite !length_map, Hlen, Nat.eqb_refl. cbn [negb].
  unfold ndata, edata. rewrite HF, HE. cbn [bind].
  destruct (k_update_steps self) as [| k]; [lia |].
  unfold for_range. cbn [seq for_each].
  rewrite update_round_raises; [reflexivity | exact Hflags | | | |].
  - intros E. unfold num_edges in Hpos. rewrite E in Hpos. simpl in Hpos. lia.
  - rewrite broadcast_length by (rewrite !length_map; lia).
    rewrite <- Se. apply Nat.le_refl.
  - unfold num_edges in Le. lia.
  - eapply Forall_impl; [| exact Ru]. cbv beta. intros e [_ H]. lia.
Qed.

(** X14. A ContextGAT built with only one of [use_obj_info] and
    [use_rel_info] passes the constructor's assertion but cannot run its
    message passing: on any batch of consistent graphs with both feature
    fields set, of which at least one has an edge, with one hidden row per
    graph and at least one update step, [forward] raises KeyError, because
    [io_attention_reduce] reads all four mailbox fields while
    [io_attention_send] fills only the ones its flags allow. *)
Theorem single_flag_gat_raises_keyerror (self : ContextGAT) (input_hidden : mat)
  (gs : list DGLGraph) (arg : option (list nat)) :
  use_obj_info self && use_rel_info self = false ->
  0 < k_update_steps self ->
  Forall featured gs ->
  length input_hidden = length gs ->
  Exists (fun g => 0 < num_edges g) gs ->
  exists graphs,
    batch gs = Ok graphs
    /\ ContextGAT_forward self input_hidden graphs arg = Raise KeyError.
Proof. exact (single_flag_spec self input_hidden gs arg). Qed.

Lemma single_flag_gat_raises_keyerror_witness :
  ContextGAT_init 1 2 true false 1 false plain_layers = Ok objects_only_gat
  /\ exists graphs,
      batch [linked_graph] = Ok graphs
      /\ ContextGAT_forward objects_only_gat [[0%R]] graphs None
         = Raise KeyError.
Proof.
  split; [reflexivity |].
  apply (single_flag_gat_raises_keyerror objects_only_gat [[0%R]] [linked_graph]
           None).
  - reflexivity.
  - cbn. lia.
  - constructor; [| constructor]. split; [| split; discriminate].
    unfold consistent, num_edges. cbn. split; [| split].
    + intros F H. now injection H as <-.
    + intros E H. now injection H as <-.
    + constructor; [cbn; lia | constructor].
  - reflexivity.
  - left. cbn. lia.
Defined.

(** ** The shape of what [forward] returns *)

Lemma insert_desc_NoDup (x : Z * nat) (l : list (Z * nat)) :
  ~ In (snd x) (map snd l) -> NoDup (map snd l) ->
  NoDup (map snd (insert_desc x l)).
Proof.
  induction l as [| y l IH]; simpl; intros Hx Hl.
  - constructor; [intros [] | constructor].
  - destruct (fst y <=? fst x)%Z; simpl.
    + constructor; [exact Hx | exact Hl].
    + inversion Hl as [| ? ? Hy Hl']; subst.
      constructor.
      * intros Hin. apply in_map_iff in Hin. destruct Hin as (z & Ez & Hz).
        apply insert_desc_In in Hz. destruct Hz as [-> | Hz].
        -- apply Hx. left. now symmetry.
        -- apply Hy. rewrite <- Ez. now apply in_map.
      * apply IH; [| exact Hl']. intros Hin. apply Hx. now right.
Qed.

Lemma sort_ind_NoDup (ps : list (Z * nat)) :
  NoDup (map snd ps) -> NoDup (map snd (fold_right insert_desc [] ps)).
Proof.
  induction ps as [| x ps IH]; simpl; intros H; [constructor |].
  inversion H as [| ? ? Hx Hps]; subst.
  apply insert_desc_NoDup; [| now apply IH].
  intros Hin. apply Hx. apply in_map_iff in Hin. destruct Hin as (z & Ez & Hz).
  apply (proj2 (proj2 (sorted_pairs ps))) in Hz. rewrite <- Ez. now apply in_map.
Qed.

Lemma snd_combine_seq (l : list Z) (a : nat) :
  map snd (combine l (seq a (length l))) = seq a (length l).
Proof.
  revert a. induction l as [| x l IH]; intros a; simpl; [reflexivity |].
  now rewrite IH.
Qed.

(** The indices [sort] returns are the positions 0 .. n-1, each once. *)
Lemma sort_ind_spec (l : list Z) :
  length (snd (sort_desc l)) = length l
  /\ NoDup (snd (sort_desc l))
  /\ Forall (fun j => j < length l) (snd (sort_desc l)).
Proof.
  unfold sort_desc. cbn [snd].
  destruct (sorted_pairs (combine l (seq 0 (length l)))) as (_ & Hl & Hin).
  split; [rewrite length_map, Hl, length_combine, length_seq; lia |].
  split.
  - apply sort_ind_NoDup. rewrite snd_combine_seq. apply seq_NoDup.
  - apply Forall_forall. intros j Hj. apply in_map_iff in Hj.
    destruct Hj as ([c j'] & <- & Hz). apply Hin in Hz.
    apply in_combine_r in Hz. apply in_seq in Hz. cbn [snd]. lia.
Qed.

Lemma py_max_head (l : list Z) (T : Z) :
  descending l -> py_max l = Ok T -> hd_error l = Some T.
Proof.
  unfold descending. intros Hs H. destruct l as [| x l]; [discriminate H |].
  cbn in *. injection H as <-. f_equal.
  inversion Hs as [| ? ? _ Hx]; subst. clear Hs.
  induction Hx as [| y l Hy _ IH]; [reflexivity |].
  cbn [fold_left]. rewrite Z.max_l by exact Hy. exact IH.
Qed.

Lemma write_rows_shaped (t : nat) (buf : list mat) (vals : mat) (n B T : nat) :
  shaped B T buf -> shaped B T (write_rows t buf vals n).
Proof.
  revert buf vals B. induction n as [| n IH]; intros buf vals B H;
    [destruct buf, vals; exact H |].
  destruct buf as [| row buf]; [exact H |].
  destruct vals as [| v vals]; [exact H |].
  cbn [write_rows]. destruct H as (HB & Hrows).
  inversion Hrows as [| ? ? Hrow Hrest]; subst.
  destruct (IH buf vals (length buf) (conj eq_refl Hrest)) as (HB' & Hrows').
  split; [simpl; now rewrite HB' |].
  constructor; [now rewrite update_length | exact Hrows'].
Qed.

Lemma put_shaped (buf buf' : list mat) (batch_size_t t : nat) (vals : mat)
  (B T : nat) :
  put buf batch_size_t t vals = Ok buf' -> shaped B T buf -> shaped B T buf'.
Proof.
  unfold put. intros H Hs.
  destruct (length vals =? Nat.min batch_size_t (length buf)).
  - injection H as <-. now apply write_rows_shaped.
  - destruct vals as [| v [| ? ?]]; try discriminate H.
    injection H as <-. now apply write_rows_shaped.
Qed.

Lemma zero_buffer_shaped (batch vocab : nat) (T : Z) (buf : list mat) :
  zero_buffer batch T vocab = Ok buf -> shaped batch (Z.to_nat T) buf.
Proof.
  unfold zero_buffer. destruct (T <? 0)%Z; intros H; [discriminate H |].
  injection H as <-. split; [apply repeat_length |].
  apply Forall_forall. intros rows Hr. apply repeat_spec in Hr. subst rows.
  apply repeat_length.
Qed.

Lemma decode_step_shaped (self : Decoder) (p : prepared) (k : nat)
  (emb : result mat) (st st' : state) (preds : mat) (B T : nat) :
  decode_step self p k emb st = Ok (st', preds) ->
  shaped B T (predictions st) /\ shaped B T (predictions1 st) ->
  shaped B T (predictions st') /\ shaped B T (predictions1 st').
Proof.
  intros H (H0 & H1). apply decode_step_puts in H.
  destruct H as (vals & vals1 & P0 & P1).
  split; [exact (put_shaped _ _ _ _ _ _ _ P0 H0)
         | exact (put_shaped _ _ _ _ _ _ _ P1 H1)].
Qed.

Lemma forward_shaped (self : Decoder) (x : inputs) (s : rng)
  (predictions predictions1 : list mat) (captions : list (list Z))
  (lengths : list Z) (ind : list nat) :
  forward self x s = Ok (predictions, predictions1, captions, lengths, ind) ->
  exists T,
    py_max lengths = Ok T
    /\ shaped (length (image_features x)) (Z.to_nat T) predictions
    /\ shaped (length (image_features x)) (Z.to_nat T) predictions1.
Proof.
  unfold forward. destruct (teacher_force self).
  - unfold _forward_with_teacher_forcing. intros H.
    bind_inv H. destruct a as [p c]. bind_inv H. destruct a as [st0 T].
    bind_inv H. injection H as <- <- <- <- <-.
    pose proof (prepare_Ok_inv _ _ _ _ _ _ E) as (_ & _ & Hb & _).
    apply init_state_Ok_inv in E0. destruct E0 as (HT & Z0 & Z1).
    exists T. split; [exact HT |]. rewrite <- Hb.
    refine (for_range_inv
              (fun _ st =>
                 shaped (batch_size p) (Z.to_nat T) (Models.predictions st)
                 /\ shaped (batch_size p) (Z.to_nat T) (Models.predictions1 st))
              (Z.to_nat T) _ st0 a _ _ E1).
    + split; eapply zero_buffer_shaped; eassumption.
    + intros k st st' _ Hinv Hstep. bind_inv Hstep.
      destruct a0 as [st1 preds]. injection Hstep as <-.
      eapply decode_step_shaped; eassumption.
  - unfold _forward_no_teacher_force. intros H.
    bind_inv H. destruct a as [p c]. bind_inv H. bind_inv H.
    destruct a0 as [st0 T]. bind_inv H. destruct a0 as [st emb].
    injection H as <- <- <- <- <-.
    pose proof (prepare_Ok_inv _ _ _ _ _ _ E) as (_ & _ & Hb & _).
    apply init_state_Ok_inv in E1. destruct E1 as (HT & Z0 & Z1).
    exists T. split; [exact HT |]. rewrite <- Hb.
    refine (for_range_inv
              (fun _ (v : state * mat) =>
                 shaped (batch_size p) (Z.to_nat T) (Models.predictions (fst v))
                 /\ shaped (batch_size p) (Z.to_nat T)
                           (Models.predictions1 (fst v)))
              (Z.to_nat T) _ _ (st, emb) _ _ E2).
    + split; eapply zero_buffer_shaped; eassumption.
    + intros k [st1 emb1] v' _ Hinv Hstep. bind_inv Hstep.
      destruct a0 as [st2 preds]. injection Hstep as <-. cbn [fst] in *.
      eapply decode_step_shaped; eassumption.
Qed.

Lemma forward_shape_spec (self : Decoder) (x : inputs) (s : rng)
  (predictions predictions1 : list mat) (captions : list (list Z))
  (lengths : list Z) (ind : list nat) :
  forward self x s = Ok (predictions, predictions1, captions, lengths, ind) ->
  (length ind = length (caption_lengths x)
   /\ NoDup ind
   /\ Forall (fun j => j < length (caption_lengths x)) ind)
  /\ descending lengths
  /\ exists T,
       hd_error lengths = Some T
       /\ shaped (length (image_features x)) (Z.to_nat T) predictions
       /\ shaped (length (image_features x)) (Z.to_nat T) predictions1
       /\ forall t, t < Z.to_nat T -> 0 < active lengths t.
Proof.
  intros H. pose proof (forward_shaped _ _ _ _ _ _ _ _ H) as (T & HT & S0 & S1).
  apply forward_buffers in H. destruct H as (T' & -> & -> & _ & _ & _).
  destruct (sort_desc_spec (caption_lengths x)) as (Hsorted & _ & _).
  assert (Hdesc : descending (map (fun l => (l - 1)%Z)
                                  (fst (sort_desc (caption_lengths x)))))
    by now apply descending_pred.
  split; [apply sort_ind_spec |]. split; [exact Hdesc |].
  exists T. pose proof (py_max_head _ _ Hdesc HT) as Hhd.
  split; [exact Hhd |]. split; [exact S0 |]. split; [exact S1 |].
  intros t Ht.
  destruct (map (fun l => (l - 1)%Z) (fst (sort_desc (caption_lengths x))))
    as [| a l]; [discriminate Hhd |].
  injection Hhd as ->. rewrite active_cons.
  destruct (Z.ltb_spec (Z.of_nat t) T); lia.
Qed.

(** X15. Whenever the decoder's [forward] returns: [sort_ind] lists the
    positions 0 .. n-1 of the batch, each exactly once; the decode lengths
    come in non-increasing order, so the number of timesteps is the first of
    them; both prediction buffers have one block per image and that many
    timesteps per block; and at every timestep of the loop at least one
    sample is active, so [dgl.batch] is never handed an empty list. *)
Theorem forward_output_shapes (self : Decoder) (x : inputs) (s : rng)
  (predictions predictions1 : list mat) (captions : list (list Z))
  (lengths : list Z) (ind : list nat) :
  forward self x s = Ok (predictions, predictions1, captions, lengths, ind) ->
  (length ind = length (caption_lengths x)
   /\ NoDup ind
   /\ Forall (fun j => j < length (caption_lengths x)) ind)
  /\ descending lengths
  /\ exists T,
       hd_error lengths = Some T
       /\ shaped (length (image_features x)) (Z.to_nat T) predictions
       /\ shaped (length (image_features x)) (Z.to_nat T) predictions1
       /\ forall t, t < Z.to_nat T -> 0 < active lengths t.
Proof.
  exact (forward_shape_spec self x s predictions predictions1 captions lengths ind).
Qed.

Lemma forward_output_shapes_witness :
  exists predictions predictions1,
    forward plain_teacher two_captions no_draws
    = Ok (predictions, predictions1, [[1; 5; 2]; [1; 2; 0]]%Z, [2; 1]%Z, [1; 0])
    /\ (length [1; 0] = length (caption_lengths two_captions)
        /\ NoDup [1; 0]
        /\ Forall (fun j => j < length (caption_lengths two_captions)) [1; 0])
    /\ descending [2; 1]%Z
    /\ exists T,
         hd_error [2; 1]%Z = Some T
         /\ shaped (length (image_features two_captions)) (Z.to_nat T) predictions
         /\ shaped (length (image_features two_captions)) (Z.to_nat T)
                   predictions1
         /\ forall t, t < Z.to_nat T -> 0 < active [2; 1]%Z t.
Proof.
  eexists. eexists. split; [vm_compute; reflexivity |].
  eapply (forward_output_shapes plain_teacher two_captions no_draws).
  vm_compute. reflexivity.
Defined.

(** ** An empty batch *)

Lemma prepare_empty (self : Decoder) (x : inputs) (s : rng) (sorting : bool) :
  caption_lengths x = [] ->
  prepare self x s sorting = Raise ValueError
  \/ exists p captions,
       prepare self x s sorting = Ok (p, captions) /\ decode_lengths p = [].
Proof.
  intros Hx. unfold prepare. rewrite Hx. cbn [sort_desc length seq combine
    fold_right map fst snd gather mapM bind].
  assert (Hc : (if sorting then Ok [] else Ok (encoded_captions x))
               = Ok (if sorting then [] else encoded_captions x)).
  { now destruct sorting. }
  rewrite Hc. cbn [bind].
  unfold create_batched_graphs_augmented, per_sample, for_range.
  cbn [length seq for_each].
  destruct (training self).
  - destruct (augmentation self =? 0)%Z; [right; eexists; eexists; split; reflexivity |].
    destruct (augmentation self =? 1)%Z; [right; eexists; eexists; split; reflexivity |].
    destruct (augmentation self =? 2)%Z; [right; eexists; eexists; split; reflexivity |].
    destruct (augmentation self =? 3)%Z; [right; eexists; eexists; split; reflexivity |].
    destruct (augmentation self =? 4)%Z; [right; eexists; eexists; split; reflexivity |].
    destruct (augmentation self =? 5)%Z; [right; eexists; eexists; split; reflexivity |].
    left. reflexivity.
  - right. eexists. eexists. split; reflexivity.
Qed.

Lemma init_state_empty (self : Decoder) (p : prepared) :
  decode_lengths p = [] -> init_state self p = Raise ValueError.
Proof. intros H. unfold init_state. now rewrite H. Qed.

(** X16. A batch without captions is rejected: when the decoder
    teacher-forces, or has a start token to look up, [forward] on a batch
    with no caption lengths raises ValueError (from the augmentation check or
    from [max] of the empty list of decode lengths), before any decoding
    step. *)
Theorem empty_batch_raises_valueerror (self : Decoder) (x : inputs) (s : rng) :
  caption_lengths x = [] ->
  teacher_force self = true \/ word_map self <> None ->
  forward self x s = Raise ValueError.
Proof.
  intros Hx Hcfg. unfold forward.
  destruct (teacher_force self) eqn:Etf.
  - unfold _forward_with_teacher_forcing.
    destruct (prepare_empty self x s true Hx) as [-> | (p & c & -> & Hl)];
      [reflexivity |].
    cbn [bind]. now rewrite (init_state_empty self p Hl).
  - destruct Hcfg as [Hcfg | Hcfg]; [discriminate Hcfg |].
    unfold _forward_no_teacher_force.
    destruct (prepare_empty self x s false Hx) as [-> | (p & c & -> & Hl)];
      [reflexivity |].
    cbn [bind]. unfold start_token.
    destruct (word_map self) as [w |]; [| contradiction].
    cbn [bind]. now rewrite (init_state_empty self p Hl).
Qed.

Lemma empty_batch_raises_valueerror_witness :
  forward plain_decoder
    {| image_features := []; object_features := []; relation_features := [];
       object_mask := []; relation_mask := []; pair_ids := [];
       encoded_captions := []; caption_lengths := [] |} no_draws
  = Raise ValueError.
Proof.
  apply empty_batch_raises_valueerror.
  - reflexivity.
  - right. discriminate.
Defined.

(** ** Scheduled sampling and teacher forcing *)

(** Two counted loops whose bodies agree step by step agree as a whole. *)
Lemma for_range_agree {S T : Type} (Rel : nat -> S -> T -> Prop) (n : nat)
  (f : S -> nat -> result S) (g : T -> nat -> result T) (s : S) (t : T) :
  Rel 0 s t ->
  (forall k s t, k < n -> Rel k s t -> agree (Rel (Datatypes.S k)) (f s k) (g t k)) ->
  agree (Rel n) (for_range n f s) (for_range n g t).
Proof.
  intros H0 Hstep. induction n as [| n IH].
  - exact H0.
  - rewrite !for_range_S.
    assert (IH' : agree (Rel n) (for_range n f s) (for_range n g t)).
    { apply IH. intros k s' t' Hk. apply Hstep. lia. }
    destruct (for_range n f s) as [s1 | e1], (for_range n g t) as [t1 | e2];
      cbn in IH' |- *; try contradiction.
    + apply Hstep; [lia | exact IH'].
    + exact IH'.
Qed.

Lemma decode_step_needs_rows (self : Decoder) (p : prepared) (t : nat)
  (emb : result mat) (st st' : state) (preds : mat) :
  decode_step self p t emb st = Ok (st', preds) -> exists rows, emb = Ok rows.
Proof.
  unfold decode_step. intros H. bind_inv H.
  destruct emb as [rows | e]; [now exists rows | discriminate H].
Qed.

Lemma prepare_with_captions (self : Decoder) (x : inputs) (captions : list (list Z))
  (s : rng) :
  gather captions (snd (sort_desc (caption_lengths x))) = Ok (encoded_captions x) ->
  prepare self (with_captions x captions) s true = prepare self x s false.
Proof.
  intros H. unfold prepare, with_captions.
  cbn [image_features object_features relation_features object_mask
       relation_mask pair_ids encoded_captions caption_lengths].
  destruct (sort_desc (caption_lengths x)) as [lens ind]. cbn [snd] in H.
  now rewrite H.
Qed.

Lemma scheduled_sampling_spec (self : Decoder) (x : inputs)
  (captions : list (list Z)) (s : rng) :
  word_map self <> None ->
  gather captions (snd (sort_desc (caption_lengths x))) = Ok (encoded_captions x) ->
  _schedule_sampleing self x s
  = _forward_with_teacher_forcing self (with_captions x captions) s.
Proof.
  intros Hw Hc.
  unfold _schedule_sampleing, schedule_sampleing_visits,
    _forward_with_teacher_forcing.
  rewrite (prepare_with_captions self x captions s Hc).
  destruct (prepare self x s false) as [[p c] | e] eqn:Ep; [| reflexivity].
  pose proof (prepare_Ok_inv _ _ _ _ _ _ Ep) as (_ & _ & _ & Hcap).
  cbn in Hcap. subst c. cbn [bind].
  unfold start_token. destruct (word_map self) as [w |]; [| contradiction].
  cbn [bind].
  destruct (init_state self p) as [[st0 T] | e] eqn:Ei; [| reflexivity].
  cbn [bind].
  set (e := map (map (embedding self)) (encoded_captions x)).
  pose proof (for_range_agree
                (fun k (v : sampling) (st : state) =>
                   loop v = st /\ embeddings v = Captions e
                   /\ (0 < k -> sampled_teacher_force v = Some true))
                (Z.to_nat T)
                (sampling_step self p e)
                (fun st t =>
                   ' (st, _) <- decode_step self p t
                                  (at_step e (active (decode_lengths p) t) t) st ;;
                   Ok st)
                {| loop := st0; embeddings := Captions e;
                   sampled_teacher_force := None; visits := [] |}
                st0) as Hloop.
  match type of Hloop with
  | ?A -> ?B -> _ => assert (HA : A); [| assert (HB : B); [| specialize (Hloop HA HB)]]
  end.
  - cbn. repeat split. intros H0. inversion H0.
  - intros k v st _ (Hl & He & Hf). unfold sampling_step. rewrite He, Hl.
    assert (Hcond : (if k =? 0 then Ok true
                     else match sampled_teacher_force v with
                          | Some b => Ok b
                          | None => Raise UnboundLocalError
                          end) = Ok true).
    { destruct k as [| k]; [reflexivity |]. cbn. now rewrite Hf by lia. }
    rewrite Hcond. cbn [bind].
    destruct (decode_step self p k
                (at_step e (active (decode_lengths p) k) k) st)
      as [[st' preds] | err] eqn:Ed; cbn [bind agree]; [| reflexivity].
    destruct (decode_step_needs_rows _ _ _ _ _ _ _ Ed) as (rows & ->).
    cbn [bind]. change (truthy 1) with true. cbv iota. cbn [agree loop
      embeddings sampled_teacher_force].
    repeat split.
  - destruct (for_range (Z.to_nat T) (sampling_step self p e) _) as [v | e1],
             (for_range (Z.to_nat T) _ st0) as [st | e2];
      cbn [agree] in Hloop; try contradiction.
    + destruct Hloop as (<- & _). reflexivity.
    + now rewrite Hloop.
Qed.

(** X17. [_schedule_sampleing] never re-indexes the captions by [sort_ind]
    and always teacher-forces: with a start token in the word map it
    computes exactly what [_forward_with_teacher_forcing] computes on the
    batch whose captions, once sorted, are the given ones, the same tuple or
    the same exception.  So it pairs sorted image [i] with the caption given
    at position [i], and the two functions coincide on a batch that the sort
    leaves in place. *)
Theorem scheduled_sampling_is_unsorted_teacher_forcing (self : Decoder)
  (x : inputs) (captions : list (list Z)) (s : rng) :
  word_map self <> None ->
  gather captions (snd (sort_desc (caption_lengths x))) = Ok (encoded_captions x) ->
  _schedule_sampleing self x s
  = _forward_with_teacher_forcing self (with_captions x captions) s.
Proof. exact (scheduled_sampling_spec self x captions s). Qed.

Lemma scheduled_sampling_is_unsorted_teacher_forcing_witness :
  word_map plain_decoder <> None
  /\ gather [[1; 5; 2]; [1; 2; 0]]%Z
            (snd (sort_desc (caption_lengths two_captions)))
     = Ok (encoded_captions two_captions)
  /\ _schedule_sampleing plain_decoder two_captions no_draws
     = _forward_with_teacher_forcing plain_decoder
         (with_captions two_captions [[1; 5; 2]; [1; 2; 0]]%Z) no_draws.
Proof.
  assert (H1 : word_map plain_decoder <> None) by discriminate.
  assert (H2 : gather [[1; 5; 2]; [1; 2; 0]]%Z
                      (snd (sort_desc (caption_lengths two_captions)))
               = Ok (encoded_captions two_captions)) by reflexivity.
  split; [exact H1 |]. split; [exact H2 |].
  exact (scheduled_sampling_is_unsorted_teacher_forcing plain_decoder two_captions
           [[1; 5; 2]; [1; 2; 0]]%Z no_draws H1 H2).
Defined.

(** ** The running average *)

Lemma updates_run (calls : list (R * Z)) (m : AverageMeter.t) :
  Forall (fun c => (0 < snd c)%Z) calls -> (0 <= AverageMeter.count m)%Z ->
  exists m',
    updates m calls = (m', None)
    /\ AverageMeter.count m' = (AverageMeter.count m + total_weight calls)%Z
    /\ AverageMeter.sum m'
       = fold_left (fun acc c => (acc + fst c * IZR (snd c))%R) calls
                   (AverageMeter.sum m)
    /\ (calls <> [] ->
        AverageMeter.val m' = fst (last calls (0%R, 0%Z))
        /\ (0 < AverageMeter.count m')%Z
        /\ AverageMeter.avg m'
           = (AverageMeter.sum m' / IZR (AverageMeter.count m'))%R).
Proof.
  intros Hpos. revert m.
  induction Hpos as [| [v n] calls Hn Hrest IH]; intros m Hm.
  - exists m. cbn. split; [reflexivity |]. split; [lia |].
    split; [reflexivity |]. intros H. now elim H.
  - cbn [snd] in Hn. cbn [updates]. unfold AverageMeter.update.
    cbn [AverageMeter.val AverageMeter.avg AverageMeter.sum AverageMeter.count].
    destruct (Z.eqb_spec (AverageMeter.count m + n) 0) as [E | _]; [lia |].
    set (m1 := {| AverageMeter.val := v;
                  AverageMeter.avg :=
                    ((AverageMeter.sum m + v * IZR n)
                     / IZR (AverageMeter.count m + n))%R;
                  AverageMeter.sum := (AverageMeter.sum m + v * IZR n)%R;
                  AverageMeter.count := (AverageMeter.count m + n)%Z |}).
    destruct (IH m1) as (m' & E & Hc & Hs & Hlast); [cbn; lia |].
    exists m'. split; [exact E |].
    cbn [AverageMeter.count AverageMeter.sum m1] in Hc, Hs.
    split.
    { cbn [total_weight fold_right snd]. fold (total_weight calls). lia. }
    split; [exact Hs |].
    intros _. destruct calls as [| c calls].
    + cbn in E. injection E as <-. cbn. split; [reflexivity |].
      split; [lia | reflexivity].
    + destruct Hlast as (Hv & Hp & Ha); [discriminate |].
      split; [exact Hv |]. split; [exact Hp | exact Ha].
Qed.

(** X18. A freshly reset [AverageMeter] fed any run of [update] calls with
    positive weights never divides by zero; afterwards [count] is the sum of
    the weights, [sum] is what adding the weighted values one call after the
    other to 0 gives, [val] is the last value, [count] is positive and [avg]
    is [sum] divided by [count]. *)
Theorem meter_tracks_weighted_mean (calls : list (R * Z)) :
  Forall (fun c => (0 < snd c)%Z) calls ->
  exists m,
    updates AverageMeter.reset calls = (m, None)
    /\ AverageMeter.count m = total_weight calls
    /\ AverageMeter.sum m = running_total calls
    /\ (calls <> [] ->
        AverageMeter.val m = fst (last calls (0%R, 0%Z))
        /\ (0 < AverageMeter.count m)%Z
        /\ AverageMeter.avg m
           = (AverageMeter.sum m / IZR (AverageMeter.count m))%R).
Proof.
  intros Hpos.
  destruct (updates_run calls AverageMeter.reset Hpos) as (m & E & Hc & Hs & Hl);
    [cbn; lia |].
  exists m. split; [exact E |]. split; [cbn in Hc; lia |].
  split; [exact Hs | exact Hl].
Qed.

Lemma meter_tracks_weighted_mean_witness :
  Forall (fun c : R * Z => (0 < snd c)%Z) [(2%R, 1%Z); (4%R, 3%Z)]
  /\ exists m,
      updates AverageMeter.reset [(2%R, 1%Z); (4%R, 3%Z)] = (m, None)
      /\ AverageMeter.count m = total_weight [(2%R, 1%Z); (4%R, 3%Z)]
      /\ AverageMeter.sum m = running_total [(2%R, 1%Z); (4%R, 3%Z)]
      /\ ([(2%R, 1%Z); (4%R, 3%Z)] <> [] ->
          AverageMeter.val m = fst (last [(2%R, 1%Z); (4%R, 3%Z)] (0%R, 0%Z))
          /\ (0 < AverageMeter.count m)%Z
          /\ AverageMeter.avg m
             = (AverageMeter.sum m / IZR (AverageMeter.count m))%R).
Proof.
  assert (H : Forall (fun c : R * Z => (0 < snd c)%Z) [(2%R, 1%Z); (4%R, 3%Z)]).
  { repeat constructor. }
  split; [exact H |].
  exact (meter_tracks_weighted_mean [(2%R, 1%Z); (4%R, 3%Z)] H).
Defined.

(** ** The word map *)

Section Dicts.

Context {V : Type}.

Lemma lookup_assign_same (d : dict V) (k : word) (v : V) :
  lookup (assign d k v) k = Some v.
Proof.
  induction d as [| [k' v'] d IH]; cbn.
  - now rewrite String.eqb_refl.
  - destruct (String.eqb k k') eqn:E; cbn; rewrite E; [reflexivity | exact IH].
Qed.

Lemma lookup_assign_other (d : dict V) (k k' : word) (v : V) :
  k' <> k -> lookup (assign d k v) k' = lookup d k'.
Proof.
  intros Hne. induction d as [| [k0 v0] d IH]; cbn.
  - now rewrite (proj2 (String.eqb_neq k' k) Hne).
  - destruct (String.eqb_spec k k0) as [-> | Hk]; cbn.
    + now rewrite (proj2 (String.eqb_neq k' k0) Hne).
    + destruct (String.eqb k' k0); [reflexivity | exact IH].
Qed.

Lemma lookup_In (d : dict V) (k : word) (v : V) :
  lookup d k = Some v -> In (k, v) d.
Proof.
  induction d as [| [k' v'] d IH]; cbn; [discriminate |].
  destruct (String.eqb_spec k k') as [-> | Hk]; intros H.
  - injection H as ->. now left.
  - right. now apply IH.
Qed.

Lemma lookup_None (d : dict V) (k : word) :
  lookup d k = None <-> ~ In k (map fst d).
Proof.
  induction d as [| [k' v'] d IH]; cbn; [tauto |].
  destruct (String.eqb_spec k k') as [-> | Hk].
  - split; [discriminate | intros H; elim H; now left].
  - rewrite IH. split; [intros H [E | Hin]; [now elim Hk | now apply H] |].
    intros H Hin. apply H. now right.
Qed.

Lemma In_lookup (d : dict V) (k : word) (v : V) :
  NoDup (map fst d) -> In (k, v) d -> lookup d k = Some v.
Proof.
  induction d as [| [k' v'] d IH]; cbn; intros Hd Hin; [destruct Hin |].
  inversion Hd as [| ? ? Hk' Hd']; subst.
  destruct Hin as [E | Hin].
  - injection E as -> ->. now rewrite String.eqb_refl.
  - destruct (String.eqb_spec k k') as [-> | _]; [| now apply IH].
    elim Hk'. change k' with (fst (k', v)). now apply in_map.
Qed.

Lemma assign_fresh (d : dict V) (k : word) (v : V) :
  ~ In k (map fst d) -> assign d k v = d ++ [(k, v)].
Proof.
  induction d as [| [k' v'] d IH]; cbn; intros H; [reflexivity |].
  destruct (String.eqb_spec k k') as [-> | _]; [elim H; now left |].
  f_equal. apply IH. intros Hin. apply H. now right.
Qed.

Lemma assign_keys (d : dict V) (k k' : word) (v : V) :
  In k' (map fst (assign d k v)) <-> k' = k \/ In k' (map fst d).
Proof.
  induction d as [| [k0 v0] d IH]; cbn.
  - split; [intros [E | []]; now left | intros [E | []]; now left].
  - destruct (String.eqb_spec k k0) as [-> | Hk]; cbn.
    + split; [intros H; now right | intros [-> | H]; [now left | exact H]].
    + rewrite IH. tauto.
Qed.

Lemma assign_NoDup (d : dict V) (k : word) (v : V) :
  NoDup (map fst d) -> NoDup (map fst (assign d k v)).
Proof.
  induction d as [| [k0 v0] d IH]; cbn; intros H.
  - constructor; [intros [] | constructor].
  - inversion H as [| ? ? Hk0 Hd]; subst.
    destruct (String.eqb_spec k k0) as [-> | Hk]; cbn; [exact H |].
    constructor; [| now apply IH].
    rewrite assign_keys. intros [E | Hin]; [now elim Hk | now apply Hk0].
Qed.

End Dicts.

Lemma tally_add (o : option Z) (a b : nat) :
  tally (tally o a) b = tally o (a + b).
Proof.
  destruct a as [| a]; [reflexivity |]. destruct b as [| b]; cbn [tally].
  - now rewrite Nat.add_0_r.
  - cbn [Nat.add tally]. destruct o; f_equal; lia.
Qed.

Lemma Counter_update_lookup (tokens : list word) (d : dict Z) (w : word) :
  lookup (Counter_update d tokens) w
  = tally (lookup d w) (count_occ String.string_dec tokens w).
Proof.
  unfold Counter_update. revert d.
  induction tokens as [| t tokens IH]; intros d; [reflexivity |].
  cbn [fold_left count_occ]. rewrite IH.
  destruct (String.string_dec t w) as [-> | Hne].
  - rewrite lookup_assign_same.
    destruct (count_occ String.string_dec tokens w) as [| c]; cbn [tally].
    + destruct (lookup d w); f_equal; lia.
    + destruct (lookup d w); f_equal; lia.
  - rewrite lookup_assign_other by (intros E; now elim Hne). reflexivity.
Qed.

Lemma Counter_update_NoDup (tokens : list word) (d : dict Z) :
  NoDup (map fst d) -> NoDup (map fst (Counter_update d tokens)).
Proof.
  unfold Counter_update. revert d.
  induction tokens as [| t tokens IH]; intros d H; [exact H |].
  cbn [fold_left]. apply IH. now apply assign_NoDup.
Qed.

Lemma count_words_spec (sentences : list (list word)) (w : word) :
  NoDup (map fst (count_words sentences))
  /\ lookup (count_words sentences) w
     = tally None (count_occ String.string_dec (concat sentences) w).
Proof.
  unfold count_words.
  assert (H : forall d,
             NoDup (map fst d) ->
             NoDup (map fst (fold_left Counter_update sentences d))
             /\ lookup (fold_left Counter_update sentences d) w
                = tally (lookup d w)
                        (count_occ String.string_dec (concat sentences) w)).
  { induction sentences as [| c sentences IH]; intros d Hd.
    - split; [exact Hd | reflexivity].
    - cbn [fold_left concat].
      destruct (IH (Counter_update d c) (Counter_update_NoDup c d Hd)) as (Hn & Hl).
      split; [exact Hn |].
      now rewrite Hl, Counter_update_lookup, tally_add, count_occ_app. }
  apply (H []). constructor.
Qed.

Lemma frequent_NoDup (d : dict Z) (min_word_freq : Z) :
  NoDup (map fst d) -> NoDup (frequent d min_word_freq).
Proof.
  unfold frequent. induction d as [| [k n] d IH]; cbn; intros H; [constructor |].
  inversion H as [| ? ? Hk Hd]; subst.
  destruct (min_word_freq <? n)%Z; cbn; [| now apply IH].
  constructor; [| now apply IH].
  intros Hin. apply Hk. apply in_map_iff in Hin.
  destruct Hin as (x & <- & Hx). apply filter_In in Hx. now apply in_map.
Qed.

Lemma frequent_In (d : dict Z) (min_word_freq : Z) (w : word) :
  NoDup (map fst d) ->
  In w (frequent d min_word_freq)
  <-> exists n, lookup d w = Some n /\ (min_word_freq < n)%Z.
Proof.
  intros Hd. unfold frequent. rewrite in_map_iff. split.
  - intros ([k n] & <- & Hx). apply filter_In in Hx. destruct Hx as (Hin & Hn).
    cbn in *. exists n. split; [now apply In_lookup | now apply Z.ltb_lt].
  - intros (n & Hl & Hn). exists (w, n). split; [reflexivity |].
    apply filter_In. split; [now apply lookup_In | now apply Z.ltb_lt].
Qed.

Lemma enumerate_fold (words : list word) (a : nat) (d : dict Z) :
  NoDup words -> (forall w, In w words -> ~ In w (map fst d)) ->
  fold_left (fun d vk => assign d (snd vk) (Z.of_nat (fst vk) + 1)%Z)
            (combine (seq a (length words)) words) d
  = d ++ combine words (map (fun v => (Z.of_nat v + 1)%Z) (seq a (length words))).
Proof.
  revert a d. induction words as [| w words IH]; intros a d Hw Hd.
  - cbn. now rewrite app_nil_r.
  - inversion Hw as [| ? ? Hnw Hws]; subst.
    cbn [length seq combine fold_left fst snd map].
    rewrite assign_fresh by (apply Hd; now left).
    rewrite IH; [now rewrite <- app_assoc | exact Hws |].
    intros w' Hw'. rewrite map_app, in_app_iff. cbn.
    intros [Hin | [E | []]].
    + apply (Hd w'); [now right | exact Hin].
    + subst w'. now apply Hnw.
Qed.

Lemma word_ids_spec (n : nat) (a : nat) :
  NoDup (map (fun v => (Z.of_nat v + 1)%Z) (seq a n))
  /\ forall v, In v (map (fun v => (Z.of_nat v + 1)%Z) (seq a n)) ->
               (Z.of_nat a + 1 <= v <= Z.of_nat a + Z.of_nat n)%Z.
Proof.
  revert a. induction n as [| n IH]; intros a; cbn [seq map].
  - split; [constructor | intros v []].
  - destruct (IH (S a)) as (Hn & Hr). split.
    + constructor; [| exact Hn]. intros Hin. apply Hr in Hin. lia.
    + intros v [<- | Hin]; [lia |]. apply Hr in Hin. lia.
Qed.

Lemma combine_fst {A B : Type} (xs : list A) (ys : list B) :
  length xs = length ys -> map fst (combine xs ys) = xs.
Proof.
  revert ys. induction xs as [| x xs IH]; intros [| y ys] H; try discriminate H;
    cbn; [reflexivity |]. f_equal. apply IH. now injection H.
Qed.

Lemma combine_snd {A B : Type} (xs : list A) (ys : list B) :
  length xs = length ys -> map snd (combine xs ys) = ys.
Proof.
  revert ys. induction xs as [| x xs IH]; intros [| y ys] H; try discriminate H;
    cbn; [reflexivity |]. f_equal. apply IH. now injection H.
Qed.

Lemma word_ids_length (n : nat) : length (word_ids n) = n.
Proof. unfold word_ids. now rewrite length_map, length_seq. Qed.

(** The word map, entry by entry, when no corpus word is a reserved token. *)
Lemma create_word_map_spec (word_freq : dict Z) (min_word_freq : Z) :
  NoDup (map fst word_freq) ->
  Forall (fun w => ~ In w specials) (frequent word_freq min_word_freq) ->
  create_word_map word_freq min_word_freq
  = combine (frequent word_freq min_word_freq)
            (word_ids (length (frequent word_freq min_word_freq)))
    ++ [("<unk>"%string,
         (Z.of_nat (length (frequent word_freq min_word_freq)) + 1)%Z);
        ("<start>"%string,
         (Z.of_nat (length (frequent word_freq min_word_freq)) + 2)%Z);
        ("<end>"%string,
         (Z.of_nat (length (frequent word_freq min_word_freq)) + 3)%Z);
        ("<pad>"%string, 0%Z)].
Proof.
  intros Hd Hsp. unfold create_word_map. cbv zeta.
  set (words := frequent word_freq min_word_freq) in *.
  assert (Hw : NoDup words) by now apply frequent_NoDup.
  rewrite (enumerate_fold words 0 [] Hw) by (intros w _ []).
  cbn [app]. fold (word_ids (length words)).
  set (base := combine words (word_ids (length words))).
  assert (Hkeys : map fst base = words).
  { unfold base. apply combine_fst. now rewrite word_ids_length. }
  assert (Hlen : length base = length words).
  { unfold base. rewrite length_combine, word_ids_length. apply Nat.min_id. }
  assert (Hno : forall k, In k specials -> ~ In k words).
  { intros k Hk Hin. exact (proj1 (Forall_forall _ _) Hsp k Hin Hk). }
  assert (Hunk : ~ In "<unk>"%string words) by (apply Hno; cbn; tauto).
  assert (Hstart : ~ In "<start>"%string words) by (apply Hno; cbn; tauto).
  assert (Hend : ~ In "<end>"%string words) by (apply Hno; cbn; tauto).
  assert (Hpad : ~ In "<pad>"%string words) by (apply Hno; cbn; tauto).
  rewrite (assign_fresh base) by now rewrite Hkeys.
  rewrite (assign_fresh (base ++ _)).
  2:{ rewrite map_app, in_app_iff, Hkeys. cbn.
      intros [H | [H | []]]; [now apply Hstart | discriminate H]. }
  rewrite (assign_fresh ((base ++ _) ++ _)).
  2:{ rewrite !map_app, !in_app_iff, Hkeys. cbn.
      intros [[H | [H | []]] | [H | []]];
        [now apply Hend | discriminate H | discriminate H]. }
  rewrite (assign_fresh (((base ++ _) ++ _) ++ _)).
  2:{ rewrite !map_app, !in_app_iff, Hkeys. cbn.
      intros [[[H | [H | []]] | [H | []]] | [H | []]];
        [now apply Hpad | discriminate H | discriminate H | discriminate H]. }
  unfold len. rewrite !length_app, Hlen. cbn [length].
  rewrite <- !app_assoc. cbn [app].
  replace (Z.of_nat (length words + 1) + 1)%Z
    with (Z.of_nat (length words) + 2)%Z by lia.
  replace (Z.of_nat (length words + 1 + 1) + 1)%Z
    with (Z.of_nat (length words) + 3)%Z by lia.
  reflexivity.
Qed.

Lemma word_map_spec (sentences : list (list word)) (min_word_freq : Z) :
  Forall (fun w => ~ In w specials)
         (frequent (count_words sentences) min_word_freq) ->
  NoDup (frequent (count_words sentences) min_word_freq)
  /\ (forall w,
        In w (frequent (count_words sentences) min_word_freq)
        <-> In w (concat sentences)
            /\ (min_word_freq
                < Z.of_nat (count_occ String.string_dec (concat sentences) w))%Z)
  /\ create_word_map (count_words sentences) min_word_freq
     = combine (frequent (count_words sentences) min_word_freq)
               (word_ids (length (frequent (count_words sentences) min_word_freq)))
       ++ [("<unk>"%string,
            (Z.of_nat (length (frequent (count_words sentences) min_word_freq))
             + 1)%Z);
           ("<start>"%string,
            (Z.of_nat (length (frequent (count_words sentences) min_word_freq))
             + 2)%Z);
           ("<end>"%string,
            (Z.of_nat (length (frequent (count_words sentences) min_word_freq))
             + 3)%Z);
           ("<pad>"%string, 0%Z)]
  /\ NoDup (map fst (create_word_map (count_words sentences) min_word_freq))
  /\ NoDup (map snd (create_word_map (count_words sentences) min_word_freq)).
Proof.
  intros Hsp.
  pose proof (fun w => proj1 (count_words_spec sentences w)) as Hkeys.
  specialize (Hkeys ""%string).
  set (words := frequent (count_words sentences) min_word_freq) in *.
  assert (Hw : NoDup words) by now apply frequent_NoDup.
  split; [exact Hw |]. split.
  - intros w. unfold words. rewrite (frequent_In _ _ _ Hkeys).
    rewrite (proj2 (count_words_spec sentences w)).
    rewrite (count_occ_In String.string_dec).
    destruct (count_occ String.string_dec (concat sentences) w) as [| c];
      cbn [tally].
    + split; [intros (n & H & _); discriminate H | intros (H & _); lia].
    + split.
      * intros (n & H & Hn). injection H as <-. split; lia.
      * intros (_ & Hn). eexists. split; [reflexivity | lia].
  - rewrite (create_word_map_spec _ _ Hkeys Hsp). fold words.
    split; [reflexivity |].
    assert (Hl : length words = length (word_ids (length words)))
      by now rewrite word_ids_length.
    assert (Hno : forall k, In k specials -> ~ In k words).
    { intros k Hk Hin. exact (proj1 (Forall_forall _ _) Hsp k Hin Hk). }
    split.
    + rewrite map_app, (combine_fst _ _ Hl). cbn [map fst].
      apply NoDup_app; [exact Hw | |].
      * repeat constructor; cbn; intuition discriminate.
      * intros a Ha Hin. apply (Hno a); [exact Hin | exact Ha].
    + rewrite map_app, (combine_snd _ _ Hl). cbn [map snd].
      destruct (word_ids_spec (length words) 0) as (Hn & Hr).
      apply NoDup_app; [exact Hn | |].
      * repeat constructor; cbn; intros H; intuition lia.
      * intros v Hv Hin. apply Hr in Hv. cbn in Hin. intuition lia.
Qed.

(** X19. The word map built by [create_input_files]: a token enters the
    vocabulary exactly when it occurs in the corpus more than
    [min_word_freq] times (all sentences count, also those too long to be
    kept); if none of these words is one of the reserved tokens, the words
    get the ids 1 .. n in order of first occurrence, [<unk>], [<start>] and
    [<end>] get n+1, n+2 and n+3, [<pad>] gets 0, and no two entries share a
    key or an id. *)
Theorem word_map_numbers_the_vocabulary (sentences : list (list word))
  (min_word_freq : Z) :
  Forall (fun w => ~ In w specials)
         (frequent (count_words sentences) min_word_freq) ->
  NoDup (frequent (count_words sentences) min_word_freq)
  /\ (forall w,
        In w (frequent (count_words sentences) min_word_freq)
        <-> In w (concat sentences)
            /\ (min_word_freq
                < Z.of_nat (count_occ String.string_dec (concat sentences) w))%Z)
  /\ create_word_map (count_words sentences) min_word_freq
     = combine (frequent (count_words sentences) min_word_freq)
               (word_ids (length (frequent (count_words sentences) min_word_freq)))
       ++ [("<unk>"%string,
            (Z.of_nat (length (frequent (count_words sentences) min_word_freq))
             + 1)%Z);
           ("<start>"%string,
            (Z.of_nat (length (frequent (count_words sentences) min_word_freq))
             + 2)%Z);
           ("<end>"%string,
            (Z.of_nat (length (frequent (count_words sentences) min_word_freq))
             + 3)%Z);
           ("<pad>"%string, 0%Z)]
  /\ NoDup (map fst (create_word_map (count_words sentences) min_word_freq))
  /\ NoDup (map snd (create_word_map (count_words sentences) min_word_freq)).
Proof. exact (word_map_spec sentences min_word_freq). Qed.

Lemma word_map_numbers_the_vocabulary_witness :
  Forall (fun w => ~ In w specials)
         (frequent (count_words [["a"; "dog"; "a"]; ["a"; "dog"; "runs"]]%string)
                   1)
  /\ create_word_map
       (count_words [["a"; "dog"; "a"]; ["a"; "dog"; "runs"]]%string) 1
     = [("a", 1); ("dog", 2); ("<unk>", 3); ("<start>", 4); ("<end>", 5);
        ("<pad>", 0)]%string%Z.
Proof.
  assert (H : Forall (fun w => ~ In w specials)
                (frequent
                   (count_words [["a"; "dog"; "a"]; ["a"; "dog"; "runs"]]%string)
                   1)).
  { repeat constructor; cbn; intuition discriminate. }
  split; [exact H |].
  destruct (word_map_numbers_the_vocabulary
              [["a"; "dog"; "a"]; ["a"; "dog"; "runs"]]%string 1 H)
    as (_ & _ & E & _).
  rewrite E. reflexivity.
Defined.

(** ** The encoded captions *)

Lemma mapM_pure {A B : Type} (f : A -> B) (xs : list A) :
  mapM (fun x => Ok (f x)) xs = Ok (map f xs).
Proof.
  induction xs as [| x xs IH]; cbn; [reflexivity |]. now rewrite IH.
Qed.

Lemma encode_caption_spec (sentences : list (list word)) (min_word_freq : Z)
  (max_len : Z) (c : list word) :
  Forall (fun w => ~ In w specials)
         (frequent (count_words sentences) min_word_freq) ->
  Forall (fun w => ~ In w specials) c ->
  (Z.of_nat (length c) <= max_len)%Z ->
  exists enc,
    encode_caption (create_word_map (count_words sentences) min_word_freq)
                   max_len c
    = Ok (enc, (Z.of_nat (length c) + 2)%Z)
    /\ Z.of_nat (length enc) = (max_len + 2)%Z
    /\ nth_error enc 0
       = Some (Z.of_nat (length (frequent (count_words sentences) min_word_freq))
               + 2)%Z
    /\ nth_error enc (S (length c))
       = Some (Z.of_nat (length (frequent (count_words sentences) min_word_freq))
               + 3)%Z
    /\ (forall i w,
          nth_error c i = Some w ->
          exists v,
            nth_error enc (S i) = Some v
            /\ (In w (frequent (count_words sentences) min_word_freq) ->
                lookup (create_word_map (count_words sentences) min_word_freq) w
                = Some v
                /\ (1 <= v <= Z.of_nat (length (frequent (count_words sentences)
                                                         min_word_freq)))%Z)
            /\ (~ In w (frequent (count_words sentences) min_word_freq) ->
                v = (Z.of_nat (length (frequent (count_words sentences)
                                                min_word_freq)) + 1)%Z))
    /\ (forall j v, nth_error enc j = Some v ->
                    (v = 0%Z <-> length c + 2 <= j)).
Proof.
  intros Hsp Hc Hlen.
  destruct (word_map_spec sentences min_word_freq Hsp)
    as (Hw & _ & E & Hkeys & _).
  set (words := frequent (count_words sentences) min_word_freq) in *.
  set (wm := create_word_map (count_words sentences) min_word_freq) in *.
  set (n := Z.of_nat (length words)) in *.
  assert (Hl : length words = length (word_ids (length words)))
    by now rewrite word_ids_length.
  assert (Hspecial : forall k v,
             In (k, v) [("<unk>"%string, (n + 1)%Z); ("<start>"%string, (n + 2)%Z);
                        ("<end>"%string, (n + 3)%Z); ("<pad>"%string, 0%Z)] ->
             lookup wm k = Some v).
  { intros k v Hin. apply In_lookup; [exact Hkeys |].
    rewrite E. apply in_app_iff. now right. }
  assert (Hunk : lookup wm "<unk>"%string = Some (n + 1)%Z)
    by (apply Hspecial; cbn; tauto).
  assert (Hstart : lookup wm "<start>"%string = Some (n + 2)%Z)
    by (apply Hspecial; cbn; tauto).
  assert (Hend : lookup wm "<end>"%string = Some (n + 3)%Z)
    by (apply Hspecial; cbn; tauto).
  assert (Hpad : lookup wm "<pad>"%string = Some 0%Z)
    by (apply Hspecial; cbn; tauto).
  assert (Hword : forall w,
             ~ In w specials ->
             (In w words ->
              exists v, lookup wm w = Some v /\ (1 <= v <= n)%Z)
             /\ (~ In w words -> lookup wm w = None)).
  { intros w Hns. split.
    - intros Hin. destruct (lookup wm w) as [v |] eqn:Ev.
      + exists v. split; [reflexivity |].
        apply lookup_In in Ev. rewrite E in Ev. apply in_app_iff in Ev.
        destruct Ev as [Ev | Ev].
        * apply in_combine_r in Ev.
          apply (proj2 (word_ids_spec (length words) 0)) in Ev. unfold n. lia.
        * elim Hns. cbn in Ev. cbn.
          destruct Ev as [Ev | [Ev | [Ev | [Ev | []]]]]; injection Ev as <- _;
            tauto.
      + apply lookup_None in Ev. elim Ev. rewrite E, map_app, in_app_iff.
        left. now rewrite (combine_fst _ _ Hl).
    - intros Hnin. apply lookup_None. rewrite E, map_app, in_app_iff.
      rewrite (combine_fst _ _ Hl). cbn. cbn in Hns. tauto. }
  set (code := fun w => match lookup wm w with Some v => v | None => (n + 1)%Z end).
  assert (Hcode : forall w, In w c ->
             (1 <= code w <= n + 1)%Z
             /\ (In w words -> lookup wm w = Some (code w) /\ (1 <= code w <= n)%Z)
             /\ (~ In w words -> code w = (n + 1)%Z)).
  { intros w Hin.
    pose proof (proj1 (Forall_forall _ _) Hc w Hin) as Hns.
    destruct (Hword w Hns) as (Hyes & Hno). unfold code.
    destruct (in_dec String.string_dec w words) as [Hi | Hi].
    - destruct (Hyes Hi) as (v & -> & Hv).
      split; [lia |]. split; [intros _; split; [reflexivity | exact Hv] |].
      intros H. now elim H.
    - rewrite (Hno Hi). split; [unfold n; lia |].
      split; [intros H; now elim Hi | reflexivity]. }
  set (k := Z.to_nat (max_len - Z.of_nat (length c))).
  exists ((n + 2)%Z :: (map code c ++ (n + 3)%Z :: repeat 0%Z k)).
  split.
  { unfold encode_caption, item. rewrite Hstart, Hunk, Hend, Hpad.
    cbn [bind]. change (mapM _ c) with (mapM (fun x => Ok (code x)) c).
    rewrite (mapM_pure code c). cbn [bind app]. reflexivity. }
  split.
  { cbn [length]. rewrite length_app, length_map. cbn [length].
    rewrite repeat_length. unfold k. lia. }
  split; [reflexivity |].
  split.
  { cbn [nth_error]. rewrite nth_error_app2 by (rewrite length_map; lia).
    now rewrite length_map, Nat.sub_diag. }
  split.
  { intros i w Hi. exists (code w). cbn [nth_error].
    assert (Hlt : i < length c) by (apply nth_error_Some; now rewrite Hi).
    rewrite nth_error_app1 by now rewrite length_map.
    rewrite nth_error_map, Hi. split; [reflexivity |].
    destruct (Hcode w (nth_error_In _ _ Hi)) as (_ & Hyes & Hno).
    split; assumption. }
  intros j v Hj. destruct j as [| j]; cbn [nth_error] in Hj.
  { injection Hj as <-. unfold n. split; lia. }
  destruct (Nat.lt_ge_cases j (length c)) as [Hlt | Hge].
  - rewrite nth_error_app1 in Hj by now rewrite length_map.
    rewrite nth_error_map in Hj.
    destruct (nth_error c j) as [w |] eqn:Ew; [| discriminate Hj].
    injection Hj as <-.
    destruct (Hcode w (nth_error_In _ _ Ew)) as (Hr & _). split; lia.
  - rewrite nth_error_app2 in Hj by (rewrite length_map; lia).
    rewrite length_map in Hj.
    destruct (j - length c) as [| d] eqn:Ed; cbn [nth_error] in Hj.
    + injection Hj as <-. unfold n. split; lia.
    + apply nth_error_In, repeat_spec in Hj. subst v. split; [lia | reflexivity].
Qed.

(** X20. With the word map of X19 and a caption of at most [max_len]
    words, none of them a reserved token, the encoding succeeds and
    [c_len] is the word count plus 2; the encoded caption has
    [max_len + 2] entries: the [<start>] id, then for each word its own id
    (between 1 and n) if it is in the vocabulary and the [<unk>] id
    otherwise, then the [<end>] id at position [c_len - 1], then padding;
    and an entry is 0 exactly at the positions from [c_len] on. *)
Theorem captions_are_padded_after_c_len (sentences : list (list word))
  (min_word_freq : Z) (max_len : Z) (c : list word) :
  Forall (fun w => ~ In w specials)
         (frequent (count_words sentences) min_word_freq) ->
  Forall (fun w => ~ In w specials) c ->
  (Z.of_nat (length c) <= max_len)%Z ->
  exists enc,
    encode_caption (create_word_map (count_words sentences) min_word_freq)
                   max_len c
    = Ok (enc, (Z.of_nat (length c) + 2)%Z)
    /\ Z.of_nat (length enc) = (max_len + 2)%Z
    /\ nth_error enc 0
       = Some (Z.of_nat (length (frequent (count_words sentences) min_word_freq))
               + 2)%Z
    /\ nth_error enc (S (length c))
       = Some (Z.of_nat (length (frequent (count_words sentences) min_word_freq))
               + 3)%Z
    /\ (forall i w,
          nth_error c i = Some w ->
          exists v,
            nth_error enc (S i) = Some v
            /\ (In w (frequent (count_words sentences) min_word_freq) ->
                lookup (create_word_map (count_words sentences) min_word_freq) w
                = Some v
                /\ (1 <= v <= Z.of_nat (length (frequent (count_words sentences)
                                                         min_word_freq)))%Z)
            /\ (~ In w (frequent (count_words sentences) min_word_freq) ->
                v = (Z.of_nat (length (frequent (count_words sentences)
                                                min_word_freq)) + 1)%Z))
    /\ (forall j v, nth_error enc j = Some v ->
                    (v = 0%Z <-> length c + 2 <= j)).
Proof. exact (encode_caption_spec sentences min_word_freq max_len c). Qed.

Lemma captions_are_padded_after_c_len_witness :
  Forall (fun w => ~ In w specials)
         (frequent (count_words [["a"; "dog"; "a"]; ["a"; "dog"; "runs"]]%string)
                   1)
  /\ Forall (fun w => ~ In w specials) ["a"; "cat"]%string
  /\ (Z.of_nat (length ["a"; "cat"]%string) <= 4)%Z
  /\ encode_caption
       (create_word_map
          (count_words [["a"; "dog"; "a"]; ["a"; "dog"; "runs"]]%string) 1)
       4 ["a"; "cat"]%string
     = Ok ([4; 1; 3; 5; 0; 0]%Z, 4%Z).
Proof.
  assert (H1 : Forall (fun w => ~ In w specials)
                 (frequent
                    (count_words [["a"; "dog"; "a"]; ["a"; "dog"; "runs"]]%string)
                    1)).
  { repeat constructor; cbn; intuition discriminate. }
  assert (H2 : Forall (fun w => ~ In w specials) ["a"; "cat"]%string).
  { repeat constructor; cbn; intuition discriminate. }
  assert (H3 : (Z.of_nat (length ["a"; "cat"]%string) <= 4)%Z) by (cbn; lia).
  split; [exact H1 |]. split; [exact H2 |]. split; [exact H3 |].
  destruct (captions_are_padded_after_c_len
              [["a"; "dog"; "a"]; ["a"; "dog"; "runs"]]%string 1 4
              ["a"; "cat"]%string H1 H2 H3) as (enc & E & _).
  rewrite E. cbn in E. injection E as <-. reflexivity.
Defined.

(** ** The items of the caption dataset *)

Tactic Notation "opt_inv" hyp(H) ident(a) ident(E) :=
  match type of H with
  | Datasets.and_then ?m _ = Some _ =>
      destruct m as [a |] eqn:E; [cbn [Datasets.and_then] in H | discriminate H]
  end.

Lemma window_nth {A : Type} (l : list A) (a n k : nat) :
  k < n -> nth_error (firstn (a + n - a) (skipn a l)) k = nth_error l (a + k).
Proof.
  intros Hk. replace (a + n - a) with n by lia.
  rewrite nth_error_firstn, nth_error_skipn.
  now rewrite (proj2 (Nat.ltb_lt k n) Hk).
Qed.

Lemma getitem_spec (transform_img transform_obj : mat -> rng -> mat * rng)
  (fs : Datasets.files) (split : Datasets.Split) (two_crop transform : bool)
  (i : nat) (s s' : rng) (it : Datasets.item) :
  split <> Datasets.TRAIN ->
  Datasets.__getitem__ transform_img transform_obj
    (Datasets.__init__ fs split two_crop transform) i s = Some (it, s') ->
  exists img obj rel obj_mask rel_mask pair_idx caption caplen all_captions,
    it = Datasets.Evaluation img obj rel obj_mask rel_mask pair_idx caption
                             [caplen] all_captions
    /\ s' = s
    /\ i < Datasets.__len__ (Datasets.__init__ fs split two_crop transform)
    /\ nth_error (Datasets.CAPTIONS fs) i = Some caption
    /\ nth_error (Datasets.CAPLENS fs) i = Some caplen
    /\ length all_captions <= 5
    /\ (forall k, k < 5 ->
                  nth_error all_captions k
                  = nth_error (Datasets.ORIG_CAPTIONS fs) (i / 5 * 5 + k))
    /\ nth_error all_captions (i mod 5) = nth_error (Datasets.ORIG_CAPTIONS fs) i
    /\ (forall j caption' caplen',
          j / 5 = i / 5 ->
          nth_error (Datasets.CAPTIONS fs) j = Some caption' ->
          nth_error (Datasets.CAPLENS fs) j = Some caplen' ->
          Datasets.__getitem__ transform_img transform_obj
            (Datasets.__init__ fs split two_crop transform) j s
          = Some (Datasets.Evaluation img obj rel obj_mask rel_mask pair_idx
                                      caption' [caplen'] all_captions, s)).
Proof.
  intros Hsplit H. unfold Datasets.__getitem__ in H.
  cbn [Datasets.__init__ Datasets.cpi Datasets.objdet Datasets.sgdet
       Datasets.captions Datasets.caplens Datasets.orig_captions
       Datasets.split Datasets.transform Datasets.two_crop] in H.
  opt_inv H od E. opt_inv H sd E0. opt_inv H a1 E1. opt_inv H a2 E2.
  opt_inv H sg E3.
  destruct sg as [[[[obj rel] obj_mask] rel_mask] pair_idx].
  opt_inv H a4 E4.
  assert (Hit : it = Datasets.Evaluation a4 obj rel obj_mask rel_mask pair_idx a1
                       [a2]
                       (firstn (i / 5 * 5 + 5 - i / 5 * 5)
                               (skipn (i / 5 * 5) (Datasets.ORIG_CAPTIONS fs)))
                /\ s' = s).
  { destruct split; [now elim Hsplit | |]; injection H as <- <-; split; reflexivity. }
  destruct Hit as (-> & ->). clear H.
  exists a4, obj, rel, obj_mask, rel_mask, pair_idx, a1, a2. eexists.
  split; [reflexivity |]. split; [reflexivity |].
  split.
  { unfold Datasets.__len__. cbn. apply nth_error_Some. now rewrite E1. }
  split; [reflexivity |]. split; [reflexivity |].
  split.
  { replace (i / 5 * 5 + 5 - i / 5 * 5) with 5 by lia.
    rewrite length_firstn. lia. }
  split; [intros k Hk; now apply window_nth |].
  split.
  { rewrite window_nth by (apply Nat.mod_upper_bound; lia).
    f_equal. pose proof (Nat.div_mod_eq i 5). lia. }
  intros j caption' caplen' Hj Hc Hl. unfold Datasets.__getitem__.
  cbn [Datasets.__init__ Datasets.cpi Datasets.objdet Datasets.sgdet
       Datasets.captions Datasets.caplens Datasets.orig_captions
       Datasets.split Datasets.transform Datasets.two_crop].
  rewrite Hj, E, E0, Hc, Hl. cbn [Datasets.and_then].
  rewrite E3. cbn [Datasets.and_then]. rewrite E4. cbn [Datasets.and_then].
  destruct split; [now elim Hsplit | reflexivity | reflexivity].
Qed.

(** X21. In the validation and test splits, every item [__getitem__]
    serves lies below [__len__], carries caption [i] and its length, and the
    window of at most five reference captions that starts at the first
    caption of its image, so that caption [i] itself sits at offset
    [i mod 5]; and any index [j] of the same image ([j // 5 = i // 5])
    that has a caption and a length is served with the same image, object
    and relation tensors and the same references. *)
Theorem captions_of_an_image_share_their_references
  (transform_img transform_obj : mat -> rng -> mat * rng)
  (fs : Datasets.files) (split : Datasets.Split) (two_crop transform : bool)
  (i : nat) (s s' : rng) (it : Datasets.item) :
  split <> Datasets.TRAIN ->
  Datasets.__getitem__ transform_img transform_obj
    (Datasets.__init__ fs split two_crop transform) i s = Some (it, s') ->
  exists img obj rel obj_mask rel_mask pair_idx caption caplen all_captions,
    it = Datasets.Evaluation img obj rel obj_mask rel_mask pair_idx caption
                             [caplen] all_captions
    /\ s' = s
    /\ i < Datasets.__len__ (Datasets.__init__ fs split two_crop transform)
    /\ nth_error (Datasets.CAPTIONS fs) i = Some caption
    /\ nth_error (Datasets.CAPLENS fs) i = Some caplen
    /\ length all_captions <= 5
    /\ (forall k, k < 5 ->
                  nth_error all_captions k
                  = nth_error (Datasets.ORIG_CAPTIONS fs) (i / 5 * 5 + k))
    /\ nth_error all_captions (i mod 5) = nth_error (Datasets.ORIG_CAPTIONS fs) i
    /\ (forall j caption' caplen',
          j / 5 = i / 5 ->
          nth_error (Datasets.CAPTIONS fs) j = Some caption' ->
          nth_error (Datasets.CAPLENS fs) j = Some caplen' ->
          Datasets.__getitem__ transform_img transform_obj
            (Datasets.__init__ fs split two_crop transform) j s
          = Some (Datasets.Evaluation img obj rel obj_mask rel_mask pair_idx
                                      caption' [caplen'] all_captions, s)).
Proof.
  exact (getitem_spec transform_img transform_obj fs split two_crop transform
           i s s' it).
Qed.

Lemma captions_of_an_image_share_their_references_witness :
  Datasets.VAL <> Datasets.TRAIN
  /\ exists it,
      Datasets.__getitem__ (fun m s => (m, s)) (fun m s => (m, s))
        (Datasets.__init__ small_files Datasets.VAL false false) 6 no_draws
      = Some (it, no_draws)
      /\ exists img obj rel obj_mask rel_mask pair_idx caption caplen all_captions,
          it = Datasets.Evaluation img obj rel obj_mask rel_mask pair_idx caption
                                   [caplen] all_captions
          /\ nth_error all_captions (6 mod 5)
             = nth_error (Datasets.ORIG_CAPTIONS small_files) 6.
Proof.
  split; [discriminate |]. eexists. split; [reflexivity |].
  destruct (captions_of_an_image_share_their_references
              (fun m s => (m, s)) (fun m s => (m, s)) small_files Datasets.VAL
              false false 6 no_draws no_draws _ ltac:(discriminate) eq_refl)
    as (img & obj & rel & om & rm & pairs & caption & caplen & refs
        & Hit & _ & _ & _ & _ & _ & _ & Hown & _).
  exists img, obj, rel, om, rm, pairs, caption, caplen, refs.
  split; [exact Hit | exact Hown].
Defined.
